(** * Downstream heads of GLM ([model/downstream.py])

    A shallow embedding of the three prediction heads [ClozeModel],
    [VerbalizerModel] and [PoolingModel], and the properties of their
    [forward] methods.

    Tensors are flat row-major storage with a shape, as in torch.  Float
    tensors hold binary64 values ([PrimFloat]); index tensors hold [Z]
    (torch.long).  The language model, the float reductions and the
    transcendental functions of torch are parameters. *)

From Stdlib Require Import String.
From Stdlib Require Import Floats ZArith List Bool Lia Arith PeanoNat.
Import ListNotations.
Local Open Scope nat_scope.

(** ** Outcomes of a call *)

(** What a Python call can end in, besides returning.  [OutsideModel] is
    not a Python exception: it marks shape combinations that this embedding
    does not describe (there torch may still compute a result, by
    broadcasting or over further dimensions, or raise a shape error). *)
Inductive failure : Set :=
| AssertionError
| NotImplementedError
| IndexError
| RuntimeError
| OutsideModel.

Inductive outcome (A : Type) : Type :=
| Return (a : A)
| Raise (e : failure).
Arguments Return {A} a.
Arguments Raise {A} e.

Definition obind {A B} (m : outcome A) (k : A -> outcome B) : outcome B :=
  match m with
  | Return a => k a
  | Raise e => Raise e
  end.

(** ** Tensors *)

Record tensor (A : Type) : Type := mkTensor { shape : list nat; data : list A }.
Arguments mkTensor {A} shape data.
Arguments shape {A} t.
Arguments data {A} t.

Definition numel (s : list nat) : nat := fold_right Nat.mul 1 s.
Definition rank {A} (t : tensor A) : nat := length (shape t).

(** Storage and shape agree. *)
Definition wf {A} (t : tensor A) : Prop := length (data t) = numel (shape t).

Definition shape_eqb (s1 s2 : list nat) : bool :=
  if list_eq_dec Nat.eq_dec s1 s2 then true else false.

Definition tabulate {A} (n : nat) (f : nat -> A) : list A := map f (seq 0 n).

(** The [i]-th contiguous block of [w] elements. *)
Definition block {A} (w : nat) (l : list A) (i : nat) : list A :=
  firstn w (skipn (i * w) l).

(** Row [i] along the first dimension: [t[i]], flattened. *)
Definition trow {A} (t : tensor A) (i : nat) : list A :=
  block (numel (tl (shape t))) (data t) i.

Fixpoint mapM {A B} (f : A -> option B) (l : list A) : option (list B) :=
  match l with
  | [] => Some []
  | x :: l' =>
      match f x, mapM f l' with
      | Some y, Some ys => Some (y :: ys)
      | _, _ => None
      end
  end.

(** Python index normalisation: [-size <= i < size], negatives count from
    the end. *)
Definition norm_index (size : nat) (i : Z) : option nat :=
  if ((0 <=? i) && (i <? Z.of_nat size))%Z then Some (Z.to_nat i)
  else if ((- Z.of_nat size <=? i) && (i <? 0))%Z then Some (Z.to_nat (i + Z.of_nat size))
  else None.

(** Row-major offset of a (partial) multi-index; [None] when an index is out
    of range or there are more indices than dimensions. *)
Fixpoint offset (dims : list nat) (ix : list Z) (acc : nat) : option nat :=
  match ix with
  | [] => Some acc
  | i :: ix' =>
      match dims with
      | [] => None
      | d :: dims' =>
          match norm_index d i with
          | Some n => offset dims' ix' (acc * d + n)
          | None => None
          end
      end
  end.

(** Element access by a full multi-index, for stating properties. *)
Definition tget {A} (t : tensor A) (ix : list nat) : option A :=
  if length ix =? rank t then
    match offset (shape t) (map Z.of_nat ix) 0 with
    | Some o => nth_error (data t) o
    | None => None
    end
  else None.

(** [x.size(0)] and [x.size(-1)]. *)
Definition size0 {A} (t : tensor A) : outcome nat :=
  match shape t with
  | [] => Raise IndexError
  | d :: _ => Return d
  end.

Definition size_last {A} (t : tensor A) : outcome nat :=
  match shape t with
  | [] => Raise IndexError
  | _ :: _ => Return (last (shape t) 0)
  end.

(** [x.reshape(-1, *rest)] and [x.view(-1, *rest)] on contiguous storage:
    the leading size is inferred; torch refuses when it is ambiguous or when
    the sizes do not divide the number of elements. *)
Definition reshape_infer {A} (t : tensor A) (rest : list nat) : outcome (tensor A) :=
  let m := numel rest in
  if m =? 0 then Raise RuntimeError
  else if numel (shape t) mod m =? 0
       then Return (mkTensor (numel (shape t) / m :: rest) (data t))
       else Raise RuntimeError.

(** [torch.arange(n, dtype=torch.long)]. *)
Definition arange (n : nat) : tensor Z := mkTensor [n] (map Z.of_nat (seq 0 n)).

(** [x.unsqueeze(d)]. *)
Definition unsqueeze {A} (d : nat) (t : tensor A) : tensor A :=
  mkTensor (firstn d (shape t) ++ 1 :: skipn d (shape t)) (data t).

(** [x.expand_as(other)] for a 2-D [x]; a size-1 dimension is repeated. *)
Definition expand_as {A B} (t : tensor A) (other : tensor B) : outcome (tensor A) :=
  match shape t, shape other with
  | [a; b], [n; p] =>
      if ((a =? n) || (a =? 1)) && ((b =? p) || (b =? 1)) then
        let cols := if b =? p then data t
                    else flat_map (fun x => repeat x p) (data t) in
        let rows := if a =? n then cols else concat (repeat cols n) in
        Return (mkTensor [n; p] rows)
      else Raise RuntimeError
  | [_; _], [] => Raise RuntimeError
  | [_; _], [_] => Raise RuntimeError
  | _, _ => Raise OutsideModel
  end.

(** Advanced indexing [t[i1, ..., ik]] with integer index tensors of one
    common shape [s]: the result has shape [s ++ trailing dimensions] and
    holds, for every position [q] of [s], the block of [t] at
    [(i1[q], ..., ik[q])].  An index out of range raises [IndexError]. *)
Definition adv_index {A} (t : tensor A) (idx : list (tensor Z)) : outcome (tensor A) :=
  match idx with
  | [] => Raise OutsideModel
  | i0 :: others =>
      if forallb (fun i => shape_eqb (shape i) (shape i0)) others then
        if length idx <=? rank t then
          let trailing := skipn (length idx) (shape t) in
          let w := numel trailing in
          match mapM (fun q =>
                        match offset (shape t) (map (fun i => nth q (data i) 0%Z) idx) 0 with
                        | Some o => Some (block w (data t) o)
                        | None => None
                        end)
                     (seq 0 (numel (shape i0))) with
          | Some blocks => Return (mkTensor (shape i0 ++ trailing) (concat blocks))
          | None => Raise IndexError
          end
        else Raise IndexError
      else Raise OutsideModel
  end.

(** Basic indexing [t[:, j]]: position [j] of the second dimension. *)
Definition select_dim1 {A} (t : tensor A) (j : Z) : outcome (tensor A) :=
  match shape t with
  | n :: l :: trailing =>
      match norm_index l j with
      | Some k =>
          let w := numel trailing in
          Return (mkTensor (n :: trailing)
                    (concat (tabulate n (fun r => block w (data t) (r * l + k)))))
      | None => Raise IndexError
      end
  | _ => Raise IndexError
  end.

(** Elementwise operations; the binary ones on operands of one shape. *)
Definition tmap {A B} (f : A -> B) (t : tensor A) : tensor B :=
  mkTensor (shape t) (map f (data t)).

Definition tmap2 {A B C} (f : A -> B -> C) (a : tensor A) (b : tensor B) : outcome (tensor C) :=
  if shape_eqb (shape a) (shape b)
  then Return (mkTensor (shape a) (map (fun xy => f (fst xy) (snd xy)) (combine (data a) (data b))))
  else Raise OutsideModel.

(** Two's complement wrap-around of torch.long. *)
Definition wrap64 (z : Z) : Z := ((z + 2 ^ 63) mod 2 ^ 64 - 2 ^ 63)%Z.

(** ** The tensor engine *)

(** Functions of torch whose float results depend on the engine (order of
    accumulation, libm): the reduction of one row by [sum], [pow] with a
    Python float exponent, [log_softmax] of one vector and [tanh]. *)
Record Engine : Type := {
  torch_sum : list float -> float;
  torch_pow : float -> float -> float;
  torch_log_softmax : list float -> list float;
  torch_tanh : float -> float;
  torch_log_softmax_length : forall v, length (torch_log_softmax v) = length v
}.

(** [torch.nn.Linear]: an affine map on the last dimension. *)
Record Linear : Type := {
  in_features : nat;
  out_features : nat;
  affine : list float -> list float;
  affine_length : forall x, length x = in_features -> length (affine x) = out_features
}.

(** [torch.nn.Dropout]: elementwise, with the random draw of a call fixed per
    storage position (the identity in evaluation mode). *)
Record Dropout : Type := { draw : nat -> float -> float }.

Section EngineOps.
Variable E : Engine.

(** [torch.nn.functional.log_softmax(t, dim=-1)]. *)
Definition log_softmax_last (t : tensor float) : tensor float :=
  let v := last (shape t) 1 in
  mkTensor (shape t)
    (concat (tabulate (numel (removelast (shape t)))
               (fun i => torch_log_softmax E (block v (data t) i)))).

(** [t.sum(dim=1)]. *)
Definition sum_dim1 (t : tensor float) : outcome (tensor float) :=
  match shape t with
  | [] => Raise IndexError
  | [_] => Raise IndexError
  | [n; p] => Return (mkTensor [n] (tabulate n (fun r => torch_sum E (block p (data t) r))))
  | _ => Raise OutsideModel
  end.

(** [t ** y] for a Python float [y]. *)
Definition tpow (t : tensor float) (y : float) : tensor float :=
  tmap (fun x => torch_pow E x y) t.

Definition ttanh (t : tensor float) : tensor float := tmap (torch_tanh E) t.
End EngineOps.

Definition tmul (a b : tensor float) : outcome (tensor float) := tmap2 PrimFloat.mul a b.
Definition tdiv (a b : tensor float) : outcome (tensor float) := tmap2 PrimFloat.div a b.

Definition Linear_apply (l : Linear) (t : tensor float) : outcome (tensor float) :=
  match shape t with
  | [] => Raise RuntimeError
  | _ :: _ =>
      if last (shape t) 0 =? in_features l then
        Return (mkTensor (removelast (shape t) ++ [out_features l])
                  (concat (tabulate (numel (removelast (shape t)))
                             (fun i => affine l (block (in_features l) (data t) i)))))
      else Raise RuntimeError
  end.

(** The draws of the storage positions [start, start + 1, ...] applied to a
    list. *)
Definition dropout_from (d : Dropout) (start : nat) (l : list float) : list float :=
  map (fun qx => draw d (fst qx) (snd qx)) (combine (seq start (length l)) l).

Definition Dropout_apply (d : Dropout) (t : tensor float) : tensor float :=
  mkTensor (shape t) (dropout_from d 0 (data t)).

(** ** Calls of the language model *)

(** The arguments of one invocation of the language model. *)
Definition lm_call : Type := (tensor Z * tensor Z * tensor Z)%type.

(** A computation: the invocations of the language model it made, in order,
    and how it ended. *)
Record run (A : Type) : Type := mkRun { calls : list lm_call; result : outcome A }.
Arguments mkRun {A} calls result.
Arguments calls {A} r.
Arguments result {A} r.

Definition ret {A} (a : A) : run A := mkRun [] (Return a).
Definition raise {A} (e : failure) : run A := mkRun [] (Raise e).
Definition lift {A} (o : outcome A) : run A := mkRun [] o.

Definition bind {A B} (m : run A) (k : A -> run B) : run B :=
  match result m with
  | Return a => mkRun (calls m ++ calls (k a)) (result (k a))
  | Raise e => mkRun (calls m) (Raise e)
  end.

(** Python [assert], with assertions enabled. *)
Definition assert (b : bool) : run unit := if b then ret tt else raise AssertionError.

Declare Scope run_scope.
Delimit Scope run_scope with run.
Notation "x <- m ;; k" := (bind m (fun x => k))
  (at level 61, m at next level, right associativity) : run_scope.
Notation "' pat <- m ;; k" := (bind m (fun pat => k))
  (at level 61, pat pattern, m at next level, right associativity) : run_scope.

Section LanguageModel.
(** The auxiliary state ([mems]) is opaque. *)
Context {mem : Type}.

(** [language_model(input_ids, position_ids, attention_mask)] returns
    [(outputs, *mems)]. *)
Definition language_model_t : Type :=
  tensor Z -> tensor Z -> tensor Z -> outcome (tensor float * list mem).

Definition invoke (lm : language_model_t) (input_ids position_ids attention_mask : tensor Z)
  : run (tensor float * list mem) :=
  mkRun [(input_ids, position_ids, attention_mask)] (lm input_ids position_ids attention_mask).
End LanguageModel.
Arguments language_model_t mem : clear implicits.

(** ** [class ClozeModel] *)

Module ClozeModel.
Section Class.
Context {mem : Type}.
Variable E : Engine.
Local Open Scope run_scope.

Record t : Type := {
  model : language_model_t mem;
  take_softmax : bool;
  length_penalty : float
}.

(** [__init__(self, language_model, take_softmax=True, length_penalty=0.0)];
    [None] stands for an omitted argument. *)
Definition init (language_model : language_model_t mem)
    (take_softmax : option bool) (length_penalty : option float) : t :=
  {| model := language_model;
     take_softmax := match take_softmax with Some b => b | None => true end;
     length_penalty := match length_penalty with Some p => p | None => 0%float end |}.

Definition forward (self : t)
    (input_ids position_ids attention_mask target_ids : tensor Z)
    (logit_mask : tensor float) : run (tensor float * list mem) :=
  '(num_choices, input_ids, position_ids, attention_mask, target_ids, logit_mask) <-
    (if rank input_ids =? 3 then
       let num_choices := nth 1 (shape input_ids) 0 in
       input_ids <- lift (reshape_infer input_ids [last (shape input_ids) 0]) ;;
       attention_mask <- lift (reshape_infer attention_mask (skipn 2 (shape attention_mask))) ;;
       position_ids <- lift (reshape_infer position_ids (skipn 2 (shape position_ids))) ;;
       target_last <- lift (size_last target_ids) ;;
       target_ids <- lift (reshape_infer target_ids [target_last]) ;;
       mask_last <- lift (size_last logit_mask) ;;
       logit_mask <- lift (reshape_infer logit_mask [mask_last]) ;;
       ret (Some num_choices, input_ids, position_ids, attention_mask, target_ids, logit_mask)
     else
       ret (None, input_ids, position_ids, attention_mask, target_ids, logit_mask)) ;;
  '(outputs, mems) <- invoke (model self) input_ids position_ids attention_mask ;;
  let outputs := if take_softmax self then log_softmax_last E outputs else outputs in
  n <- lift (size0 target_ids) ;;
  batch_ids <- lift (expand_as (unsqueeze 1 (arange n)) target_ids) ;;
  p <- lift (size_last target_ids) ;;
  seq_ids <- lift (expand_as (unsqueeze 0 (arange p)) target_ids) ;;
  logits <- lift (adv_index outputs [batch_ids; seq_ids; target_ids]) ;;
  logits <- lift (obind (tmul logits logit_mask) (sum_dim1 E)) ;;
  logits <- (if (0 <? length_penalty self)%float then
               norm <- lift (sum_dim1 E logit_mask) ;;
               lift (tdiv logits (tpow E norm (length_penalty self)))
             else ret logits) ;;
  logits <- (match num_choices with
             | Some c => lift (reshape_infer logits [c])
             | None => ret logits
             end) ;;
  ret (logits, mems).
End Class.
End ClozeModel.

(** ** [class VerbalizerModel] *)

Module VerbalizerModel.
Section Class.
Context {mem : Type}.
Local Open Scope run_scope.

Record t : Type := { model : language_model_t mem }.

Definition init (language_model : language_model_t mem) : t :=
  {| model := language_model |}.

Definition forward (self : t)
    (input_ids position_ids attention_mask target_ids : tensor Z)
    (logit_mask : tensor float) : run (tensor float * list mem) :=
  _ <- assert (rank input_ids =? 2) ;;
  '(outputs, mems) <- invoke (model self) input_ids position_ids attention_mask ;;
  n <- lift (size0 outputs) ;;
  let batch_ids := arange n in
  output <- lift (adv_index outputs [batch_ids; attention_mask]) ;;
  batch_ids <- lift (expand_as (unsqueeze 1 batch_ids) target_ids) ;;
  output <- lift (adv_index output [batch_ids; target_ids]) ;;
  ret (output, mems).
End Class.
End VerbalizerModel.

(** ** [class PoolingModel] *)

Module PoolingModel.
Section Class.
Context {mem : Type}.
Variable E : Engine.
Local Open Scope run_scope.

(** The state built by [__init__]: [pool_layer] maps [hidden_size] to
    [hidden_size] and [multichoice_head] maps [hidden_size] to [num_class]. *)
Record t : Type := {
  pool_token : string;
  model : language_model_t mem;
  num_class : nat;
  pool_layer : Linear;
  multichoice_dropout : Dropout;
  multichoice_head : Linear
}.

Definition forward (self : t)
    (input_ids position_ids attention_mask : tensor Z) : run (tensor float * list mem) :=
  '(num_choices, input_ids, position_ids, attention_mask) <-
    (if rank input_ids =? 3 then
       _ <- assert (num_class self =? 1) ;;
       let num_choices := nth 1 (shape input_ids) 0 in
       input_ids <- lift (reshape_infer input_ids [last (shape input_ids) 0]) ;;
       attention_mask <- lift (reshape_infer attention_mask (skipn 2 (shape attention_mask))) ;;
       position_ids <- lift (reshape_infer position_ids (skipn 2 (shape position_ids))) ;;
       ret (Some num_choices, input_ids, position_ids, attention_mask)
     else
       ret (None, input_ids, position_ids, attention_mask)) ;;
  '(outputs, mems) <- invoke (model self) input_ids position_ids attention_mask ;;
  output <-
    (if String.eqb (pool_token self) "start" then
       n <- lift (size0 outputs) ;;
       lift (adv_index outputs [arange n; attention_mask])
     else if String.eqb (pool_token self) "pad" then
       n <- lift (size0 outputs) ;;
       lift (adv_index outputs [arange n; tmap (fun a => wrap64 (a - 1)) attention_mask])
     else if String.eqb (pool_token self) "cls" then
       lift (select_dim1 outputs 0)
     else raise NotImplementedError) ;;
  output <- lift (Linear_apply (pool_layer self) output) ;;
  let output := ttanh E output in
  let multichoice_output := Dropout_apply (multichoice_dropout self) output in
  logits <- lift (Linear_apply (multichoice_head self) multichoice_output) ;;
  logits <- (match num_choices with
             | Some c => lift (reshape_infer logits [c])
             | None => ret logits
             end) ;;
  ret (logits, mems).
End Class.
End PoolingModel.

(** ** Reading tensors in statements *)

(** [in_range size i]: [i] is a valid Python index into a dimension of
    [size], and [pos_index size i] is the position it denotes. *)
Definition in_range (size : nat) (i : Z) : bool :=
  ((- Z.of_nat size <=? i) && (i <? Z.of_nat size))%Z.

Definition pos_index (size : nat) (i : Z) : nat :=
  Z.to_nat (if (i <? 0)%Z then i + Z.of_nat size else i)%Z.

Definition all_in_range (size : nat) (t : tensor Z) : bool :=
  forallb (in_range size) (data t).

(** [t[i1, ..., ik].item()] with Python indices; [d] where there is no such
    element. *)
Definition item {A} (d : A) (t : tensor A) (ix : list Z) : A :=
  if length ix =? rank t then
    match offset (shape t) ix 0 with
    | Some o => nth o (data t) d
    | None => d
    end
  else d.

Definition fitem (t : tensor float) (ix : list Z) : float := item nan t ix.
Definition zitem (t : tensor Z) (ix : list Z) : Z := item 0%Z t ix.

(** [t[i1, ..., ik]] for Python indices, flattened; empty where there is no
    such sub-tensor. *)
Definition vector_at {A} (t : tensor A) (ix : list Z) : list A :=
  match offset (shape t) ix 0 with
  | Some o => block (numel (skipn (length ix) (shape t))) (data t) o
  | None => []
  end.

(** ** The inputs handed to the language model *)

(** Lines 32-38 of [ClozeModel.forward]: a choice dimension is flattened
    into the batch and its size is recorded. *)
Definition flatten_cloze_inputs
    (input_ids position_ids attention_mask target_ids : tensor Z)
    (logit_mask : tensor float)
  : outcome (option nat * tensor Z * tensor Z * tensor Z * tensor Z * tensor float) :=
  if rank input_ids =? 3 then
    obind (reshape_infer input_ids [last (shape input_ids) 0]) (fun flat_ids =>
    obind (reshape_infer attention_mask (skipn 2 (shape attention_mask))) (fun flat_mask =>
    obind (reshape_infer position_ids (skipn 2 (shape position_ids))) (fun flat_positions =>
    obind (size_last target_ids) (fun target_last =>
    obind (reshape_infer target_ids [target_last]) (fun flat_targets =>
    obind (size_last logit_mask) (fun mask_last =>
    obind (reshape_infer logit_mask [mask_last]) (fun flat_logit_mask =>
    Return (Some (nth 1 (shape input_ids) 0), flat_ids, flat_positions, flat_mask,
            flat_targets, flat_logit_mask))))))))
  else Return (None, input_ids, position_ids, attention_mask, target_ids, logit_mask).

(** Lines 85-88 of [PoolingModel.forward]. *)
Definition flatten_pooling_inputs (input_ids position_ids attention_mask : tensor Z)
  : outcome (option nat * tensor Z * tensor Z * tensor Z) :=
  if rank input_ids =? 3 then
    obind (reshape_infer input_ids [last (shape input_ids) 0]) (fun flat_ids =>
    obind (reshape_infer attention_mask (skipn 2 (shape attention_mask))) (fun flat_mask =>
    obind (reshape_infer position_ids (skipn 2 (shape position_ids))) (fun flat_positions =>
    Return (Some (nth 1 (shape input_ids) 0), flat_ids, flat_positions, flat_mask))))
  else Return (None, input_ids, position_ids, attention_mask).

(** Un-flattening the scores: [logits.view(-1, num_choices)]. *)
Definition view_choices {mem} (num_choices : nat) (r : tensor float * list mem)
  : run (tensor float * list mem) :=
  bind (lift (reshape_infer (fst r) [num_choices])) (fun logits => ret (logits, snd r)).

(** The shape of a result of [n] flattened rows of width [w]. *)
Definition choice_shape (num_choices : option nat) (n : nat) (w : list nat) : list nat :=
  match num_choices with
  | None => n :: w
  | Some c => [numel (n :: w) / c; c]
  end.

(** The score of flattened row [r] in the result: the entry [r] of a 1-D
    result, the entry [r / c, r mod c] of a result with [c] choices. *)
Definition choice_entry {A} (num_choices : option nat) (t : tensor A) (r : nat) : option A :=
  match num_choices with
  | None => tget t [r]
  | Some c => tget t [r / c; r mod c]
  end.

(** The logits of flattened row [r]: row [r] of a 2-D result, the single
    entry [r / c, r mod c] of a result with [c] choices. *)
Definition choice_row {A} (num_choices : option nat) (t : tensor A) (r : nat) : list A :=
  match num_choices with
  | None => trow t r
  | Some c =>
      match tget t [r / c; r mod c] with
      | Some x => [x]
      | None => []
      end
  end.

(** ** What [ClozeModel.forward] is expected to compute *)

Section ClozeScore.
Variable E : Engine.

(** The tensor the targets are read from. *)
Definition cloze_outputs (take_softmax : bool) (outputs : tensor float) : tensor float :=
  if take_softmax then log_softmax_last E outputs else outputs.

(** Sum over the positions [j < p] of
    [logit_mask[r, j] * G[r, j, target_ids[r, j]]]. *)
Definition masked_sum (G : tensor float) (target_ids : tensor Z)
    (logit_mask : tensor float) (p r : nat) : float :=
  torch_sum E
    (tabulate p (fun j =>
       (fitem logit_mask [Z.of_nat r; Z.of_nat j] *
        fitem G [Z.of_nat r; Z.of_nat j;
                 zitem target_ids [Z.of_nat r; Z.of_nat j]])%float)).

(** Sum of row [r] of the mask. *)
Definition mask_sum (logit_mask : tensor float) (r : nat) : float :=
  torch_sum E (trow logit_mask r).

(** The score of row [r] for a length penalty [lp]. *)
Definition cloze_score (lp : float) (G : tensor float) (target_ids : tensor Z)
    (logit_mask : tensor float) (p r : nat) : float :=
  if (0 <? lp)%float
  then (masked_sum G target_ids logit_mask p r /
        torch_pow E (mask_sum logit_mask r) lp)%float
  else masked_sum G target_ids logit_mask p r.
End ClozeScore.

(** A language model computes every output row from the matching rows of
    its inputs: [f] maps the rows to the [l * v] outputs of the row. *)
Definition row_wise {mem} (lm : language_model_t mem)
    (f : list Z -> list Z -> list Z -> list float) (v : nat) : Prop :=
  (forall x y z, length (f x y z) = length x * v) /\
  forall input_ids position_ids attention_mask n l,
    shape input_ids = [n; l] ->
    exists mems,
      lm input_ids position_ids attention_mask =
      Return (mkTensor [n; l; v]
                (concat (tabulate n (fun r =>
                   f (trow input_ids r) (trow position_ids r) (trow attention_mask r)))),
              mems).

Section RowScore.
Variable E : Engine.

(** The score of one row from the outputs, targets and mask of that row. *)
Definition row_score (take_softmax : bool) (lp : float) (v p : nat)
    (outputs_row : list float) (targets_row : list Z) (mask_row : list float) : float :=
  let G j k :=
    nth k (if take_softmax then torch_log_softmax E (block v outputs_row j)
           else block v outputs_row j) nan in
  let total :=
    torch_sum E (tabulate p (fun j =>
      (nth j mask_row nan * G j (pos_index v (nth j targets_row 0%Z)))%float)) in
  if (0 <? lp)%float then (total / torch_pow E (torch_sum E mask_row) lp)%float
  else total.
End RowScore.

(** ** What [PoolingModel.forward] is expected to compute *)

(** The sequence position pooled for row [r]. *)
Definition pool_position (pool_token : string) (attention_mask : tensor Z) (r : nat) : Z :=
  if String.eqb pool_token "start" then zitem attention_mask [Z.of_nat r]
  else if String.eqb pool_token "pad" then (zitem attention_mask [Z.of_nat r] - 1)%Z
  else 0%Z.

Definition positions_in_range (pool_token : string) (attention_mask : tensor Z)
    (n l : nat) : bool :=
  forallb (fun r => in_range l (pool_position pool_token attention_mask r)) (seq 0 n).

(** The head applied to the pooled vector of row [r]: the linear projection,
    [tanh], the dropout draws of that row and the final linear layer. *)
Definition classifier {mem} (E : Engine) (self : PoolingModel.t (mem := mem))
    (r : nat) (pooled : list float) : list float :=
  affine (PoolingModel.multichoice_head self)
    (dropout_from (PoolingModel.multichoice_dropout self)
       (r * out_features (PoolingModel.pool_layer self))
       (map (torch_tanh E) (affine (PoolingModel.pool_layer self) pooled))).

(** ** Variations of the inputs *)

(** A Python index in [-size, 0) written as the position it denotes; other
    indices are left as they are. *)
Definition normalize_index (size : nat) (i : Z) : Z :=
  if ((- Z.of_nat size <=? i) && (i <? 0))%Z then (i + Z.of_nat size)%Z else i.

(** [t + 1] in the arithmetic of torch.long. *)
Definition increment (t : tensor Z) : tensor Z := tmap (fun a => wrap64 (a + 1)) t.

(** The entries of [t] are values of torch.long. *)
Definition is_long (t : tensor Z) : bool :=
  forallb (fun a => (- 2 ^ 63 <=? a) && (a <? 2 ^ 63))%Z (data t).

(** The model [self] constructed with another [pool_token]. *)
Definition with_pool_token {mem} (pool_token : string) (self : PoolingModel.t (mem := mem))
  : PoolingModel.t (mem := mem) :=
  {| PoolingModel.pool_token := pool_token;
     PoolingModel.model := PoolingModel.model self;
     PoolingModel.num_class := PoolingModel.num_class self;
     PoolingModel.pool_layer := PoolingModel.pool_layer self;
     PoolingModel.multichoice_dropout := PoolingModel.multichoice_dropout self;
     PoolingModel.multichoice_head := PoolingModel.multichoice_head self |}.

(** ** A concrete engine and language model for examples *)

(** Left-to-right summation. *)
Definition seq_sum (l : list float) : float := fold_left PrimFloat.add l 0%float.

(** [pow] where it is exact: a zero base, and the exponents 1 and 2; [nan]
    stands for the values this table does not give. *)
Definition table_pow (x y : float) : float :=
  if is_zero x then
    (if (0 <? y)%float then 0%float
     else if (y =? 0)%float then 1%float else infinity)
  else if (y =? 1)%float then x
  else if (y =? 2)%float then (x * x)%float
  else nan.

(** A stand-in for [log_softmax]: every entry minus the largest one. *)
Definition shift_max (v : list float) : list float :=
  map (fun x => (x - fold_left (fun a b => if (a <? b)%float then b else a) v neg_infinity)%float) v.

Definition sample_engine : Engine :=
  {| torch_sum := seq_sum;
     torch_pow := table_pow;
     torch_log_softmax := shift_max;
     torch_tanh := fun x => x;
     torch_log_softmax_length := fun v => length_map _ v |}.

(** A language model that computes every output row from the matching input
    rows only: [f] gives the [l * v] outputs of one row. *)
Definition row_wise_model {mem} (f : list Z -> list Z -> list Z -> list float)
    (v : nat) (mems : list mem) : language_model_t mem :=
  fun input_ids position_ids attention_mask =>
    match shape input_ids with
    | [n; l] =>
        Return (mkTensor [n; l; v]
                  (concat (tabulate n (fun r =>
                     f (trow input_ids r) (trow position_ids r) (trow attention_mask r)))),
                mems)
    | _ => Raise OutsideModel
    end.

Definition float_of_Z (z : Z) : float := of_uint63 (Uint63.of_Z z).

(** Three outputs per token [i]: [i], [i + 1] and [2 * i]. *)
Definition sample_row (ids _ _ : list Z) : list float :=
  flat_map (fun i => [float_of_Z i; float_of_Z (i + 1); float_of_Z (2 * i)]) ids.

Definition sample_model : language_model_t nat := row_wise_model sample_row 3 [7; 8].

(** Sample batches: two rows of two tokens. *)
Definition sample_ids : tensor Z := mkTensor [2; 2] [1; 2; 3; 4]%Z.
Definition sample_targets : tensor Z := mkTensor [2; 2] [0; 1; 2; -1]%Z.
Definition sample_mask : tensor float := mkTensor [2; 2] [1; 1; 1; 0]%float.
Definition sample_zero_mask : tensor float := mkTensor [2; 2] [0; 0; 1; 1]%float.

(** The outputs of [sample_model] on [sample_ids]. *)
Definition sample_outputs : tensor float :=
  mkTensor [2; 2; 3] [1; 2; 2; 2; 3; 4; 3; 4; 6; 4; 5; 8]%float.

Definition sample_cloze : ClozeModel.t := ClozeModel.init sample_model None None.
Definition sample_cloze_penalty : ClozeModel.t :=
  ClozeModel.init sample_model (Some false) (Some 1%float).

(** Per-row positions for [VerbalizerModel] and [PoolingModel]. *)
Definition sample_positions : tensor Z := mkTensor [2] [1; 0]%Z.

Definition sample_verbalizer : VerbalizerModel.t := VerbalizerModel.init sample_model.

(** A layer that adds the sum of its input to the index of each output. *)
Definition sample_linear (i o : nat) : Linear :=
  {| in_features := i;
     out_features := o;
     affine := fun x =>
       map (fun j => (seq_sum x + float_of_Z (Z.of_nat j))%float) (seq 0 o);
     affine_length := fun x _ =>
       eq_trans (length_map _ (seq 0 o)) (length_seq o 0) |}.

(** Dropout in evaluation mode. *)
Definition no_dropout : Dropout := {| draw := fun _ x => x |}.

Definition sample_pooling (pool_token : string) (num_class : nat) : PoolingModel.t :=
  {| PoolingModel.pool_token := pool_token;
     PoolingModel.model := sample_model;
     PoolingModel.num_class := num_class;
     PoolingModel.pool_layer := sample_linear 3 3;
     PoolingModel.multichoice_dropout := no_dropout;
     PoolingModel.multichoice_head := sample_linear 3 num_class |}.

(** A batch of one sample with two choices. *)
Definition sample_choices : tensor Z := mkTensor [1; 2; 2] [1; 2; 3; 4]%Z.

(** Targets and mask for [sample_choices]. *)
Definition sample_choice_targets : tensor Z := mkTensor [1; 2; 2] [0; 1; 2; -1]%Z.
Definition sample_choice_mask : tensor float := mkTensor [1; 2; 2] [1; 1; 1; 0]%float.

(** One position per choice of [sample_choices]. *)
Definition sample_choice_positions : tensor Z := mkTensor [1; 2] [1; 0]%Z.

(** A head built for hidden vectors of width 4, on a language model whose
    hidden vectors have width 3. *)
Definition sample_wide_pooling : PoolingModel.t :=
  {| PoolingModel.pool_token := "cls";
     PoolingModel.model := sample_model;
     PoolingModel.num_class := 1;
     PoolingModel.pool_layer := sample_linear 4 4;
     PoolingModel.multichoice_dropout := no_dropout;
     PoolingModel.multichoice_head := sample_linear 4 1 |}.

(** A language model that fails on every input. *)
Definition failing_model : language_model_t nat := fun _ _ _ => Raise RuntimeError.

(** * Properties *)

(** ** Lists, blocks and tabulation *)

Section ListFacts.
Context {A : Type}.

Lemma length_tabulate (n : nat) (f : nat -> A) : length (tabulate n f) = n.
Proof. unfold tabulate. now rewrite length_map, length_seq. Qed.

Lemma nth_tabulate (n : nat) (f : nat -> A) (i : nat) (d : A) :
  i < n -> nth i (tabulate n f) d = f i.
Proof.
  intros Hi. unfold tabulate.
  rewrite (nth_indep _ d (f 0)) by now rewrite length_map, length_seq.
  rewrite map_nth, seq_nth by assumption. reflexivity.
Qed.

Lemma nth_error_tabulate (n : nat) (f : nat -> A) (i : nat) :
  i < n -> nth_error (tabulate n f) i = Some (f i).
Proof.
  intros Hi. rewrite (nth_error_nth' _ (f 0)) by now rewrite length_tabulate.
  now rewrite nth_tabulate.
Qed.

Lemma tabulate_ext (n : nat) (f g : nat -> A) :
  (forall i, i < n -> f i = g i) -> tabulate n f = tabulate n g.
Proof.
  intros H. unfold tabulate. apply map_ext_in.
  intros i Hi. apply in_seq in Hi. apply H. lia.
Qed.

(** A list is the tabulation of its elements. *)
Lemma list_eq_tabulate (l : list A) (n : nat) (f : nat -> A) (d : A) :
  length l = n -> (forall i, i < n -> nth i l d = f i) -> l = tabulate n f.
Proof.
  intros Hl H. apply (nth_ext _ _ d d).
  - now rewrite length_tabulate.
  - intros i Hi. rewrite Hl in Hi. rewrite nth_tabulate by assumption. now apply H.
Qed.

Lemma tabulate_snoc (n : nat) (f : nat -> A) :
  tabulate (S n) f = tabulate n f ++ [f n].
Proof. unfold tabulate. rewrite seq_S, map_app. reflexivity. Qed.

Lemma length_block (w : nat) (l : list A) (i : nat) :
  (i + 1) * w <= length l -> length (block w l i) = w.
Proof.
  intros H. unfold block. rewrite length_firstn, length_skipn. nia.
Qed.

Lemma nth_block (w : nat) (l : list A) (i p : nat) (d : A) :
  p < w -> nth p (block w l i) d = nth (i * w + p) l d.
Proof.
  intros Hp. unfold block. rewrite nth_firstn.
  destruct (Nat.ltb_spec p w); [|lia]. apply nth_skipn.
Qed.

(** In a concatenation of blocks of one width, block [i] is the [i]-th
    list. *)
Lemma block_concat (w : nat) (ls : list (list A)) (i : nat) :
  Forall (fun l => length l = w) ls -> i < length ls ->
  block w (concat ls) i = nth i ls [].
Proof.
  intros Hall. revert i. induction Hall as [|l ls Hl Hall IH]; intros i Hi.
  - simpl in Hi. lia.
  - simpl in *. destruct i as [|i].
    + unfold block. simpl. rewrite firstn_app, Hl, Nat.sub_diag. simpl.
      rewrite app_nil_r. apply firstn_all2. lia.
    + unfold block in *. rewrite skipn_app.
      rewrite skipn_all2 by (simpl; lia).
      replace (S i * w - length l) with (i * w) by (simpl; lia).
      simpl. apply IH. lia.
Qed.

End ListFacts.

Section RowFacts.
Context {A : Type}.

Lemma block_concat_tabulate (w n : nat) (g : nat -> list A) (i : nat) :
  (forall r, r < n -> length (g r) = w) -> i < n ->
  block w (concat (tabulate n g)) i = g i.
Proof.
  intros Hg Hi. rewrite block_concat.
  - now apply nth_tabulate.
  - apply Forall_forall. intros l Hl. unfold tabulate in Hl.
    apply in_map_iff in Hl. destruct Hl as [r [<- Hr]]. apply in_seq in Hr.
    apply Hg. lia.
  - now rewrite length_tabulate.
Qed.

Lemma length_concat_tabulate (w n : nat) (g : nat -> list A) :
  (forall r, r < n -> length (g r) = w) ->
  length (concat (tabulate n g)) = n * w.
Proof.
  induction n as [|n IH]; intros Hg; [reflexivity|].
  rewrite tabulate_snoc, concat_app, length_app, IH by (intros; apply Hg; lia).
  simpl. rewrite app_nil_r, Hg by lia. lia.
Qed.

(** Tabulating [n * p] positions row by row. *)
Lemma tabulate_rows (n p : nat) (h : nat -> A) :
  tabulate (n * p) h = concat (tabulate n (fun r => tabulate p (fun j => h (r * p + j)))).
Proof.
  induction n as [|n IH]; [reflexivity|].
  rewrite tabulate_snoc, concat_app, <- IH. simpl. rewrite app_nil_r.
  unfold tabulate. replace (p + n * p) with (n * p + p) by lia.
  rewrite seq_app, map_app. f_equal. simpl.
  apply (nth_ext _ _ (h 0) (h 0)).
  - now rewrite !length_map, !length_seq.
  - intros i Hi. rewrite length_map, length_seq in Hi.
    rewrite map_nth, seq_nth by assumption.
    fold (tabulate p (fun j => h (n * p + j))).
    rewrite nth_tabulate by assumption. reflexivity.
Qed.
End RowFacts.

Section MapM.
Context {A B : Type}.

Lemma mapM_map (f : A -> option B) (g : A -> B) (l : list A) :
  (forall x, In x l -> f x = Some (g x)) -> mapM f l = Some (map g l).
Proof.
  induction l as [|x l IH]; intros H; [reflexivity|].
  simpl. rewrite (H x) by now left. rewrite IH; [reflexivity|].
  intros y Hy. apply H. now right.
Qed.

End MapM.

Lemma mapM_tabulate {B} (f : nat -> option B) (g : nat -> B) (n : nat) :
  (forall q, q < n -> f q = Some (g q)) -> mapM f (seq 0 n) = Some (tabulate n g).
Proof.
  intros H. apply mapM_map. intros q Hq. apply in_seq in Hq. apply H. lia.
Qed.

Lemma mapM_rows {B} (f : nat -> option B) (g : nat -> nat -> B) (n p : nat) :
  (forall r j, r < n -> j < p -> f (r * p + j) = Some (g r j)) ->
  mapM f (seq 0 (n * p)) = Some (tabulate (n * p) (fun q => g (q / p) (q mod p))).
Proof.
  intros H. apply mapM_tabulate. intros q Hq.
  assert (Hp : p <> 0) by (intros ->; lia).
  rewrite (Nat.div_mod_eq q p) at 1. rewrite (Nat.mul_comm p).
  apply H.
  - apply Nat.Div0.div_lt_upper_bound. lia.
  - now apply Nat.mod_upper_bound.
Qed.

Lemma concat_singletons {A} (n : nat) (x : nat -> A) :
  concat (tabulate n (fun q => [x q])) = tabulate n x.
Proof.
  induction n as [|n IH]; [reflexivity|].
  rewrite !tabulate_snoc, concat_app, IH. reflexivity.
Qed.

Lemma tabulate_divmod {A} (n p : nat) (x : nat -> nat -> A) :
  tabulate (n * p) (fun q => x (q / p) (q mod p)) =
  concat (tabulate n (fun r => tabulate p (x r))).
Proof.
  rewrite tabulate_rows. f_equal. apply tabulate_ext. intros r Hr.
  apply tabulate_ext. intros j Hj.
  assert (Hd : (r * p + j) / p = r)
    by (rewrite Nat.div_add_l by lia; rewrite Nat.div_small by assumption; lia).
  assert (Hm : (r * p + j) mod p = j)
    by (rewrite (Nat.add_comm (r * p) j), Nat.Div0.mod_add; now apply Nat.mod_small).
  now rewrite Hd, Hm.
Qed.

Lemma nth_concat_tabulate {A} (w n : nat) (g : nat -> list A) (r p : nat) (d : A) :
  (forall i, i < n -> length (g i) = w) -> r < n -> p < w ->
  nth (r * w + p) (concat (tabulate n g)) d = nth p (g r) d.
Proof.
  intros Hg Hr Hp. rewrite <- nth_block by assumption.
  now rewrite block_concat_tabulate.
Qed.

Lemma repeat_tabulate {A} (x : A) (n : nat) : repeat x n = tabulate n (fun _ => x).
Proof.
  induction n as [|n IH]; [reflexivity|].
  rewrite tabulate_snoc, <- IH. apply repeat_cons.
Qed.

Lemma map_tabulate {A B} (f : A -> B) (n : nat) (g : nat -> A) :
  map f (tabulate n g) = tabulate n (fun i => f (g i)).
Proof. unfold tabulate. apply map_map. Qed.

Lemma combine_tabulate {A B} (n : nat) (a : nat -> A) (b : nat -> B) :
  combine (tabulate n a) (tabulate n b) = tabulate n (fun i => (a i, b i)).
Proof.
  unfold tabulate. generalize 0. induction n as [|n IH]; intros s; [reflexivity|].
  simpl. now rewrite IH.
Qed.

Lemma nth_map_lt {A B} (f : A -> B) (l : list A) (i : nat) (d : B) (d' : A) :
  i < length l -> nth i (map f l) d = f (nth i l d').
Proof.
  intros Hi. rewrite (nth_indep _ d (f d')) by now rewrite length_map.
  apply map_nth.
Qed.

Lemma concat_blocks {A} (w n : nat) (l : list A) :
  length l = n * w -> l = concat (tabulate n (block w l)).
Proof.
  intros Hl.
  destruct l as [|d l'] eqn:El.
  - simpl in Hl. symmetry. apply length_zero_iff_nil.
    rewrite (length_concat_tabulate (length (@nil A))).
    + simpl. lia.
    + intros r Hr. unfold block. rewrite skipn_nil, firstn_nil. reflexivity.
  - rewrite <- El in *. clear El l'.
    assert (Hb : forall r, r < n -> length (block w l r) = w)
      by (intros r Hr; apply length_block; nia).
    apply (nth_ext _ _ d d).
    + now rewrite (length_concat_tabulate w n).
    + intros q Hq. rewrite Hl in Hq.
      assert (Hw : w <> 0) by (intros ->; lia).
      assert (Hr : q / w < n) by (apply Nat.Div0.div_lt_upper_bound; lia).
      assert (Hj : q mod w < w) by now apply Nat.mod_upper_bound.
      assert (Hqe : q = q / w * w + q mod w)
        by (rewrite (Nat.div_mod_eq q w) at 1; lia).
      rewrite Hqe at 2.
      rewrite (nth_concat_tabulate w n) by assumption.
      rewrite nth_block by assumption. now rewrite <- Hqe.
Qed.

Lemma map_rows {A B} (f : A -> B) (n : nat) (rows : nat -> list A) :
  map f (concat (tabulate n rows)) = concat (tabulate n (fun r => map f (rows r))).
Proof. now rewrite concat_map, map_tabulate. Qed.

Lemma block_block {A} (v l : nat) (d : list A) (r j : nat) :
  j < l -> block v (block (l * v) d r) j = block v d (r * l + j).
Proof.
  intros Hj. unfold block.
  rewrite skipn_firstn_comm, firstn_firstn, skipn_skipn.
  replace (Nat.min v (l * v - j * v)) with v by nia.
  f_equal. f_equal. lia.
Qed.

Lemma In_block {A} (w : nat) (l : list A) (i : nat) (x : A) :
  In x (block w l i) -> In x l.
Proof.
  unfold block. intros H.
  rewrite <- (firstn_skipn (i * w) l). apply in_or_app. right.
  rewrite <- (firstn_skipn w (skipn (i * w) l)). apply in_or_app. now left.
Qed.

Lemma flat_index_lt (a b i j : nat) : i < a -> j < b -> i * b + j < a * b.
Proof. intros Hi Hj. nia. Qed.

Lemma block_fits (n l h r p : nat) :
  r < n -> p < l -> (r * l + p + 1) * h <= n * l * h.
Proof. intros Hr Hp. pose proof (flat_index_lt n l r p Hr Hp). nia. Qed.

Lemma block_one {A} (l : list A) (o : nat) (d : A) :
  o < length l -> block 1 l o = [nth o l d].
Proof.
  intros Ho. apply (nth_ext _ _ d d).
  - rewrite length_block by lia. reflexivity.
  - intros i Hi. rewrite length_block in Hi by lia.
    assert (i = 0) as -> by lia. rewrite nth_block by lia.
    simpl. f_equal. lia.
Qed.

(** ** Indices and elements *)

Lemma norm_index_in_range (size : nat) (i : Z) :
  in_range size i = true -> norm_index size i = Some (pos_index size i).
Proof.
  unfold in_range, norm_index, pos_index. intros H.
  apply andb_true_iff in H. destruct H as [H1 H2].
  apply Z.leb_le in H1. apply Z.ltb_lt in H2.
  destruct (Z.ltb_spec i 0).
  - destruct (Z.leb_spec 0 i); [lia|]. simpl.
    destruct (Z.leb_spec (- Z.of_nat size) i); [|lia]. reflexivity.
  - destruct (Z.leb_spec 0 i); [|lia].
    destruct (Z.ltb_spec i (Z.of_nat size)); [|lia]. reflexivity.
Qed.

Lemma pos_index_lt (size : nat) (i : Z) :
  in_range size i = true -> pos_index size i < size.
Proof.
  unfold in_range, pos_index. intros H.
  apply andb_true_iff in H. destruct H as [H1 H2].
  apply Z.leb_le in H1. apply Z.ltb_lt in H2.
  destruct (Z.ltb_spec i 0); lia.
Qed.

Lemma norm_index_of_nat (size r : nat) :
  r < size -> norm_index size (Z.of_nat r) = Some r.
Proof.
  intros Hr. unfold norm_index.
  destruct (Z.leb_spec 0 (Z.of_nat r)); [|lia].
  destruct (Z.ltb_spec (Z.of_nat r) (Z.of_nat size)); [|lia].
  simpl. now rewrite Nat2Z.id.
Qed.

Lemma in_range_of_nat (size r : nat) : r < size -> in_range size (Z.of_nat r) = true.
Proof.
  intros Hr. unfold in_range. apply andb_true_iff. split.
  - apply Z.leb_le. lia.
  - apply Z.ltb_lt. lia.
Qed.

Lemma pos_index_of_nat (size r : nat) : pos_index size (Z.of_nat r) = r.
Proof.
  unfold pos_index. destruct (Z.ltb_spec (Z.of_nat r) 0); [lia|]. apply Nat2Z.id.
Qed.

Lemma all_in_range_nth (size : nat) (t : tensor Z) (q : nat) :
  all_in_range size t = true -> q < length (data t) ->
  in_range size (nth q (data t) 0%Z) = true.
Proof.
  unfold all_in_range. intros H Hq.
  rewrite forallb_forall in H. apply H. now apply nth_In.
Qed.

Lemma all_in_range_tabulated (l : nat) (t : tensor Z) (n : nat) :
  length (data t) = n ->
  (forall r, r < n -> in_range l (nth r (data t) 0%Z) = true) ->
  all_in_range l t = true.
Proof.
  intros Hlen H. unfold all_in_range. apply forallb_forall. intros z Hz.
  destruct (In_nth _ _ 0%Z Hz) as [r [Hr <-]]. apply H. lia.
Qed.

Lemma numel2 (a b : nat) : numel [a; b] = a * b.
Proof. simpl. lia. Qed.

Lemma numel3 (a b c : nat) : numel [a; b; c] = a * b * c.
Proof. simpl. lia. Qed.

Lemma shape_eqb_refl (s : list nat) : shape_eqb s s = true.
Proof. unfold shape_eqb. destruct (list_eq_dec Nat.eq_dec s s); congruence. Qed.

Lemma item1 {A} (d : A) (t : tensor A) (n r : nat) :
  shape t = [n] -> r < n -> item d t [Z.of_nat r] = nth r (data t) d.
Proof.
  intros Hs Hr. unfold item, rank. rewrite Hs. cbn [length Nat.eqb offset].
  now rewrite (norm_index_of_nat n r Hr).
Qed.

Lemma item2 {A} (d : A) (t : tensor A) (n p r j : nat) :
  shape t = [n; p] -> r < n -> j < p ->
  item d t [Z.of_nat r; Z.of_nat j] = nth (r * p + j) (data t) d.
Proof.
  intros Hs Hr Hj. unfold item, rank. rewrite Hs.
  cbn [length Nat.eqb offset].
  rewrite (norm_index_of_nat n r Hr), (norm_index_of_nat p j Hj). reflexivity.
Qed.

Lemma item3 {A} (d : A) (t : tensor A) (n l v r j : nat) (k : Z) :
  shape t = [n; l; v] -> r < n -> j < l -> in_range v k = true ->
  item d t [Z.of_nat r; Z.of_nat j; k] = nth ((r * l + j) * v + pos_index v k) (data t) d.
Proof.
  intros Hs Hr Hj Hk. unfold item, rank. rewrite Hs.
  cbn [length Nat.eqb offset].
  rewrite (norm_index_of_nat n r Hr), (norm_index_of_nat l j Hj), (norm_index_in_range _ _ Hk).
  reflexivity.
Qed.

Lemma item3_range {A} (d : A) (t : tensor A) (n l v r : nat) (j k : Z) :
  shape t = [n; l; v] -> r < n -> in_range l j = true -> in_range v k = true ->
  item d t [Z.of_nat r; j; k] =
  nth ((r * l + pos_index l j) * v + pos_index v k) (data t) d.
Proof.
  intros Hs Hr Hj Hk. unfold item, rank. rewrite Hs.
  cbn [length Nat.eqb offset].
  rewrite (norm_index_of_nat n r Hr), (norm_index_in_range _ _ Hj),
    (norm_index_in_range _ _ Hk).
  reflexivity.
Qed.

Lemma tget1 {A} (t : tensor A) (n r : nat) :
  shape t = [n] -> r < n -> tget t [r] = nth_error (data t) r.
Proof.
  intros Hs Hr. unfold tget, rank. rewrite Hs. cbn [length Nat.eqb map offset].
  now rewrite (norm_index_of_nat n r Hr).
Qed.

Lemma tget2 {A} (t : tensor A) (n p r j : nat) :
  shape t = [n; p] -> r < n -> j < p -> tget t [r; j] = nth_error (data t) (r * p + j).
Proof.
  intros Hs Hr Hj. unfold tget, rank. rewrite Hs. cbn [length Nat.eqb map offset].
  now rewrite (norm_index_of_nat n r Hr), (norm_index_of_nat p j Hj).
Qed.

Lemma vector_at2 {A} (t : tensor A) (n l h r : nat) (z : Z) :
  shape t = [n; l; h] -> r < n -> in_range l z = true ->
  vector_at t [Z.of_nat r; z] = block h (data t) (r * l + pos_index l z).
Proof.
  intros Hs Hr Hz. unfold vector_at. rewrite Hs. cbn [offset length skipn numel fold_right].
  rewrite (norm_index_of_nat n r Hr), (norm_index_in_range l z Hz), Nat.mul_1_r.
  reflexivity.
Qed.

Lemma length_trow {A} (t : tensor A) (n : nat) (rest : list nat) (r : nat) :
  shape t = n :: rest -> length (data t) = n * numel rest -> r < n ->
  length (trow t r) = numel rest.
Proof.
  intros Hs Hw Hr. unfold trow. rewrite Hs. cbn [tl].
  apply length_block. rewrite Hw. nia.
Qed.

Lemma wrap64_small (z : Z) : (- 2 ^ 63 <= z < 2 ^ 63)%Z -> wrap64 z = z.
Proof. intros H. unfold wrap64. rewrite Z.mod_small; lia. Qed.

Lemma in_range_wrap64 (l : nat) (z : Z) :
  (Z.of_nat l <= 2 ^ 63)%Z -> in_range l z = true -> wrap64 z = z.
Proof.
  intros Hl Hz. unfold in_range in Hz. apply andb_true_iff in Hz.
  destruct Hz as [H1 H2]. apply Z.leb_le in H1. apply Z.ltb_lt in H2.
  apply wrap64_small. lia.
Qed.

(** ** Binary64 facts *)

Lemma float_mul_comm (x y : float) : (x * y = y * x)%float.
Proof.
  apply Prim2SF_inj. rewrite !mul_spec.
  destruct (Prim2SF x) as [s| s | | s m e], (Prim2SF y) as [s'| s' | | s' m' e'];
    cbn; try reflexivity; try (rewrite (xorb_comm s s'); reflexivity).
  rewrite (xorb_comm s s'), (Pos.mul_comm m m'), (Z.add_comm e e'). reflexivity.
Qed.

Lemma is_zero_SF (z : float) : is_zero z = true -> exists s, Prim2SF z = S754_zero s.
Proof.
  unfold is_zero. rewrite FloatAxioms.eqb_spec.
  replace (Prim2SF zero) with (S754_zero false) by reflexivity.
  destruct (Prim2SF z) as [s| s | | s m e]; simpl; try discriminate; eauto.
  all: destruct s; discriminate.
Qed.

Lemma is_finite_SF (x : float) :
  is_finite x = match Prim2SF x with
                | S754_nan | S754_infinity _ => false
                | _ => true
                end.
Proof.
  unfold is_finite, is_nan, is_infinity.
  rewrite !FloatAxioms.eqb_spec, abs_spec.
  replace (Prim2SF infinity) with (S754_infinity false) by reflexivity.
  destruct (Prim2SF x) as [s| s | | s m e]; simpl; try reflexivity.
  - destruct s; reflexivity.
  - unfold SFeqb, SFcompare. rewrite Z.compare_refl, Pos.compare_cont_refl.
    destruct s; reflexivity.
Qed.

(** Dividing by a zero never gives a finite number. *)
Lemma div_zero_not_finite (x z : float) :
  is_zero z = true -> is_finite (x / z) = false.
Proof.
  intros Hz. destruct (is_zero_SF z Hz) as [s Hs].
  rewrite is_finite_SF, div_spec, Hs.
  destruct (Prim2SF x); reflexivity.
Qed.

(** ** The computation monad *)

Lemma bind_ret {A B} (a : A) (k : A -> run B) : bind (ret a) k = k a.
Proof. unfold bind, ret. simpl. now destruct (k a). Qed.

Lemma bind_lift_Return {A B} (a : A) (k : A -> run B) : bind (lift (Return a)) k = k a.
Proof. apply bind_ret. Qed.

Lemma bind_lift_Raise {A B} (e : failure) (k : A -> run B) :
  bind (lift (Raise e)) k = raise e.
Proof. reflexivity. Qed.

Lemma bind_raise {A B} (e : failure) (k : A -> run B) : bind (raise e) k = raise e.
Proof. reflexivity. Qed.

Lemma bind_invoke {mem B} (lm : language_model_t mem) (a b c : tensor Z)
    (x : tensor float * list mem) (k : tensor float * list mem -> run B) :
  lm a b c = Return x ->
  bind (invoke lm a b c) k = mkRun ((a, b, c) :: calls (k x)) (result (k x)).
Proof. intros H. unfold bind, invoke. simpl. now rewrite H. Qed.

Lemma bind_invoke_Raise {mem B} (lm : language_model_t mem) (a b c : tensor Z)
    (e : failure) (k : tensor float * list mem -> run B) :
  lm a b c = Raise e ->
  bind (invoke lm a b c) k = mkRun [(a, b, c)] (Raise e).
Proof. intros H. unfold bind, invoke. simpl. now rewrite H. Qed.

Lemma bind_assoc {A B C} (m : run A) (k : A -> run B) (h : B -> run C) :
  bind (bind m k) h = bind m (fun a => bind (k a) h).
Proof.
  unfold bind. destruct m as [cs [a|e]]; cbn [result calls]; [|reflexivity].
  destruct (k a) as [cs' [b|e]]; cbn [result calls]; [|reflexivity].
  now rewrite app_assoc.
Qed.

Lemma bind_ext {A B} (m : run A) (k k' : A -> run B) :
  (forall a, k a = k' a) -> bind m k = bind m k'.
Proof.
  intros H. unfold bind. destruct (result m) as [a|e]; [|reflexivity].
  now rewrite H.
Qed.

(** Case analysis on the lifted tensor operations of a computation, from the
    outside in. *)
Ltac run_step :=
  match goal with
  | |- context [bind (lift ?X) _] =>
      destruct X eqn:?;
      [rewrite bind_lift_Return; cbv beta iota
      |rewrite bind_lift_Raise]
  | |- context [bind (ret _) _] => rewrite bind_ret; cbv beta iota
  | |- context [bind (raise _) _] => rewrite bind_raise
  end.

Ltac run_cases := repeat (run_step; try (intros; discriminate)).

(** The language model is called and the outcome of the call is analysed. *)
Ltac run_invoke lm :=
  match goal with
  | |- context [bind (invoke lm ?a ?b ?c) _] =>
      let H := fresh "Hlm" in
      destruct (lm a b c) as [[? ?]|?] eqn:H;
      [rewrite (bind_invoke lm a b c _ _ H); cbv beta iota zeta
      |rewrite (bind_invoke_Raise lm a b c _ _ H); intros; discriminate]
  end.

Ltac run_done Hlm :=
  cbn [result calls ret lift raise];
  let H := fresh in
  intros H; inversion H; subst;
  do 4 eexists; split; [reflexivity|exact Hlm].

Ltac run_invoke_any :=
  match goal with
  | |- context [bind (invoke ?lm ?a ?b ?c) _] =>
      let H := fresh "Hlm" in
      destruct (lm a b c) as [[? ?]|?] eqn:H;
      [rewrite (bind_invoke lm a b c _ _ H)
      |rewrite (bind_invoke_Raise lm a b c _ _ H)];
      cbv beta iota zeta
  end.

(** ** Index tensors and advanced indexing *)

Lemma batch_ids_expand {B} (tid : tensor B) (n p : nat) :
  shape tid = [n; p] ->
  expand_as (unsqueeze 1 (arange n)) tid =
  Return (mkTensor [n; p] (concat (tabulate n (fun r => repeat (Z.of_nat r) p)))).
Proof.
  intros Hs. unfold expand_as, unsqueeze, arange.
  cbn [shape data firstn skipn app]. rewrite Hs.
  rewrite Nat.eqb_refl. cbn [orb andb].
  destruct (Nat.eqb_spec 1 p) as [<-|Hp].
  - cbn [orb andb]. f_equal. f_equal.
    change (fun r => repeat (Z.of_nat r) 1) with (fun r => [Z.of_nat r]).
    now rewrite concat_singletons.
  - cbn [orb andb]. f_equal. f_equal.
    rewrite flat_map_concat_map, map_map. reflexivity.
Qed.

Lemma seq_ids_expand {B} (tid : tensor B) (n p : nat) :
  shape tid = [n; p] ->
  expand_as (unsqueeze 0 (arange p)) tid =
  Return (mkTensor [n; p] (concat (tabulate n (fun _ => map Z.of_nat (seq 0 p))))).
Proof.
  intros Hs. unfold expand_as, unsqueeze, arange.
  cbn [shape data firstn skipn app]. rewrite Hs.
  rewrite !Nat.eqb_refl, orb_true_r. cbn [orb andb].
  destruct (Nat.eqb_spec 1 n) as [<-|Hn].
  - unfold tabulate. cbn [seq map concat]. now rewrite app_nil_r.
  - now rewrite repeat_tabulate.
Qed.

Lemma adv_index_blocks {A} (t : tensor A) (i0 : tensor Z) (others : list (tensor Z))
    (o : nat -> nat) :
  forallb (fun i => shape_eqb (shape i) (shape i0)) others = true ->
  length (i0 :: others) <= rank t ->
  (forall q, q < numel (shape i0) ->
     offset (shape t) (map (fun i => nth q (data i) 0%Z) (i0 :: others)) 0 = Some (o q)) ->
  adv_index t (i0 :: others) =
  Return (mkTensor (shape i0 ++ skipn (length (i0 :: others)) (shape t))
            (concat (tabulate (numel (shape i0))
                       (fun q => block (numel (skipn (length (i0 :: others)) (shape t)))
                                   (data t) (o q))))).
Proof.
  intros Hshapes Hrank Hoff. unfold adv_index. rewrite Hshapes.
  destruct (Nat.leb_spec (length (i0 :: others)) (rank t)) as [_|Hlt]; [|lia].
  rewrite (mapM_tabulate _
             (fun q => block (numel (skipn (length (i0 :: others)) (shape t)))
                         (data t) (o q))).
  - reflexivity.
  - intros q Hq. now rewrite (Hoff q Hq).
Qed.

Lemma gather_targets (G : tensor float) (tid : tensor Z) (n l v p : nat) :
  shape G = [n; l; v] -> wf G ->
  shape tid = [n; p] -> wf tid -> p <= l ->
  all_in_range v tid = true ->
  adv_index G
    [mkTensor [n; p] (concat (tabulate n (fun r => repeat (Z.of_nat r) p)));
     mkTensor [n; p] (concat (tabulate n (fun _ => map Z.of_nat (seq 0 p))));
     tid] =
  Return (mkTensor [n; p]
            (concat (tabulate n (fun r => tabulate p (fun j =>
               fitem G [Z.of_nat r; Z.of_nat j;
                        zitem tid [Z.of_nat r; Z.of_nat j]]))))).
Proof.
  intros HG HwG Ht Hwt Hpl Hrange.
  unfold wf in HwG, Hwt. rewrite HG, numel3 in HwG. rewrite Ht, numel2 in Hwt.
  unfold adv_index, rank. cbn [shape data forallb length].
  rewrite Ht, HG, !shape_eqb_refl.
  cbn [andb length Nat.leb skipn numel fold_right map].
  rewrite app_nil_r.
  replace (n * (p * 1)) with (n * p) by lia.
  rewrite (mapM_rows _
             (fun r j => [fitem G [Z.of_nat r; Z.of_nat j;
                                   zitem tid [Z.of_nat r; Z.of_nat j]]])).
  - f_equal. f_equal.
    rewrite (concat_singletons (n * p) (fun q =>
               fitem G [Z.of_nat (q / p); Z.of_nat (q mod p);
                        zitem tid [Z.of_nat (q / p); Z.of_nat (q mod p)]])).
    apply (tabulate_divmod n p (fun r j =>
               fitem G [Z.of_nat r; Z.of_nat j; zitem tid [Z.of_nat r; Z.of_nat j]])).
  - intros r j Hr Hj.
    rewrite (nth_concat_tabulate p n (fun r => repeat (Z.of_nat r) p))
      by (intros; try apply repeat_length; assumption).
    rewrite (nth_concat_tabulate p n (fun _ => map Z.of_nat (seq 0 p)))
      by (intros; try (now rewrite length_map, length_seq); assumption).
    rewrite nth_repeat_lt by assumption.
    rewrite (nth_indep _ 0%Z (Z.of_nat 0)) by now rewrite length_map, length_seq.
    rewrite map_nth, seq_nth by assumption. cbn [Nat.add offset].
    assert (Hq : r * p + j < length (data tid))
      by (rewrite Hwt; now apply flat_index_lt).
    pose proof (all_in_range_nth _ _ _ Hrange Hq) as Hk.
    assert (Hjl : j < l) by lia.
    unfold fitem, zitem. rewrite (item2 _ _ n p r j Ht Hr Hj).
    rewrite (item3 _ _ n l v r j _ HG Hr Hjl Hk).
    rewrite (norm_index_of_nat n r Hr), (norm_index_of_nat l j Hjl).
    rewrite (norm_index_in_range _ _ Hk). f_equal.
    apply block_one. rewrite HwG.
    apply flat_index_lt; [now apply flat_index_lt|now apply pos_index_lt].
Qed.

Lemma gather_positions (outputs : tensor float) (positions : tensor Z) (n l v : nat) :
  shape outputs = [n; l; v] ->
  shape positions = [n] -> wf positions -> all_in_range l positions = true ->
  adv_index outputs [arange n; positions] =
  Return (mkTensor [n; v]
            (concat (tabulate n (fun r =>
               block v (data outputs)
                 (r * l + pos_index l (nth r (data positions) 0%Z)))))).
Proof.
  intros Ho Hp Hwp Hrange. unfold wf in Hwp. rewrite Hp in Hwp. simpl in Hwp.
  rewrite (adv_index_blocks outputs (arange n) [positions]
             (fun r => r * l + pos_index l (nth r (data positions) 0%Z))).
  - unfold rank. rewrite Ho. cbn [arange shape length skipn app numel fold_right].
    rewrite !Nat.mul_1_r. reflexivity.
  - cbn [forallb arange shape]. now rewrite Hp, shape_eqb_refl.
  - unfold rank. rewrite Ho. simpl. lia.
  - intros q Hq. cbn [arange shape numel fold_right] in Hq. rewrite Nat.mul_1_r in Hq.
    rewrite Ho. cbn [map arange data offset].
    rewrite (nth_map_lt Z.of_nat (seq 0 n) q 0%Z 0) by now rewrite length_seq.
    rewrite seq_nth by assumption. cbn [Nat.add].
    rewrite (norm_index_of_nat n q Hq).
    rewrite (norm_index_in_range l _ (all_in_range_nth l positions q Hrange ltac:(lia))).
    reflexivity.
Qed.

Lemma length_position_rows (outputs : tensor float) (n l v : nat) (pos : nat -> nat) :
  shape outputs = [n; l; v] -> wf outputs ->
  (forall r, r < n -> pos r < l) ->
  forall r, r < n -> length (block v (data outputs) (r * l + pos r)) = v.
Proof.
  intros Ho Hw Hpos r Hr. apply length_block. unfold wf in Hw.
  rewrite Hw, Ho, numel3.
  pose proof (flat_index_lt n l r (pos r) Hr (Hpos r Hr)). nia.
Qed.

(** ** Reshaping and the choice dimension *)

Lemma reshape_infer_Raise {A} (t : tensor A) (rest : list nat) (e : failure) :
  reshape_infer t rest = Raise e -> e = RuntimeError.
Proof.
  unfold reshape_infer.
  destruct (numel rest =? 0); [congruence|].
  destruct (numel (shape t) mod numel rest =? 0); congruence.
Qed.

Lemma reshape_infer_rank {A} (t t' : tensor A) (rest : list nat) :
  reshape_infer t rest = Return t' -> rank t' = S (length rest) /\ data t' = data t.
Proof.
  unfold reshape_infer.
  destruct (numel rest =? 0); [discriminate|].
  destruct (numel (shape t) mod numel rest =? 0); [|discriminate].
  intros H. inversion H. split; reflexivity.
Qed.

Lemma reshape_choices {A} (t : tensor A) (b c : nat) (rest : list nat) :
  shape t = b :: c :: rest -> 0 < numel rest ->
  reshape_infer t rest = Return (mkTensor (b * c :: rest) (data t)).
Proof.
  intros Hs Hrest. unfold reshape_infer. rewrite Hs.
  destruct (Nat.eqb_spec (numel rest) 0) as [H0|_]; [lia|].
  replace (numel (b :: c :: rest)) with (b * c * numel rest) by (simpl; lia).
  rewrite Nat.Div0.mod_mul, Nat.div_mul by lia. reflexivity.
Qed.

Lemma view_scores {A} (d : list A) (b c : nat) :
  0 < c -> reshape_infer (mkTensor [b * c] d) [c] = Return (mkTensor [b; c] d).
Proof.
  intros Hc. unfold reshape_infer. cbn [shape numel fold_right].
  rewrite !Nat.mul_1_r.
  destruct (Nat.eqb_spec c 0) as [H0|_]; [lia|].
  rewrite Nat.Div0.mod_mul, Nat.div_mul by lia. reflexivity.
Qed.

Lemma select_choice {A} (t : tensor A) (b c j : nat) (rest : list nat) :
  shape t = b :: c :: rest -> j < c ->
  select_dim1 t (Z.of_nat j) =
  Return (mkTensor (b :: rest)
            (concat (tabulate b (fun r => block (numel rest) (data t) (r * c + j))))).
Proof.
  intros Hs Hj. unfold select_dim1. rewrite Hs.
  now rewrite (norm_index_of_nat c j Hj).
Qed.

(** Row [i] of choice [j] is row [i * c + j] of the flattened tensor. *)
Lemma trow_choice {A} (t : tensor A) (b c j i : nat) (rest : list nat) :
  shape t = b :: c :: rest -> wf t -> j < c -> i < b ->
  trow (mkTensor (b :: rest)
          (concat (tabulate b (fun r => block (numel rest) (data t) (r * c + j))))) i =
  trow (mkTensor (b * c :: rest) (data t)) (i * c + j).
Proof.
  intros Hs Hw Hj Hi. unfold trow. cbn [shape data tl].
  apply (block_concat_tabulate (numel rest) b
           (fun r => block (numel rest) (data t) (r * c + j)) i); [|assumption].
  intros r Hr. apply length_block. unfold wf in Hw. rewrite Hw, Hs.
  replace (numel (b :: c :: rest)) with (b * c * numel rest) by (simpl; lia).
  pose proof (flat_index_lt b c r j Hr Hj). nia.
Qed.

Lemma wf_choice {A} (t : tensor A) (b c j : nat) (rest : list nat) :
  shape t = b :: c :: rest -> wf t -> j < c ->
  wf (mkTensor (b :: rest)
        (concat (tabulate b (fun r => block (numel rest) (data t) (r * c + j))))).
Proof.
  intros Hs Hw Hj. unfold wf in *. cbn [shape data numel fold_right].
  rewrite (length_concat_tabulate (numel rest) b); [reflexivity|].
  intros r Hr. apply length_block. rewrite Hw, Hs.
  replace (numel (b :: c :: rest)) with (b * c * numel rest) by (simpl; lia).
  pose proof (flat_index_lt b c r j Hr Hj). nia.
Qed.

Lemma all_in_range_choice (v : nat) (t : tensor Z) (b c j : nat) (rest : list nat) :
  shape t = b :: c :: rest -> wf t -> j < c -> all_in_range v t = true ->
  all_in_range v
    (mkTensor (b :: rest)
       (concat (tabulate b (fun r => block (numel rest) (data t) (r * c + j))))) = true.
Proof.
  intros Hs Hw Hj H. unfold all_in_range in *. cbn [data].
  rewrite forallb_forall in *. intros z Hz.
  apply in_concat in Hz. destruct Hz as [row [Hrow Hz]].
  unfold tabulate in Hrow. apply in_map_iff in Hrow. destruct Hrow as [r [<- _]].
  apply H. now apply In_block in Hz.
Qed.

Lemma choice_entry_flat {A} (num_choices : option nat) (n : nat) (d : list A) (r : nat) :
  (forall c, num_choices = Some c -> 0 < c /\ n mod c = 0) -> r < n ->
  choice_entry num_choices (mkTensor (choice_shape num_choices n []) d) r =
  nth_error d r.
Proof.
  intros Hc Hr. destruct num_choices as [c|]; cbn [choice_entry choice_shape].
  - destruct (Hc c eq_refl) as [Hpos Hmod].
    assert (Hn : n = c * (n / c)).
    { rewrite (Nat.div_mod_eq n c) at 1. rewrite Hmod. lia. }
    cbn [numel fold_right]. rewrite Nat.mul_1_r.
    rewrite (tget2 (mkTensor [n / c; c] d) (n / c) c (r / c) (r mod c) eq_refl).
    + cbn [data]. f_equal. rewrite (Nat.div_mod_eq r c) at 3. lia.
    + apply Nat.Div0.div_lt_upper_bound. lia.
    + apply Nat.mod_upper_bound. lia.
  - now apply (tget1 (mkTensor [n] d) n r eq_refl).
Qed.

Lemma view_choices_flat {mem} (c n : nat) (w : list nat) (d : list float)
    (mems : list mem) (cs : list lm_call) :
  0 < c -> numel (n :: w) mod c = 0 ->
  bind (mkRun cs (Return (mkTensor (n :: w) d, mems))) (view_choices c) =
  mkRun cs (Return (mkTensor (choice_shape (Some c) n w) d, mems)).
Proof.
  intros Hc Hmod. unfold bind, view_choices. cbn [result calls fst snd lift].
  unfold reshape_infer. cbn [shape data choice_shape].
  replace (numel [c]) with c by (simpl; lia).
  destruct (Nat.eqb_spec c 0) as [H0|_]; [lia|].
  rewrite Hmod. cbn [Nat.eqb result calls ret]. now rewrite app_nil_r.
Qed.

(** ** Engine operations and layers *)

Lemma log_softmax_last_wf (E : Engine) (t : tensor float) (n l v : nat) :
  shape t = [n; l; v] -> wf t -> wf (log_softmax_last E t).
Proof.
  unfold wf, log_softmax_last. intros Hs Hw. rewrite Hs in *.
  cbn [shape data last removelast]. rewrite numel3 in *.
  rewrite (length_concat_tabulate v).
  - rewrite numel2. reflexivity.
  - intros r Hr. rewrite torch_log_softmax_length. apply length_block.
    rewrite Hw. rewrite numel2 in Hr. nia.
Qed.

Lemma cloze_outputs_shape (E : Engine) (b : bool) (t : tensor float) :
  shape (cloze_outputs E b t) = shape t.
Proof. now destruct b. Qed.

Lemma cloze_outputs_wf (E : Engine) (b : bool) (t : tensor float) (n l v : nat) :
  shape t = [n; l; v] -> wf t -> wf (cloze_outputs E b t).
Proof.
  intros Hs Hw. destruct b; [|exact Hw]. now apply (log_softmax_last_wf E t n l v).
Qed.

Lemma sum_dim1_rows (E : Engine) (t : tensor float) (n p : nat) :
  shape t = [n; p] ->
  sum_dim1 E t = Return (mkTensor [n] (tabulate n (fun r => torch_sum E (block p (data t) r)))).
Proof. intros Hs. unfold sum_dim1. now rewrite Hs. Qed.

(** Row [r] of an elementwise product with a mask. *)
Lemma masked_row (g : nat -> nat -> float) (mask : tensor float) (n p r : nat) :
  shape mask = [n; p] -> wf mask -> r < n ->
  block p (map (fun xy => (fst xy * snd xy)%float)
             (combine (concat (tabulate n (fun r => tabulate p (g r)))) (data mask))) r =
  tabulate p (fun j => (fitem mask [Z.of_nat r; Z.of_nat j] * g r j)%float).
Proof.
  intros Hs Hw Hr. unfold wf in Hw. rewrite Hs, numel2 in Hw.
  assert (Hlen : length (concat (tabulate n (fun r => tabulate p (g r)))) = n * p)
    by (apply length_concat_tabulate; intros; apply length_tabulate).
  apply (list_eq_tabulate _ _ _ nan).
  - apply length_block. rewrite length_map, length_combine, Hlen, Hw. nia.
  - intros j Hj. rewrite nth_block by assumption.
    pose proof (flat_index_lt n p r j Hr Hj) as Hq.
    rewrite (nth_map_lt _ _ _ _ (nan, nan)) by (rewrite length_combine, Hlen, Hw; lia).
    rewrite combine_nth by lia. cbn [fst snd].
    rewrite (nth_concat_tabulate p n) by (intros; try apply length_tabulate; assumption).
    rewrite nth_tabulate by assumption.
    unfold fitem. rewrite (item2 _ _ n p r j Hs Hr Hj).
    apply float_mul_comm.
Qed.

Lemma length_dropout_from (d : Dropout) (start : nat) (l : list float) :
  length (dropout_from d start l) = length l.
Proof.
  unfold dropout_from. rewrite length_map, length_combine, length_seq. lia.
Qed.

Lemma nth_dropout_from (d : Dropout) (start : nat) (l : list float) (j : nat) :
  j < length l ->
  nth j (dropout_from d start l) nan = draw d (start + j) (nth j l nan).
Proof.
  intros Hj. unfold dropout_from.
  rewrite (nth_map_lt _ _ _ _ (0, nan)) by (rewrite length_combine, length_seq; lia).
  rewrite combine_nth by now rewrite length_seq.
  cbn [fst snd]. now rewrite seq_nth.
Qed.

Lemma block_dropout (d : Dropout) (w : nat) (l : list float) (i : nat) :
  (i + 1) * w <= length l ->
  block w (dropout_from d 0 l) i = dropout_from d (i * w) (block w l i).
Proof.
  intros Hi.
  assert (Hb : length (block w l i) = w) by now apply length_block.
  apply (nth_ext _ _ nan nan).
  - rewrite length_dropout_from, Hb. apply length_block.
    now rewrite length_dropout_from.
  - intros j Hj. rewrite length_block in Hj by now rewrite length_dropout_from.
    rewrite nth_block by assumption.
    rewrite !nth_dropout_from by (rewrite ?Hb; nia).
    rewrite nth_block by assumption. reflexivity.
Qed.

Lemma Linear_apply_rows (L : Linear) (n w : nat) (rows : nat -> list float) :
  in_features L = w -> (forall r, r < n -> length (rows r) = w) ->
  Linear_apply L (mkTensor [n; w] (concat (tabulate n rows))) =
  Return (mkTensor [n; out_features L]
            (concat (tabulate n (fun r => affine L (rows r))))).
Proof.
  intros Hin Hrows. unfold Linear_apply.
  cbn [shape data last removelast app numel fold_right].
  rewrite Hin, Nat.eqb_refl, Nat.mul_1_r. f_equal. f_equal. f_equal.
  apply tabulate_ext. intros r Hr. now rewrite block_concat_tabulate.
Qed.

Lemma dropout_rows (d : Dropout) (n w : nat) (rows : nat -> list float) :
  (forall r, r < n -> length (rows r) = w) ->
  dropout_from d 0 (concat (tabulate n rows)) =
  concat (tabulate n (fun r => dropout_from d (r * w) (rows r))).
Proof.
  intros Hrows.
  assert (Hlen : length (concat (tabulate n rows)) = n * w)
    by now apply length_concat_tabulate.
  rewrite (concat_blocks w n (dropout_from d 0 (concat (tabulate n rows))))
    by now rewrite length_dropout_from.
  f_equal. apply tabulate_ext. intros r Hr.
  rewrite block_dropout by (rewrite Hlen; nia).
  now rewrite block_concat_tabulate.
Qed.

(** ** [ClozeModel.forward] *)

Section ClozeFacts.
Context {mem : Type}.
Variable E : Engine.

(** The result of [forward] on a batch without a choice dimension. *)
Lemma cloze_forward_flat (self : ClozeModel.t (mem := mem))
    (input_ids position_ids attention_mask target_ids : tensor Z)
    (logit_mask outputs : tensor float) (mems : list mem) (n l v p : nat) :
  rank input_ids <> 3 ->
  ClozeModel.model self input_ids position_ids attention_mask = Return (outputs, mems) ->
  shape outputs = [n; l; v] -> wf outputs ->
  shape target_ids = [n; p] -> wf target_ids ->
  shape logit_mask = [n; p] -> wf logit_mask ->
  p <= l -> all_in_range v target_ids = true ->
  ClozeModel.forward E self input_ids position_ids attention_mask target_ids logit_mask =
  mkRun [(input_ids, position_ids, attention_mask)]
    (Return (mkTensor [n]
               (tabulate n (cloze_score E (ClozeModel.length_penalty self)
                              (cloze_outputs E (ClozeModel.take_softmax self) outputs)
                              target_ids logit_mask p)),
             mems)).
Proof.
  intros Hrank Hlm Ho Hwo Ht Hwt Hm Hwm Hpl Hrange.
  unfold ClozeModel.forward.
  destruct (Nat.eqb_spec (rank input_ids) 3) as [Heq|_]; [contradiction|].
  rewrite bind_ret. cbv beta iota.
  rewrite (bind_invoke _ _ _ _ _ _ Hlm). cbv beta iota.
  fold (cloze_outputs E (ClozeModel.take_softmax self) outputs).
  set (G := cloze_outputs E (ClozeModel.take_softmax self) outputs).
  assert (HG : shape G = [n; l; v]) by (unfold G; now rewrite cloze_outputs_shape).
  assert (HwG : wf G) by (apply (cloze_outputs_wf E _ _ n l v); assumption).
  unfold size0, size_last. rewrite Ht. cbn [last].
  rewrite bind_lift_Return, (batch_ids_expand target_ids n p Ht), bind_lift_Return.
  rewrite bind_lift_Return, (seq_ids_expand target_ids n p Ht), bind_lift_Return.
  rewrite (gather_targets G target_ids n l v p HG HwG Ht Hwt Hpl Hrange), bind_lift_Return.
  unfold tmul, tmap2. cbn [shape data].
  rewrite Hm, shape_eqb_refl. cbn [obind].
  rewrite (sum_dim1_rows E (mkTensor [n; p] _) n p eq_refl). cbn [data].
  rewrite bind_lift_Return.
  rewrite (sum_dim1_rows E logit_mask n p Hm).
  unfold tdiv, tmap2, tpow, tmap. cbn [shape data].
  match goal with
  | |- context [tabulate n (fun r => torch_sum E (block p (map ?f ?xs) r))] =>
      rewrite (tabulate_ext n (fun r => torch_sum E (block p (map f xs) r))
                 (masked_sum E G target_ids logit_mask p))
  end.
  2:{ intros r Hr. unfold masked_sum. f_equal.
      apply (masked_row (fun r j => fitem G [Z.of_nat r; Z.of_nat j;
               zitem target_ids [Z.of_nat r; Z.of_nat j]]) logit_mask n p r Hm Hwm Hr). }
  unfold cloze_score.
  destruct (0 <? ClozeModel.length_penalty self)%float.
  - rewrite bind_lift_Return. cbn [shape data]. rewrite shape_eqb_refl.
    rewrite bind_lift_Return, bind_ret. unfold ret. cbn [calls result].
    f_equal. f_equal. f_equal. f_equal.
    rewrite map_tabulate, combine_tabulate, map_tabulate. cbn [fst snd].
    apply tabulate_ext. intros r Hr. unfold mask_sum, trow. rewrite Hm.
    cbn [tl numel fold_right]. now rewrite Nat.mul_1_r.
  - rewrite !bind_ret. reflexivity.
Qed.
End ClozeFacts.

(** On inputs with a choice dimension, [forward] is [forward] on the
    flattened inputs followed by the un-flattening of the scores. *)
Lemma cloze_forward_choices {mem} (E : Engine) (self : ClozeModel.t (mem := mem))
    (input_ids position_ids attention_mask target_ids : tensor Z)
    (logit_mask : tensor float)
    (flat_ids flat_positions flat_mask flat_targets : tensor Z)
    (flat_logit_mask : tensor float) (tl ml : nat) :
  rank input_ids = 3 ->
  reshape_infer input_ids [last (shape input_ids) 0] = Return flat_ids ->
  reshape_infer attention_mask (skipn 2 (shape attention_mask)) = Return flat_mask ->
  reshape_infer position_ids (skipn 2 (shape position_ids)) = Return flat_positions ->
  size_last target_ids = Return tl ->
  reshape_infer target_ids [tl] = Return flat_targets ->
  size_last logit_mask = Return ml ->
  reshape_infer logit_mask [ml] = Return flat_logit_mask ->
  rank flat_ids <> 3 ->
  ClozeModel.forward E self input_ids position_ids attention_mask target_ids logit_mask =
  bind (ClozeModel.forward E self flat_ids flat_positions flat_mask flat_targets
          flat_logit_mask)
    (view_choices (nth 1 (shape input_ids) 0)).
Proof.
  intros Hrank Hids Ham Hpos Htl Htid Hml Hmask Hflat.
  unfold ClozeModel.forward.
  rewrite Hrank. cbn [Nat.eqb].
  rewrite Hids, bind_lift_Return, Ham, bind_lift_Return, Hpos, bind_lift_Return.
  rewrite Htl, bind_lift_Return, Htid, bind_lift_Return.
  rewrite Hml, bind_lift_Return, Hmask, bind_lift_Return.
  destruct (Nat.eqb_spec (rank flat_ids) 3) as [Heq|_]; [contradiction|].
  rewrite !bind_ret. cbv beta iota.
  rewrite bind_assoc. apply bind_ext. intros [outputs mems]. cbv beta iota zeta.
  repeat (rewrite bind_assoc; apply bind_ext; intro).
  rewrite !bind_ret. reflexivity.
Qed.

Ltac flatten_step H :=
  match type of H with
  | obind ?X _ = Return _ =>
      let H' := fresh "Hflat" in
      destruct X eqn:H'; cbn [obind] in H; [|discriminate]
  end.

Lemma cloze_forward_flattened {mem} (E : Engine) (self : ClozeModel.t (mem := mem))
    (input_ids position_ids attention_mask target_ids : tensor Z)
    (logit_mask : tensor float) (num_choices : option nat)
    (flat_ids flat_positions flat_mask flat_targets : tensor Z)
    (flat_logit_mask : tensor float) :
  flatten_cloze_inputs input_ids position_ids attention_mask target_ids logit_mask =
  Return (num_choices, flat_ids, flat_positions, flat_mask, flat_targets,
          flat_logit_mask) ->
  rank flat_ids <> 3 /\
  ClozeModel.forward E self input_ids position_ids attention_mask target_ids logit_mask =
  match num_choices with
  | None =>
      ClozeModel.forward E self flat_ids flat_positions flat_mask flat_targets
        flat_logit_mask
  | Some c =>
      bind (ClozeModel.forward E self flat_ids flat_positions flat_mask flat_targets
              flat_logit_mask) (view_choices c)
  end.
Proof.
  unfold flatten_cloze_inputs. intros H.
  destruct (Nat.eqb_spec (rank input_ids) 3) as [Hrank|Hrank].
  - repeat flatten_step H. inversion H. subst.
    assert (Hflat_rank : rank flat_ids <> 3).
    { match goal with
      | Hr : reshape_infer input_ids _ = Return flat_ids |- _ =>
          destruct (reshape_infer_rank _ _ _ Hr) as [Hr' _]; rewrite Hr'
      end. discriminate. }
    split; [exact Hflat_rank|].
    eapply cloze_forward_choices; eassumption.
  - inversion H. subst. split; [assumption|reflexivity].
Qed.

Section ClozeTheorems.
Context {mem : Type}.
Variable E : Engine.
Variable self : ClozeModel.t (mem := mem).
Variables input_ids position_ids attention_mask target_ids : tensor Z.
Variables logit_mask outputs : tensor float.
Variable mems : list mem.
Variables n s l v p : nat.

(** The inputs are 2-D with [n] rows, the language model answers with
    [outputs] of shape [n, l, v], and the targets are valid indices. *)
Hypothesis Hinput : shape input_ids = [n; s].
Hypothesis Hmodel :
  ClozeModel.model self input_ids position_ids attention_mask = Return (outputs, mems).
Hypothesis Houtputs : shape outputs = [n; l; v].
Hypothesis Hwf_outputs : wf outputs.
Hypothesis Htargets : shape target_ids = [n; p].
Hypothesis Hwf_targets : wf target_ids.
Hypothesis Hmask : shape logit_mask = [n; p].
Hypothesis Hwf_mask : wf logit_mask.
Hypothesis Hlen : p <= l.
Hypothesis Hrange : all_in_range v target_ids = true.

Let G := cloze_outputs E (ClozeModel.take_softmax self) outputs.
Let lp := ClozeModel.length_penalty self.

Lemma cloze_forward_2d :
  ClozeModel.forward E self input_ids position_ids attention_mask target_ids logit_mask =
  mkRun [(input_ids, position_ids, attention_mask)]
    (Return (mkTensor [n] (tabulate n (cloze_score E lp G target_ids logit_mask p)), mems)).
Proof.
  apply (cloze_forward_flat E self _ _ _ _ _ outputs mems n l v p); try assumption.
  unfold rank. rewrite Hinput. discriminate.
Qed.

(** C1 (amended): on 2-D inputs of [n] rows, when [length_penalty] is not
    strictly positive (the default [0.0]), [forward] returns one score per
    row, and the score of row [r] is the sum over the positions [j] of
    [logit_mask[r, j] * G[r, j, target_ids[r, j]]], where [G] is the
    log-softmax of the outputs of the language model when [take_softmax]
    is set (the default) and the outputs themselves otherwise. *)
Theorem C1_cloze_masked_sum :
  (0 <? ClozeModel.length_penalty self)%float = false ->
  (exists scores,
      ClozeModel.forward E self input_ids position_ids attention_mask target_ids logit_mask =
      mkRun [(input_ids, position_ids, attention_mask)] (Return (scores, mems)) /\
      shape scores = [n] /\
      forall r, r < n ->
        tget scores [r] =
        Some (masked_sum E (cloze_outputs E (ClozeModel.take_softmax self) outputs)
                target_ids logit_mask p r)) /\
  (forall lm pen, ClozeModel.take_softmax (ClozeModel.init (mem := mem) lm None pen) = true) /\
  (forall lm soft,
      (0 <? ClozeModel.length_penalty (ClozeModel.init (mem := mem) lm soft None))%float = false).
Proof.
  intros Hlp. split; [|split; reflexivity].
  eexists. split; [apply cloze_forward_2d|]. split; [reflexivity|].
  intros r Hr. rewrite (tget1 (mkTensor [n] _) n r eq_refl Hr). cbn [data].
  rewrite nth_error_tabulate by assumption.
  unfold cloze_score, lp. now rewrite Hlp.
Qed.

End ClozeTheorems.

Section ClozeNormalization.
Context {mem : Type}.
Variable E : Engine.
Variable self : ClozeModel.t (mem := mem).
Variables input_ids position_ids attention_mask target_ids : tensor Z.
Variable logit_mask : tensor float.
Variable num_choices : option nat.
Variables flat_ids flat_positions flat_mask flat_targets : tensor Z.
Variables flat_logit_mask outputs : tensor float.
Variable mems : list mem.
Variables n l v p : nat.

(** The language model is called on the flattened inputs and answers with
    [outputs] of shape [n, l, v]; the flattened targets are [n] rows of [p]
    valid indices. *)
Hypothesis Hflatten :
  flatten_cloze_inputs input_ids position_ids attention_mask target_ids logit_mask =
  Return (num_choices, flat_ids, flat_positions, flat_mask, flat_targets,
          flat_logit_mask).
Hypothesis Hchoices : forall c, num_choices = Some c -> 0 < c /\ n mod c = 0.
Hypothesis Hmodel :
  ClozeModel.model self flat_ids flat_positions flat_mask = Return (outputs, mems).
Hypothesis Houtputs : shape outputs = [n; l; v].
Hypothesis Hwf_outputs : wf outputs.
Hypothesis Htargets : shape flat_targets = [n; p].
Hypothesis Hwf_targets : wf flat_targets.
Hypothesis Hmask : shape flat_logit_mask = [n; p].
Hypothesis Hwf_mask : wf flat_logit_mask.
Hypothesis Hlen : p <= l.
Hypothesis Hrange : all_in_range v flat_targets = true.

Let G := cloze_outputs E (ClozeModel.take_softmax self) outputs.
Let lp := ClozeModel.length_penalty self.

Lemma cloze_forward_general :
  ClozeModel.forward E self input_ids position_ids attention_mask target_ids logit_mask =
  mkRun [(flat_ids, flat_positions, flat_mask)]
    (Return (mkTensor (choice_shape num_choices n [])
               (tabulate n (cloze_score E lp G flat_targets flat_logit_mask p)),
             mems)).
Proof.
  destruct (cloze_forward_flattened E self _ _ _ _ _ _ _ _ _ _ _ Hflatten)
    as [Hrank Hforward].
  rewrite Hforward.
  rewrite (cloze_forward_flat E self flat_ids flat_positions flat_mask flat_targets
             flat_logit_mask outputs mems n l v p); try assumption.
  destruct num_choices as [c|]; [|reflexivity].
  destruct (Hchoices c eq_refl) as [Hc Hmod].
  apply view_choices_flat; [assumption|].
  cbn [numel fold_right]. now rewrite Nat.mul_1_r.
Qed.

Lemma cloze_entry (r : nat) :
  r < n ->
  choice_entry num_choices
    (mkTensor (choice_shape num_choices n [])
       (tabulate n (cloze_score E lp G flat_targets flat_logit_mask p))) r =
  Some (cloze_score E lp G flat_targets flat_logit_mask p r).
Proof.
  intros Hr. rewrite (choice_entry_flat num_choices n _ r Hchoices Hr).
  now apply nth_error_tabulate.
Qed.

(** C2: the length normalisation applies exactly when [length_penalty] is
    strictly positive: then the masked sum of each row is divided by
    [(sum of the row's logit_mask) ** length_penalty]; otherwise, and in
    particular for [length_penalty = 0.0], the scores are the masked sums,
    undivided. *)
Theorem C2_length_normalization :
  exists scores,
    ClozeModel.forward E self input_ids position_ids attention_mask target_ids logit_mask =
    mkRun [(flat_ids, flat_positions, flat_mask)] (Return (scores, mems)) /\
    shape scores = choice_shape num_choices n [] /\
    forall r, r < n ->
      ((0 <? ClozeModel.length_penalty self)%float = true ->
       choice_entry num_choices scores r =
       Some (masked_sum E G flat_targets flat_logit_mask p r /
             torch_pow E (mask_sum E flat_logit_mask r)
               (ClozeModel.length_penalty self))%float) /\
      ((0 <? ClozeModel.length_penalty self)%float = false ->
       choice_entry num_choices scores r =
       Some (masked_sum E G flat_targets flat_logit_mask p r)) /\
      (ClozeModel.length_penalty self = 0%float ->
       choice_entry num_choices scores r =
       Some (masked_sum E G flat_targets flat_logit_mask p r)).
Proof.
  eexists. split; [apply cloze_forward_general|]. split; [reflexivity|].
  intros r Hr. rewrite (cloze_entry r Hr).
  unfold cloze_score, lp. repeat split.
  - now intros ->.
  - now intros ->.
  - now intros ->.
Qed.

(** C9: with a strictly positive [length_penalty], a row whose mask sums
    to zero is divided by zero ([0 ** length_penalty] is [0]); nothing
    guards the division, [forward] returns, and the score of that row is
    not a finite number. *)
Theorem C9_zero_mask_not_finite (r : nat) :
  r < n ->
  (0 <? ClozeModel.length_penalty self)%float = true ->
  is_zero (mask_sum E flat_logit_mask r) = true ->
  (forall x y, is_zero x = true -> (0 <? y)%float = true ->
               is_zero (torch_pow E x y) = true) ->
  exists scores score,
    ClozeModel.forward E self input_ids position_ids attention_mask target_ids logit_mask =
    mkRun [(flat_ids, flat_positions, flat_mask)] (Return (scores, mems)) /\
    choice_entry num_choices scores r = Some score /\
    score = (masked_sum E G flat_targets flat_logit_mask p r /
             torch_pow E (mask_sum E flat_logit_mask r)
               (ClozeModel.length_penalty self))%float /\
    is_finite score = false.
Proof.
  intros Hr Hlp Hzero Hpow.
  eexists. eexists. split; [apply cloze_forward_general|].
  rewrite (cloze_entry r Hr).
  unfold cloze_score, lp. rewrite Hlp. split; [reflexivity|]. split; [reflexivity|].
  apply div_zero_not_finite. now apply Hpow.
Qed.
End ClozeNormalization.

(** ** Examples for [ClozeModel] *)

Example sample_model_outputs :
  sample_model sample_ids sample_ids sample_ids = Return (sample_outputs, [7; 8]).
Proof. vm_compute. reflexivity. Qed.

Lemma C1_cloze_masked_sum_witness :
  (0 <? ClozeModel.length_penalty sample_cloze)%float = false /\
  ((exists scores,
       ClozeModel.forward sample_engine sample_cloze sample_ids sample_ids sample_ids
         sample_targets sample_mask =
       mkRun [(sample_ids, sample_ids, sample_ids)] (Return (scores, [7; 8])) /\
       shape scores = [2] /\
       forall r, r < 2 ->
         tget scores [r] =
         Some (masked_sum sample_engine
                 (cloze_outputs sample_engine (ClozeModel.take_softmax sample_cloze) sample_outputs)
                 sample_targets sample_mask 2 r)) /\
   (forall lm pen, ClozeModel.take_softmax (ClozeModel.init (mem := nat) lm None pen) = true) /\
   (forall lm soft,
       (0 <? ClozeModel.length_penalty (ClozeModel.init (mem := nat) lm soft None))%float = false)).
Proof.
  split; [reflexivity|].
  apply (C1_cloze_masked_sum sample_engine sample_cloze
           sample_ids sample_ids sample_ids sample_targets sample_mask sample_outputs
           [7; 8] 2 2 2 3 2);
    reflexivity.
Defined.

(** C1 as stated fails when [length_penalty] is strictly positive: with
    [length_penalty = 1.0] the score of row 0 is [2], the masked sum [4]
    divided by the mask sum [2]. *)
Lemma C1_counterexample :
  ClozeModel.forward sample_engine sample_cloze_penalty sample_ids sample_ids sample_ids
    sample_targets sample_mask =
  mkRun [(sample_ids, sample_ids, sample_ids)]
    (Return (mkTensor [2] [2; 6]%float, [7; 8])) /\
  tget (mkTensor [2] [2; 6]%float) [0] = Some 2%float /\
  masked_sum sample_engine
    (cloze_outputs sample_engine (ClozeModel.take_softmax sample_cloze_penalty)
       sample_outputs)
    sample_targets sample_mask 2 0 = 4%float /\
  (2 =? 4)%float = false.
Proof. repeat split; vm_compute; reflexivity. Qed.

Lemma C2_length_normalization_witness :
  flatten_cloze_inputs sample_choices sample_choices sample_choices
    sample_choice_targets sample_choice_mask =
  Return (Some 2, sample_ids, sample_ids, sample_ids, sample_targets, sample_mask) /\
  all_in_range 3 sample_targets = true /\
  exists scores,
    ClozeModel.forward sample_engine sample_cloze_penalty sample_choices sample_choices
      sample_choices sample_choice_targets sample_choice_mask =
    mkRun [(sample_ids, sample_ids, sample_ids)] (Return (scores, [7; 8])) /\
    shape scores = choice_shape (Some 2) 2 [] /\
    forall r, r < 2 ->
      ((0 <? ClozeModel.length_penalty sample_cloze_penalty)%float = true ->
       choice_entry (Some 2) scores r =
       Some (masked_sum sample_engine
               (cloze_outputs sample_engine
                  (ClozeModel.take_softmax sample_cloze_penalty) sample_outputs)
               sample_targets sample_mask 2 r /
             torch_pow sample_engine (mask_sum sample_engine sample_mask r)
               (ClozeModel.length_penalty sample_cloze_penalty))%float) /\
      ((0 <? ClozeModel.length_penalty sample_cloze_penalty)%float = false ->
       choice_entry (Some 2) scores r =
       Some (masked_sum sample_engine
               (cloze_outputs sample_engine
                  (ClozeModel.take_softmax sample_cloze_penalty) sample_outputs)
               sample_targets sample_mask 2 r)) /\
      (ClozeModel.length_penalty sample_cloze_penalty = 0%float ->
       choice_entry (Some 2) scores r =
       Some (masked_sum sample_engine
               (cloze_outputs sample_engine
                  (ClozeModel.take_softmax sample_cloze_penalty) sample_outputs)
               sample_targets sample_mask 2 r)).
Proof.
  split; [reflexivity|]. split; [reflexivity|].
  apply (C2_length_normalization sample_engine sample_cloze_penalty
           sample_choices sample_choices sample_choices sample_choice_targets
           sample_choice_mask (Some 2) sample_ids sample_ids sample_ids sample_targets
           sample_mask sample_outputs [7; 8] 2 2 3 2);
    try reflexivity.
  intros c Hc. inversion Hc. split; [lia|reflexivity].
Defined.

Lemma table_pow_zero (x y : float) :
  is_zero x = true -> (0 <? y)%float = true -> is_zero (table_pow x y) = true.
Proof. intros Hx Hy. unfold table_pow. rewrite Hx, Hy. reflexivity. Qed.

Lemma C9_zero_mask_not_finite_witness :
  (0 <? ClozeModel.length_penalty sample_cloze_penalty)%float = true /\
  is_zero (mask_sum sample_engine sample_zero_mask 0) = true /\
  exists scores score,
    ClozeModel.forward sample_engine sample_cloze_penalty sample_ids sample_ids sample_ids
      sample_targets sample_zero_mask =
    mkRun [(sample_ids, sample_ids, sample_ids)] (Return (scores, [7; 8])) /\
    choice_entry None scores 0 = Some score /\
    score =
    (masked_sum sample_engine
       (cloze_outputs sample_engine (ClozeModel.take_softmax sample_cloze_penalty)
          sample_outputs)
       sample_targets sample_zero_mask 2 0 /
     torch_pow sample_engine (mask_sum sample_engine sample_zero_mask 0)
       (ClozeModel.length_penalty sample_cloze_penalty))%float /\
    is_finite score = false.
Proof.
  split; [reflexivity|]. split; [reflexivity|].
  apply (C9_zero_mask_not_finite sample_engine sample_cloze_penalty
           sample_ids sample_ids sample_ids sample_targets sample_zero_mask None
           sample_ids sample_ids sample_ids sample_targets sample_zero_mask
           sample_outputs [7; 8] 2 2 3 2);
    try reflexivity.
  - intros c Hc. discriminate.
  - lia.
  - exact table_pow_zero.
Defined.

(** The division by zero of the example gives [nan]; the second row is
    finite. *)
Example sample_zero_mask_scores :
  exists s0 s1,
    result (ClozeModel.forward sample_engine sample_cloze_penalty sample_ids sample_ids
              sample_ids sample_targets sample_zero_mask) =
    Return (mkTensor [2] [s0; s1], [7; 8]) /\
    is_nan s0 = true /\ s1 = 7%float.
Proof. eexists. eexists. split; [vm_compute; reflexivity|]. split; reflexivity. Qed.

(** A target outside the vocabulary, or more target positions than
    sequence positions, ends in an [IndexError] after the call of the
    language model. *)
Example sample_target_out_of_range :
  ClozeModel.forward sample_engine sample_cloze sample_ids sample_ids sample_ids
    (mkTensor [2; 2] [0; 1; 2; 3]%Z) sample_mask =
  mkRun [(sample_ids, sample_ids, sample_ids)] (Raise IndexError) /\
  ClozeModel.forward sample_engine sample_cloze sample_ids sample_ids sample_ids
    (mkTensor [2; 3] [0; 1; 2; 0; 1; 2]%Z) (mkTensor [2; 3] [1; 1; 1; 1; 1; 1]%float) =
  mkRun [(sample_ids, sample_ids, sample_ids)] (Raise IndexError).
Proof. split; reflexivity. Qed.

(** ** Scoring each choice alone *)

Section RowScoreFacts.
Variable E : Engine.

Lemma fitem_cloze_outputs (soft : bool) (outputs : tensor float) (n l v r j : nat) (k : Z) :
  shape outputs = [n; l; v] -> wf outputs -> r < n -> j < l -> in_range v k = true ->
  fitem (cloze_outputs E soft outputs) [Z.of_nat r; Z.of_nat j; k] =
  nth (pos_index v k)
    (if soft then torch_log_softmax E (block v (trow outputs r) j)
     else block v (trow outputs r) j) nan.
Proof.
  intros Ho Hw Hr Hj Hk.
  assert (Hrow : block v (trow outputs r) j = block v (data outputs) (r * l + j)).
  { unfold trow. rewrite Ho. cbn [tl numel fold_right]. rewrite Nat.mul_1_r.
    now apply block_block. }
  assert (Hlen : forall q, q < n * l -> length (block v (data outputs) q) = v).
  { intros q Hq. apply length_block. unfold wf in Hw. rewrite Hw, Ho, numel3. nia. }
  pose proof (pos_index_lt v k Hk) as Hpos.
  unfold fitem.
  rewrite (item3 nan (cloze_outputs E soft outputs) n l v r j k
             ltac:(now rewrite cloze_outputs_shape) Hr Hj Hk).
  rewrite Hrow. destruct soft; cbn [cloze_outputs].
  - unfold log_softmax_last. rewrite Ho. cbn [data last removelast].
    rewrite numel2.
    rewrite (nth_concat_tabulate v (n * l)
               (fun i => torch_log_softmax E (block v (data outputs) i))).
    + reflexivity.
    + intros i Hi. rewrite torch_log_softmax_length. now apply Hlen.
    + now apply flat_index_lt.
    + assumption.
  - now rewrite nth_block.
Qed.

(** The score of a row depends on the rows of the three tensors only. *)
Lemma cloze_score_row (soft : bool) (lp : float) (outputs : tensor float)
    (target_ids : tensor Z) (logit_mask : tensor float) (n l v p r : nat) :
  shape outputs = [n; l; v] -> wf outputs ->
  shape target_ids = [n; p] -> wf target_ids ->
  shape logit_mask = [n; p] ->
  p <= l -> all_in_range v target_ids = true -> r < n ->
  cloze_score E lp (cloze_outputs E soft outputs) target_ids logit_mask p r =
  row_score E soft lp v p (trow outputs r) (trow target_ids r) (trow logit_mask r).
Proof.
  intros Ho Hwo Ht Hwt Hm Hpl Hrange Hr.
  assert (Hlt : length (data target_ids) = n * p)
    by (unfold wf in Hwt; now rewrite Hwt, Ht, numel2).
  assert (Hsum : masked_sum E (cloze_outputs E soft outputs) target_ids logit_mask p r =
                 torch_sum E (tabulate p (fun j =>
                   (nth j (trow logit_mask r) nan *
                    nth (pos_index v (nth j (trow target_ids r) 0%Z))
                      (if soft then torch_log_softmax E (block v (trow outputs r) j)
                       else block v (trow outputs r) j) nan)%float))).
  { unfold masked_sum. f_equal. apply tabulate_ext. intros j Hj.
    assert (Hq : r * p + j < length (data target_ids))
      by (rewrite Hlt; now apply flat_index_lt).
    pose proof (all_in_range_nth v target_ids _ Hrange Hq) as Hk.
    assert (Htj : zitem target_ids [Z.of_nat r; Z.of_nat j] =
                  nth j (trow target_ids r) 0%Z).
    { unfold zitem. rewrite (item2 _ _ n p r j Ht Hr Hj).
      unfold trow. rewrite Ht. cbn [tl numel fold_right]. rewrite Nat.mul_1_r.
      now rewrite nth_block. }
    assert (Hmj : fitem logit_mask [Z.of_nat r; Z.of_nat j] =
                  nth j (trow logit_mask r) nan).
    { unfold fitem. rewrite (item2 _ _ n p r j Hm Hr Hj).
      unfold trow. rewrite Hm. cbn [tl numel fold_right]. rewrite Nat.mul_1_r.
      now rewrite nth_block. }
    rewrite Hmj, Htj. f_equal.
    apply (fitem_cloze_outputs soft outputs n l v r j _ Ho Hwo Hr); [lia|].
    rewrite <- Htj. unfold zitem. now rewrite (item2 _ _ n p r j Ht Hr Hj). }
  unfold cloze_score, row_score. rewrite Hsum. reflexivity.
Qed.
End RowScoreFacts.

(** The outputs of a row-wise language model. *)
Lemma row_wise_outputs {mem} (lm : language_model_t mem)
    (f : list Z -> list Z -> list Z -> list float) (v : nat)
    (ids pos am : tensor Z) (n l : nat) :
  row_wise lm f v -> shape ids = [n; l] -> length (data ids) = n * l ->
  exists outputs mems,
    lm ids pos am = Return (outputs, mems) /\
    shape outputs = [n; l; v] /\ wf outputs /\
    forall r, r < n -> trow outputs r = f (trow ids r) (trow pos r) (trow am r).
Proof.
  intros [Hf Hrow] Hs Hw.
  destruct (Hrow ids pos am n l Hs) as [mems Hlm].
  assert (Hlen : forall r, r < n ->
            length (f (trow ids r) (trow pos r) (trow am r)) = l * v).
  { intros r Hr. rewrite Hf, (length_trow ids n [l] r Hs); simpl; lia. }
  eexists. exists mems. split; [exact Hlm|]. split; [reflexivity|]. split.
  - unfold wf. cbn [shape data]. rewrite numel3.
    rewrite (length_concat_tabulate (l * v) n) by assumption. lia.
  - intros r Hr. unfold trow. cbn [shape data tl numel fold_right].
    rewrite Nat.mul_1_r.
    now apply (block_concat_tabulate (l * v) n
                 (fun r => f (trow ids r) (trow pos r) (trow am r)) r).
Qed.

Section ChoiceIndependence.
Context {mem : Type}.
Variable E : Engine.
Variable self : ClozeModel.t (mem := mem).
Variables input_ids position_ids attention_mask target_ids : tensor Z.
Variable logit_mask : tensor float.
Variables b c s p v : nat.
Variables position_dims mask_dims : list nat.
Variable f : list Z -> list Z -> list Z -> list float.

Hypothesis Hinput : shape input_ids = [b; c; s].
Hypothesis Hwf_input : wf input_ids.
Hypothesis Hpos : shape position_ids = b :: c :: position_dims.
Hypothesis Hwf_pos : wf position_ids.
Hypothesis Ham : shape attention_mask = b :: c :: mask_dims.
Hypothesis Hwf_am : wf attention_mask.
Hypothesis Htargets : shape target_ids = [b; c; p].
Hypothesis Hwf_targets : wf target_ids.
Hypothesis Hmask : shape logit_mask = [b; c; p].
Hypothesis Hwf_mask : wf logit_mask.
Hypothesis Hc : 0 < c.
Hypothesis Hs : 0 < s.
Hypothesis Hp : 0 < p.
Hypothesis Hposdims : 0 < numel position_dims.
Hypothesis Hmaskdims : 0 < numel mask_dims.
Hypothesis Hlen : p <= s.
Hypothesis Hrange : all_in_range v target_ids = true.
Hypothesis Hrow_wise : row_wise (ClozeModel.model self) f v.

Let soft := ClozeModel.take_softmax self.
Let lp := ClozeModel.length_penalty self.

Lemma cloze_forward_rows (ids pos am tid : tensor Z) (mask : tensor float) (n : nat) :
  shape ids = [n; s] -> length (data ids) = n * s ->
  shape tid = [n; p] -> wf tid -> shape mask = [n; p] -> wf mask ->
  all_in_range v tid = true ->
  exists mems,
    ClozeModel.forward E self ids pos am tid mask =
    mkRun [(ids, pos, am)]
      (Return (mkTensor [n]
                 (tabulate n (fun r =>
                    row_score E soft lp v p
                      (f (trow ids r) (trow pos r) (trow am r))
                      (trow tid r) (trow mask r))),
               mems)).
Proof.
  intros Hi Hwi Ht Hwt Hm Hwm Hr.
  destruct (row_wise_outputs (ClozeModel.model self) f v ids pos am n s
              Hrow_wise Hi Hwi) as [outputs [mems [Hlm [Ho [Hwo Hrows]]]]].
  exists mems.
  rewrite (cloze_forward_flat E self ids pos am tid mask outputs mems n s v p);
    try assumption.
  - f_equal. f_equal. f_equal. f_equal. apply tabulate_ext. intros r Hrn.
    rewrite (cloze_score_row E _ _ outputs tid mask n s v p r); try assumption.
    now rewrite Hrows.
  - unfold rank. rewrite Hi. discriminate.
Qed.

(** C3: on inputs with a choice dimension, for a language model that
    computes every output row from the matching input rows only, the score
    at [i, j] is the score that [forward] gives row [i] of the 2-D batch
    made of choice [j] alone. *)
Theorem C3_choice_independence :
  exists scores mems,
    result (ClozeModel.forward E self input_ids position_ids attention_mask
              target_ids logit_mask) = Return (scores, mems) /\
    shape scores = [b; c] /\
    forall j, j < c ->
    forall (ids_j pos_j am_j tid_j : tensor Z) (mask_j : tensor float),
      select_dim1 input_ids (Z.of_nat j) = Return ids_j ->
      select_dim1 position_ids (Z.of_nat j) = Return pos_j ->
      select_dim1 attention_mask (Z.of_nat j) = Return am_j ->
      select_dim1 target_ids (Z.of_nat j) = Return tid_j ->
      select_dim1 logit_mask (Z.of_nat j) = Return mask_j ->
      exists scores_j mems_j,
        result (ClozeModel.forward E self ids_j pos_j am_j tid_j mask_j) =
        Return (scores_j, mems_j) /\
        shape scores_j = [b] /\
        forall i, i < b ->
          exists x, tget scores_j [i] = Some x /\ tget scores [i; j] = Some x.
Proof.
  assert (Hflat_ids : reshape_infer input_ids [last (shape input_ids) 0] =
                      Return (mkTensor [b * c; s] (data input_ids))).
  { rewrite Hinput. cbn [last].
    apply (reshape_choices input_ids b c [s] Hinput). simpl. lia. }
  assert (Hflat_am : reshape_infer attention_mask (skipn 2 (shape attention_mask)) =
                     Return (mkTensor (b * c :: mask_dims) (data attention_mask))).
  { rewrite Ham. cbn [skipn]. now apply reshape_choices. }
  assert (Hflat_pos : reshape_infer position_ids (skipn 2 (shape position_ids)) =
                      Return (mkTensor (b * c :: position_dims) (data position_ids))).
  { rewrite Hpos. cbn [skipn]. now apply reshape_choices. }
  assert (Hflat_tid : reshape_infer target_ids [p] =
                      Return (mkTensor [b * c; p] (data target_ids))).
  { apply (reshape_choices target_ids b c [p] Htargets). simpl. lia. }
  assert (Hflat_mask : reshape_infer logit_mask [p] =
                       Return (mkTensor [b * c; p] (data logit_mask))).
  { apply (reshape_choices logit_mask b c [p] Hmask). simpl. lia. }
  assert (Hlen_ids : length (data input_ids) = b * c * s)
    by (unfold wf in Hwf_input; rewrite Hwf_input, Hinput; simpl; lia).
  assert (Hlen_tid : length (data target_ids) = b * c * p)
    by (unfold wf in Hwf_targets; rewrite Hwf_targets, Htargets; simpl; lia).
  assert (Hlen_mask : length (data logit_mask) = b * c * p)
    by (unfold wf in Hwf_mask; rewrite Hwf_mask, Hmask; simpl; lia).
  destruct (cloze_forward_rows
              (mkTensor [b * c; s] (data input_ids))
              (mkTensor (b * c :: position_dims) (data position_ids))
              (mkTensor (b * c :: mask_dims) (data attention_mask))
              (mkTensor [b * c; p] (data target_ids))
              (mkTensor [b * c; p] (data logit_mask)) (b * c))
    as [mems Hforward]; try reflexivity; try assumption.
  { unfold wf. cbn [shape data]. now rewrite numel2. }
  { unfold wf. cbn [shape data]. now rewrite numel2. }
  eexists. exists mems. split; [|split].
  - rewrite (cloze_forward_choices E self input_ids position_ids attention_mask
               target_ids logit_mask
               (mkTensor [b * c; s] (data input_ids))
               (mkTensor (b * c :: position_dims) (data position_ids))
               (mkTensor (b * c :: mask_dims) (data attention_mask))
               (mkTensor [b * c; p] (data target_ids))
               (mkTensor [b * c; p] (data logit_mask)) p p);
      try assumption.
    + rewrite Hforward. unfold bind, view_choices. cbn [result calls fst snd lift].
      rewrite Hinput. cbn [nth].
      rewrite (view_scores _ b c Hc). reflexivity.
    + unfold rank. now rewrite Hinput.
    + unfold size_last. now rewrite Htargets.
    + unfold size_last. now rewrite Hmask.
    + discriminate.
  - reflexivity.
  - intros j Hj ids_j pos_j am_j tid_j mask_j Hsi Hsp Hsa Hst Hsm.
    rewrite (select_choice input_ids b c j [s] Hinput Hj) in Hsi.
    rewrite (select_choice position_ids b c j _ Hpos Hj) in Hsp.
    rewrite (select_choice attention_mask b c j _ Ham Hj) in Hsa.
    rewrite (select_choice target_ids b c j [p] Htargets Hj) in Hst.
    rewrite (select_choice logit_mask b c j [p] Hmask Hj) in Hsm.
    inversion Hsi; inversion Hsp; inversion Hsa; inversion Hst; inversion Hsm.
    clear Hsi Hsp Hsa Hst Hsm. subst ids_j pos_j am_j tid_j mask_j.
    match goal with
    | |- context [ClozeModel.forward E self ?i ?ps ?a ?t ?m] =>
        destruct (cloze_forward_rows i ps a t m b) as [mems_j Hforward_j]
    end; try reflexivity.
    { cbn [data]. rewrite (length_concat_tabulate (numel [s]) b).
      - simpl. lia.
      - intros r Hr. apply length_block.
        pose proof (flat_index_lt b c r j Hr Hj). simpl. nia. }
    { now apply wf_choice. }
    { now apply wf_choice. }
    { now apply all_in_range_choice. }
    eexists. exists mems_j. split; [rewrite Hforward_j; reflexivity|].
    split; [reflexivity|].
    intros i Hi. eexists. split.
    + rewrite (tget1 (mkTensor [b] _) b i eq_refl Hi). cbn [data].
      now rewrite nth_error_tabulate.
    + rewrite (tget2 (mkTensor [b; c] _) b c i j eq_refl Hi Hj). cbn [data].
      rewrite nth_error_tabulate by now apply flat_index_lt.
      change (s * 1) with (numel [s]). change (p * 1) with (numel [p]).
      rewrite (trow_choice input_ids b c j i [s] Hinput Hwf_input Hj Hi).
      rewrite (trow_choice position_ids b c j i _ Hpos Hwf_pos Hj Hi).
      rewrite (trow_choice attention_mask b c j i _ Ham Hwf_am Hj Hi).
      rewrite (trow_choice target_ids b c j i [p] Htargets Hwf_targets Hj Hi).
      rewrite (trow_choice logit_mask b c j i [p] Hmask Hwf_mask Hj Hi).
      reflexivity.
Qed.
End ChoiceIndependence.

Lemma sample_row_length (x y z : list Z) : length (sample_row x y z) = length x * 3.
Proof.
  unfold sample_row. induction x as [|i x IH]; [reflexivity|].
  cbn [flat_map length app]. rewrite IH. lia.
Qed.

Lemma sample_model_row_wise : row_wise sample_model sample_row 3.
Proof.
  split; [exact sample_row_length|].
  intros ids pos am n l Hs. exists [7; 8].
  unfold sample_model, row_wise_model. now rewrite Hs.
Qed.

Lemma C3_choice_independence_witness :
  shape sample_choices = [1; 2; 2] /\
  all_in_range 3 sample_choice_targets = true /\
  row_wise (ClozeModel.model sample_cloze_penalty) sample_row 3 /\
  exists scores mems,
    result (ClozeModel.forward sample_engine sample_cloze_penalty sample_choices
              sample_choices sample_choices sample_choice_targets sample_choice_mask) =
    Return (scores, mems) /\
    shape scores = [1; 2] /\
    forall j, j < 2 ->
    forall (ids_j pos_j am_j tid_j : tensor Z) (mask_j : tensor float),
      select_dim1 sample_choices (Z.of_nat j) = Return ids_j ->
      select_dim1 sample_choices (Z.of_nat j) = Return pos_j ->
      select_dim1 sample_choices (Z.of_nat j) = Return am_j ->
      select_dim1 sample_choice_targets (Z.of_nat j) = Return tid_j ->
      select_dim1 sample_choice_mask (Z.of_nat j) = Return mask_j ->
      exists scores_j mems_j,
        result (ClozeModel.forward sample_engine sample_cloze_penalty
                  ids_j pos_j am_j tid_j mask_j) =
        Return (scores_j, mems_j) /\
        shape scores_j = [1] /\
        forall i, i < 1 ->
          exists x, tget scores_j [i] = Some x /\ tget scores [i; j] = Some x.
Proof.
  split; [reflexivity|]. split; [reflexivity|].
  split; [exact sample_model_row_wise|].
  apply (C3_choice_independence sample_engine sample_cloze_penalty sample_choices
           sample_choices sample_choices sample_choice_targets sample_choice_mask
           1 2 2 2 3 [2] [2] sample_row);
    try reflexivity; try (simpl; lia).
  exact sample_model_row_wise.
Defined.

Example sample_choices_scores :
  result (ClozeModel.forward sample_engine sample_cloze_penalty sample_choices
            sample_choices sample_choices sample_choice_targets sample_choice_mask) =
  Return (mkTensor [1; 2] [2; 6]%float, [7; 8]).
Proof. vm_compute. reflexivity. Qed.

(** ** [VerbalizerModel.forward] *)

Section VerbalizerTheorems.
Context {mem : Type}.
Variable self : VerbalizerModel.t (mem := mem).
Variables input_ids position_ids attention_mask target_ids : tensor Z.
Variables logit_mask outputs : tensor float.
Variable mems : list mem.
Variables b s l v k : nat.

Hypothesis Hinput : shape input_ids = [b; s].
Hypothesis Hmodel :
  VerbalizerModel.model self input_ids position_ids attention_mask = Return (outputs, mems).
Hypothesis Houtputs : shape outputs = [b; l; v].
Hypothesis Hwf_outputs : wf outputs.
Hypothesis Hpositions : shape attention_mask = [b].
Hypothesis Hwf_positions : wf attention_mask.
Hypothesis Hrange_positions : all_in_range l attention_mask = true.
Hypothesis Htargets : shape target_ids = [b; k].
Hypothesis Hwf_targets : wf target_ids.
Hypothesis Hrange_targets : all_in_range v target_ids = true.

Lemma verbalizer_forward_2d :
  VerbalizerModel.forward self input_ids position_ids attention_mask target_ids logit_mask =
  mkRun [(input_ids, position_ids, attention_mask)]
    (Return (mkTensor [b; k]
               (concat (tabulate b (fun r => tabulate k (fun j =>
                  fitem outputs [Z.of_nat r; zitem attention_mask [Z.of_nat r];
                                 zitem target_ids [Z.of_nat r; Z.of_nat j]])))),
             mems)).
Proof.
  assert (Hlp : length (data attention_mask) = b)
    by (unfold wf in Hwf_positions; rewrite Hwf_positions, Hpositions; simpl; lia).
  assert (Hlt : length (data target_ids) = b * k)
    by (unfold wf in Hwf_targets; now rewrite Hwf_targets, Htargets, numel2).
  assert (Hpos : forall r, r < b -> pos_index l (nth r (data attention_mask) 0%Z) < l).
  { intros r Hr. apply pos_index_lt, all_in_range_nth; [assumption|lia]. }
  pose proof (length_position_rows outputs b l v
                (fun r => pos_index l (nth r (data attention_mask) 0%Z))
                Houtputs Hwf_outputs Hpos) as Hrows.
  cbv beta in Hrows.
  unfold VerbalizerModel.forward, assert, rank. rewrite Hinput. cbn [length Nat.eqb].
  rewrite bind_ret, (bind_invoke _ _ _ _ _ _ Hmodel). cbv beta iota.
  unfold size0. rewrite Houtputs, bind_lift_Return.
  rewrite (gather_positions outputs attention_mask b l v Houtputs Hpositions
             Hwf_positions Hrange_positions), bind_lift_Return.
  rewrite (batch_ids_expand target_ids b k Htargets), bind_lift_Return.
  match goal with
  | |- context [adv_index ?t (?i0 :: ?others)] =>
      rewrite (adv_index_blocks t i0 others
                 (fun q => (q / k) * v +
                           pos_index v (nth q (data target_ids) 0%Z)))
  end.
  - rewrite bind_lift_Return. cbn [calls result ret shape data length skipn app].
    f_equal. f_equal. f_equal. f_equal.
    rewrite numel2. cbn [numel fold_right].
    rewrite (tabulate_ext _ _ (fun q => [fitem outputs
               [Z.of_nat (q / k); zitem attention_mask [Z.of_nat (q / k)];
                zitem target_ids [Z.of_nat (q / k); Z.of_nat (q mod k)]]])).
    + rewrite (concat_singletons (b * k) (fun q => fitem outputs
               [Z.of_nat (q / k); zitem attention_mask [Z.of_nat (q / k)];
                zitem target_ids [Z.of_nat (q / k); Z.of_nat (q mod k)]])).
      apply (tabulate_divmod b k (fun r j => fitem outputs
               [Z.of_nat r; zitem attention_mask [Z.of_nat r];
                zitem target_ids [Z.of_nat r; Z.of_nat j]])).
    + intros q Hq.
      assert (Hk : k <> 0) by (intros ->; lia).
      assert (Hr : q / k < b) by (apply Nat.Div0.div_lt_upper_bound; lia).
      assert (Hj : q mod k < k) by now apply Nat.mod_upper_bound.
      assert (Hqe : q = q / k * k + q mod k)
        by (rewrite (Nat.div_mod_eq q k) at 1; lia).
      pose proof (all_in_range_nth l attention_mask (q / k) Hrange_positions
                    ltac:(lia)) as Hin_p.
      pose proof (all_in_range_nth v target_ids q Hrange_targets ltac:(lia)) as Hin_t.
      unfold fitem, zitem.
      rewrite (item1 _ _ b (q / k) Hpositions Hr).
      rewrite (item2 _ _ b k (q / k) (q mod k) Htargets Hr Hj), <- Hqe.
      rewrite (item3_range _ _ b l v (q / k) _ _ Houtputs Hr Hin_p Hin_t).
      rewrite (block_one _ _ nan).
      * f_equal.
        rewrite (nth_concat_tabulate v b) by (try apply Hrows; try assumption;
                                              now apply pos_index_lt).
        apply nth_block. now apply pos_index_lt.
      * rewrite (length_concat_tabulate v b) by apply Hrows.
        apply flat_index_lt; [assumption|now apply pos_index_lt].
  - cbn [forallb shape]. now rewrite Htargets, shape_eqb_refl.
  - cbn [length rank shape]. lia.
  - intros q Hq. cbn [shape] in Hq. rewrite numel2 in Hq.
    assert (Hk : k <> 0) by (intros ->; lia).
    assert (Hr : q / k < b) by (apply Nat.Div0.div_lt_upper_bound; lia).
    assert (Hj : q mod k < k) by now apply Nat.mod_upper_bound.
    assert (Hqe : q = q / k * k + q mod k)
      by (rewrite (Nat.div_mod_eq q k) at 1; lia).
    cbn [shape map data offset].
    rewrite Hqe at 1.
    rewrite (nth_concat_tabulate k b (fun r => repeat (Z.of_nat r) k))
      by (intros; try apply repeat_length; assumption).
    rewrite nth_repeat_lt by assumption.
    rewrite (norm_index_of_nat b (q / k) Hr).
    rewrite (norm_index_in_range v _
               (all_in_range_nth v target_ids q Hrange_targets ltac:(lia))).
    reflexivity.
Qed.

(** C4: on 2-D [input_ids] of [b] rows, [forward] returns a [b, k] tensor
    whose entry [r, j] is the output of the language model at row [r],
    sequence position [attention_mask[r]] and vocabulary index
    [target_ids[r, j]]; [attention_mask] is read as one position per row,
    and [logit_mask] does not influence the call. *)
Theorem C4_verbalizer_gather :
  (exists output,
      VerbalizerModel.forward self input_ids position_ids attention_mask
        target_ids logit_mask =
      mkRun [(input_ids, position_ids, attention_mask)] (Return (output, mems)) /\
      shape output = [b; k] /\
      forall r j, r < b -> j < k ->
        tget output [r; j] =
        Some (fitem outputs [Z.of_nat r; zitem attention_mask [Z.of_nat r];
                             zitem target_ids [Z.of_nat r; Z.of_nat j]])) /\
  (forall other_mask : tensor float,
      VerbalizerModel.forward self input_ids position_ids attention_mask
        target_ids other_mask =
      VerbalizerModel.forward self input_ids position_ids attention_mask
        target_ids logit_mask).
Proof.
  split; [|reflexivity].
  eexists. split; [apply verbalizer_forward_2d|]. split; [reflexivity|].
  intros r j Hr Hj. rewrite (tget2 (mkTensor [b; k] _) b k r j eq_refl Hr Hj).
  cbn [data].
  rewrite (nth_error_nth' _ nan)
    by (rewrite (length_concat_tabulate k b) by (intros; apply length_tabulate);
        now apply flat_index_lt).
  rewrite (nth_concat_tabulate k b) by (intros; try apply length_tabulate; assumption).
  now rewrite nth_tabulate.
Qed.
End VerbalizerTheorems.

Lemma C4_verbalizer_gather_witness :
  shape sample_ids = [2; 2] /\ shape sample_positions = [2] /\
  all_in_range 2 sample_positions = true /\ all_in_range 3 sample_targets = true /\
  (exists output,
      VerbalizerModel.forward sample_verbalizer sample_ids sample_ids sample_positions
        sample_targets sample_mask =
      mkRun [(sample_ids, sample_ids, sample_positions)] (Return (output, [7; 8])) /\
      shape output = [2; 2] /\
      forall r j, r < 2 -> j < 2 ->
        tget output [r; j] =
        Some (fitem sample_outputs [Z.of_nat r; zitem sample_positions [Z.of_nat r];
                                    zitem sample_targets [Z.of_nat r; Z.of_nat j]])) /\
  (forall other_mask : tensor float,
      VerbalizerModel.forward sample_verbalizer sample_ids sample_ids sample_positions
        sample_targets other_mask =
      VerbalizerModel.forward sample_verbalizer sample_ids sample_ids sample_positions
        sample_targets sample_mask).
Proof.
  repeat (split; [reflexivity|]).
  apply (C4_verbalizer_gather sample_verbalizer sample_ids sample_ids sample_positions
           sample_targets sample_mask sample_outputs [7; 8] 2 2 2 3 2);
    reflexivity.
Defined.

(** ** [PoolingModel.forward] *)

Lemma positions_in_range_nth (tok : string) (am : tensor Z) (n l r : nat) :
  positions_in_range tok am n l = true -> r < n ->
  in_range l (pool_position tok am r) = true.
Proof.
  unfold positions_in_range. intros H Hr. rewrite forallb_forall in H.
  apply H. apply in_seq. lia.
Qed.

Section PoolingFacts.
Context {mem : Type}.
Variable E : Engine.
Variable self : PoolingModel.t (mem := mem).
Variables input_ids position_ids attention_mask : tensor Z.
Variable outputs : tensor float.
Variable mems : list mem.
Variables n l h : nat.

Hypothesis Hrank : rank input_ids <> 3.
Hypothesis Hmodel :
  PoolingModel.model self input_ids position_ids attention_mask = Return (outputs, mems).
Hypothesis Houtputs : shape outputs = [n; l; h].
Hypothesis Hwf_outputs : wf outputs.
Hypothesis Htoken : In (PoolingModel.pool_token self) ["start"; "pad"; "cls"]%string.
Hypothesis Hpositions :
  PoolingModel.pool_token self <> "cls"%string ->
  shape attention_mask = [n] /\ wf attention_mask.
Hypothesis Hrange :
  positions_in_range (PoolingModel.pool_token self) attention_mask n l = true.
Hypothesis Hseq : 0 < l.
Hypothesis Hlong : (Z.of_nat l <= 2 ^ 63)%Z.
Hypothesis Hpool : in_features (PoolingModel.pool_layer self) = h.
Hypothesis Hhead :
  in_features (PoolingModel.multichoice_head self) =
  out_features (PoolingModel.pool_layer self).

Let pooled (r : nat) : list float :=
  vector_at outputs
    [Z.of_nat r; pool_position (PoolingModel.pool_token self) attention_mask r].

Lemma length_pooled (r : nat) : r < n -> length (pooled r) = h.
Proof using Houtputs Hwf_outputs Hrange.
  intros Hr. unfold pooled.
  pose proof (positions_in_range_nth _ _ n l r Hrange Hr) as Hz.
  rewrite (vector_at2 outputs n l h r _ Houtputs Hr Hz).
  apply length_block. unfold wf in Hwf_outputs.
  rewrite Hwf_outputs, Houtputs, numel3.
  apply block_fits; [assumption|now apply pos_index_lt].
Qed.

(** The selection step of [forward]. *)
Lemma pooling_select :
  (if String.eqb (PoolingModel.pool_token self) "start" then
     bind (lift (size0 outputs))
       (fun n0 => lift (adv_index outputs [arange n0; attention_mask]))
   else if String.eqb (PoolingModel.pool_token self) "pad" then
     bind (lift (size0 outputs))
       (fun n0 => lift (adv_index outputs
                          [arange n0; tmap (fun a => wrap64 (a - 1)) attention_mask]))
   else if String.eqb (PoolingModel.pool_token self) "cls" then
     lift (select_dim1 outputs 0)
   else raise NotImplementedError) =
  lift (Return (mkTensor [n; h] (concat (tabulate n pooled)))).
Proof using Houtputs Htoken Hpositions Hrange Hseq Hlong.
  clear Hrank Hmodel Hwf_outputs Hpool Hhead.
  unfold pooled.
  destruct Htoken as [Htok|[Htok|[Htok|[]]]]; rewrite <- Htok in *; cbn [String.eqb Ascii.eqb Bool.eqb].
  - destruct Hpositions as [Hs Hw]; [discriminate|].
    assert (Hlen : length (data attention_mask) = n)
      by (unfold wf in Hw; rewrite Hw, Hs; simpl; lia).
    assert (Hin : forall r, r < n -> in_range l (nth r (data attention_mask) 0%Z) = true).
    { intros r Hr. pose proof (positions_in_range_nth _ _ n l r Hrange Hr) as Hz.
      unfold pool_position, zitem in Hz. cbn [String.eqb Ascii.eqb Bool.eqb] in Hz.
      now rewrite (item1 _ _ n r Hs Hr) in Hz. }
    unfold size0. rewrite Houtputs, bind_lift_Return.
    rewrite (gather_positions outputs attention_mask n l h Houtputs Hs Hw
               (all_in_range_tabulated l attention_mask n Hlen Hin)).
    f_equal. f_equal. f_equal. f_equal. apply tabulate_ext. intros r Hr.
    unfold pool_position, zitem. cbn [String.eqb Ascii.eqb Bool.eqb].
    rewrite (item1 _ _ n r Hs Hr).
    now rewrite (vector_at2 outputs n l h r _ Houtputs Hr (Hin r Hr)).
  - destruct Hpositions as [Hs Hw]; [discriminate|].
    assert (Hlen : length (data attention_mask) = n)
      by (unfold wf in Hw; rewrite Hw, Hs; simpl; lia).
    assert (Hin : forall r, r < n ->
              in_range l (nth r (data attention_mask) 0%Z - 1) = true).
    { intros r Hr. pose proof (positions_in_range_nth _ _ n l r Hrange Hr) as Hz.
      unfold pool_position, zitem in Hz. cbn [String.eqb Ascii.eqb Bool.eqb] in Hz.
      now rewrite (item1 _ _ n r Hs Hr) in Hz. }
    assert (Hnth : forall r, r < n ->
              nth r (data (tmap (fun a => wrap64 (a - 1)) attention_mask)) 0%Z =
              (nth r (data attention_mask) 0%Z - 1)%Z).
    { intros r Hr. cbn [tmap data].
      rewrite (nth_map_lt _ _ _ _ 0%Z) by lia.
      apply (in_range_wrap64 l); [assumption|now apply Hin]. }
    unfold size0. rewrite Houtputs, bind_lift_Return.
    rewrite (gather_positions outputs _ n l h Houtputs).
    + f_equal. f_equal. f_equal. f_equal. apply tabulate_ext. intros r Hr.
      unfold pool_position, zitem. cbn [String.eqb Ascii.eqb Bool.eqb].
      rewrite (item1 _ _ n r Hs Hr), (Hnth r Hr).
      now rewrite (vector_at2 outputs n l h r _ Houtputs Hr (Hin r Hr)).
    + exact Hs.
    + unfold wf. cbn [tmap shape data]. rewrite length_map. exact Hw.
    + apply (all_in_range_tabulated l _ n).
      * cbn [tmap data]. now rewrite length_map.
      * intros r Hr. rewrite (Hnth r Hr). now apply Hin.
  - unfold select_dim1. rewrite Houtputs.
    assert (H0 : in_range l 0 = true).
    { unfold in_range. apply andb_true_iff. split; [apply Z.leb_le|apply Z.ltb_lt]; lia. }
    rewrite (norm_index_in_range l 0 H0).
    f_equal. f_equal. f_equal. f_equal. apply tabulate_ext. intros r Hr.
    unfold pool_position. cbn [String.eqb Ascii.eqb Bool.eqb numel fold_right].
    now rewrite Nat.mul_1_r, (vector_at2 outputs n l h r _ Houtputs Hr H0).
Qed.

Lemma pooling_forward_flat :
  PoolingModel.forward E self input_ids position_ids attention_mask =
  mkRun [(input_ids, position_ids, attention_mask)]
    (Return (mkTensor [n; out_features (PoolingModel.multichoice_head self)]
               (concat (tabulate n (fun r => classifier E self r (pooled r)))),
             mems)).
Proof.
  unfold PoolingModel.forward.
  destruct (Nat.eqb_spec (rank input_ids) 3) as [Heq|_]; [contradiction|].
  rewrite bind_ret. cbv beta iota.
  rewrite (bind_invoke _ _ _ _ _ _ Hmodel). cbv beta iota.
  rewrite pooling_select, bind_lift_Return.
  rewrite (Linear_apply_rows _ n h pooled Hpool length_pooled), bind_lift_Return.
  unfold ttanh, tmap, Dropout_apply. cbn [shape data].
  rewrite map_rows.
  rewrite (dropout_rows _ n (out_features (PoolingModel.pool_layer self)))
    by (intros r Hr; rewrite length_map; apply affine_length;
        rewrite Hpool; now apply length_pooled).
  rewrite Linear_apply_rows.
  - rewrite bind_lift_Return, !bind_ret. reflexivity.
  - assumption.
  - intros r Hr. rewrite length_dropout_from, length_map.
    apply affine_length. rewrite Hpool. now apply length_pooled.
Qed.

Lemma length_classifier (r : nat) :
  r < n ->
  length (classifier E self r (pooled r)) =
  out_features (PoolingModel.multichoice_head self).
Proof using Houtputs Hwf_outputs Hrange Hpool Hhead.
  intros Hr. unfold classifier. apply affine_length.
  rewrite length_dropout_from, length_map, Hhead. apply affine_length.
  rewrite Hpool. now apply length_pooled.
Qed.
End PoolingFacts.

Lemma pooling_forward_choices {mem} (E : Engine) (self : PoolingModel.t (mem := mem))
    (input_ids position_ids attention_mask flat_ids flat_positions flat_mask : tensor Z) :
  rank input_ids = 3 ->
  PoolingModel.num_class self = 1 ->
  reshape_infer input_ids [last (shape input_ids) 0] = Return flat_ids ->
  reshape_infer attention_mask (skipn 2 (shape attention_mask)) = Return flat_mask ->
  reshape_infer position_ids (skipn 2 (shape position_ids)) = Return flat_positions ->
  rank flat_ids <> 3 ->
  PoolingModel.forward E self input_ids position_ids attention_mask =
  bind (PoolingModel.forward E self flat_ids flat_positions flat_mask)
    (view_choices (nth 1 (shape input_ids) 0)).
Proof.
  intros Hrank Hclass Hids Ham Hpos Hflat.
  unfold PoolingModel.forward, assert.
  rewrite Hrank, Hclass. cbn [Nat.eqb].
  rewrite bind_ret.
  rewrite Hids, bind_lift_Return, Ham, bind_lift_Return, Hpos, bind_lift_Return.
  destruct (Nat.eqb_spec (rank flat_ids) 3) as [Heq|_]; [contradiction|].
  rewrite !bind_ret. cbv beta iota.
  rewrite bind_assoc. apply bind_ext. intros [outputs mems]. cbv beta iota zeta.
  repeat (rewrite bind_assoc; apply bind_ext; intro).
  rewrite !bind_ret. reflexivity.
Qed.

Lemma pooling_forward_flattened {mem} (E : Engine) (self : PoolingModel.t (mem := mem))
    (input_ids position_ids attention_mask : tensor Z) (num_choices : option nat)
    (flat_ids flat_positions flat_mask : tensor Z) :
  flatten_pooling_inputs input_ids position_ids attention_mask =
  Return (num_choices, flat_ids, flat_positions, flat_mask) ->
  (num_choices <> None -> PoolingModel.num_class self = 1) ->
  rank flat_ids <> 3 /\
  PoolingModel.forward E self input_ids position_ids attention_mask =
  match num_choices with
  | None => PoolingModel.forward E self flat_ids flat_positions flat_mask
  | Some c =>
      bind (PoolingModel.forward E self flat_ids flat_positions flat_mask)
        (view_choices c)
  end.
Proof.
  unfold flatten_pooling_inputs. intros H Hclass.
  destruct (Nat.eqb_spec (rank input_ids) 3) as [Hrank|Hrank].
  - repeat flatten_step H. inversion H. subst.
    assert (Hflat_rank : rank flat_ids <> 3).
    { match goal with
      | Hr : reshape_infer input_ids _ = Return flat_ids |- _ =>
          destruct (reshape_infer_rank _ _ _ Hr) as [Hr' _]; rewrite Hr'
      end. discriminate. }
    split; [exact Hflat_rank|].
    apply (pooling_forward_choices E self input_ids position_ids attention_mask
             flat_ids flat_positions flat_mask); try assumption.
    apply Hclass. discriminate.
  - inversion H. subst. split; [assumption|reflexivity].
Qed.

Section PoolingTheorems.
Context {mem : Type}.
Variable E : Engine.
Variable self : PoolingModel.t (mem := mem).
Variables input_ids position_ids attention_mask : tensor Z.
Variable num_choices : option nat.
Variables flat_ids flat_positions flat_mask : tensor Z.
Variable outputs : tensor float.
Variable mems : list mem.
Variables n l h : nat.

(** The language model is called on the flattened inputs and answers with
    [outputs] of shape [n, l, h]; the positions selected by [pool_token] are
    valid, and the layers have the sizes given at construction. *)
Hypothesis Hflatten :
  flatten_pooling_inputs input_ids position_ids attention_mask =
  Return (num_choices, flat_ids, flat_positions, flat_mask).
Hypothesis Hsingle : num_choices <> None -> PoolingModel.num_class self = 1.
Hypothesis Hchoices : forall c, num_choices = Some c -> 0 < c /\ n mod c = 0.
Hypothesis Hmodel :
  PoolingModel.model self flat_ids flat_positions flat_mask = Return (outputs, mems).
Hypothesis Houtputs : shape outputs = [n; l; h].
Hypothesis Hwf_outputs : wf outputs.
Hypothesis Htoken : In (PoolingModel.pool_token self) ["start"; "pad"; "cls"]%string.
Hypothesis Hpositions :
  PoolingModel.pool_token self <> "cls"%string ->
  shape flat_mask = [n] /\ wf flat_mask.
Hypothesis Hrange :
  positions_in_range (PoolingModel.pool_token self) flat_mask n l = true.
Hypothesis Hseq : 0 < l.
Hypothesis Hlong : (Z.of_nat l <= 2 ^ 63)%Z.
Hypothesis Hpool : in_features (PoolingModel.pool_layer self) = h.
Hypothesis Hhead :
  in_features (PoolingModel.multichoice_head self) =
  out_features (PoolingModel.pool_layer self).
Hypothesis Hclass :
  out_features (PoolingModel.multichoice_head self) = PoolingModel.num_class self.

Let pooled (r : nat) : list float :=
  vector_at outputs
    [Z.of_nat r; pool_position (PoolingModel.pool_token self) flat_mask r].

Let logits_data : list float :=
  concat (tabulate n (fun r => classifier E self r (pooled r))).

Lemma pooling_forward_general :
  PoolingModel.forward E self input_ids position_ids attention_mask =
  mkRun [(flat_ids, flat_positions, flat_mask)]
    (Return (mkTensor (choice_shape num_choices n [PoolingModel.num_class self])
               logits_data, mems)).
Proof.
  destruct (pooling_forward_flattened E self _ _ _ _ _ _ _ Hflatten Hsingle)
    as [Hrank Hforward].
  rewrite Hforward.
  rewrite (pooling_forward_flat E self flat_ids flat_positions flat_mask outputs mems
             n l h); try assumption.
  rewrite Hclass. fold pooled. fold logits_data.
  destruct num_choices as [c|]; [|reflexivity].
  destruct (Hchoices c eq_refl) as [Hc Hmod].
  apply view_choices_flat; [assumption|].
  rewrite Hsingle by discriminate. cbn [numel fold_right].
  now rewrite !Nat.mul_1_r.
Qed.

Lemma length_logits_row (r : nat) :
  r < n -> length (classifier E self r (pooled r)) = PoolingModel.num_class self.
Proof.
  intros Hr. rewrite <- Hclass.
  eapply length_classifier; eassumption.
Qed.

Lemma choice_row_logits (r : nat) :
  r < n ->
  choice_row num_choices
    (mkTensor (choice_shape num_choices n [PoolingModel.num_class self]) logits_data) r =
  classifier E self r (pooled r).
Proof.
  intros Hr. destruct num_choices as [c|] eqn:Hnc; cbn [choice_row choice_shape].
  - destruct (Hchoices c eq_refl) as [Hc Hmod].
    assert (Hone : PoolingModel.num_class self = 1) by (apply Hsingle; discriminate).
    assert (Hrows : forall i, i < n -> length (classifier E self i (pooled i)) = 1)
      by (intros i Hi; rewrite <- Hone; now apply length_logits_row).
    assert (Hn : n = c * (n / c)).
    { rewrite (Nat.div_mod_eq n c) at 1. rewrite Hmod. lia. }
    rewrite Hone. cbn [numel fold_right]. rewrite !Nat.mul_1_r.
    rewrite (tget2 (mkTensor [n / c; c] logits_data) (n / c) c (r / c) (r mod c) eq_refl).
    + cbn [data]. replace (r / c * c + r mod c) with r
        by (rewrite (Nat.div_mod_eq r c) at 1; lia).
      unfold logits_data.
      rewrite (nth_error_nth' _ nan)
        by (rewrite (length_concat_tabulate 1 n) by assumption; lia).
      replace r with (r * 1 + 0) at 1 by lia.
      rewrite (nth_concat_tabulate 1 n) by (try assumption; lia).
      specialize (Hrows r Hr).
      destruct (classifier E self r (pooled r)) as [|x [|y rest]];
        try discriminate. reflexivity.
    + apply Nat.Div0.div_lt_upper_bound. lia.
    + apply Nat.mod_upper_bound. lia.
  - unfold trow. cbn [shape data tl numel fold_right]. rewrite Nat.mul_1_r.
    apply (block_concat_tabulate _ n (fun r => classifier E self r (pooled r)) r);
      [|assumption].
    intros i Hi. now apply length_logits_row.
Qed.

(** C5: the pooled vector of row [r] is the hidden vector at sequence
    position [attention_mask[r]] for ['start'], [attention_mask[r] - 1] for
    ['pad'] and [0] for ['cls']; the logits of the row are the linear
    projection, [tanh], dropout and the final linear layer applied to it. *)
Theorem C5_pooling_logits :
  exists logits,
    PoolingModel.forward E self input_ids position_ids attention_mask =
    mkRun [(flat_ids, flat_positions, flat_mask)] (Return (logits, mems)) /\
    shape logits = choice_shape num_choices n [PoolingModel.num_class self] /\
    forall r, r < n ->
      exists pooled_vector,
        choice_row num_choices logits r = classifier E self r pooled_vector /\
        length pooled_vector = h /\
        (PoolingModel.pool_token self = "start"%string ->
         pooled_vector =
         vector_at outputs [Z.of_nat r; zitem flat_mask [Z.of_nat r]]) /\
        (PoolingModel.pool_token self = "pad"%string ->
         pooled_vector =
         vector_at outputs [Z.of_nat r; (zitem flat_mask [Z.of_nat r] - 1)%Z]) /\
        (PoolingModel.pool_token self = "cls"%string ->
         pooled_vector = vector_at outputs [Z.of_nat r; 0%Z]).
Proof.
  eexists. split; [apply pooling_forward_general|]. split; [reflexivity|].
  intros r Hr. exists (pooled r). split; [now apply choice_row_logits|].
  split; [eapply length_pooled; eassumption|].
  unfold pooled, pool_position.
  repeat split; intros ->; reflexivity.
Qed.

(** C10: with ['pad'] and [attention_mask[r] = 0] the index [-1] does not
    fail: it denotes the last sequence position, and the pooled vector of
    row [r] is the hidden vector there. *)
Theorem C10_pad_wraps_to_last (r : nat) :
  PoolingModel.pool_token self = "pad"%string ->
  r < n ->
  zitem flat_mask [Z.of_nat r] = 0%Z ->
  exists logits,
    PoolingModel.forward E self input_ids position_ids attention_mask =
    mkRun [(flat_ids, flat_positions, flat_mask)] (Return (logits, mems)) /\
    choice_row num_choices logits r =
    classifier E self r (vector_at outputs [Z.of_nat r; Z.of_nat (l - 1)]) /\
    vector_at outputs [Z.of_nat r; (-1)%Z] =
    vector_at outputs [Z.of_nat r; Z.of_nat (l - 1)] /\
    length (vector_at outputs [Z.of_nat r; Z.of_nat (l - 1)]) = h.
Proof.
  intros Htok Hr Hzero.
  assert (Hlast : in_range l (Z.of_nat (l - 1)) = true) by (apply in_range_of_nat; lia).
  assert (Hneg : in_range l (-1) = true).
  { unfold in_range. apply andb_true_iff. split; [apply Z.leb_le|apply Z.ltb_lt]; lia. }
  assert (Hwrap : vector_at outputs [Z.of_nat r; (-1)%Z] =
                  vector_at outputs [Z.of_nat r; Z.of_nat (l - 1)]).
  { rewrite (vector_at2 outputs n l h r _ Houtputs Hr Hneg).
    rewrite (vector_at2 outputs n l h r _ Houtputs Hr Hlast).
    rewrite pos_index_of_nat. f_equal. f_equal. unfold pos_index.
    replace ((-1 <? 0)%Z) with true by reflexivity. lia. }
  assert (Hp : pooled r = vector_at outputs [Z.of_nat r; (-1)%Z]).
  { unfold pooled, pool_position. rewrite Htok. cbn [String.eqb Ascii.eqb Bool.eqb].
    now rewrite Hzero. }
  eexists. split; [apply pooling_forward_general|].
  split; [rewrite (choice_row_logits r Hr), Hp, Hwrap; reflexivity|].
  split; [exact Hwrap|].
  rewrite <- Hwrap, <- Hp. eapply length_pooled; eassumption.
Qed.
End PoolingTheorems.

Lemma C5_pooling_logits_witness :
  flatten_pooling_inputs sample_choices sample_choices sample_choice_positions =
  Return (Some 2, sample_ids, sample_ids, sample_positions) /\
  In "start"%string ["start"; "pad"; "cls"]%string /\
  positions_in_range "start" sample_positions 2 2 = true /\
  exists logits,
    PoolingModel.forward sample_engine (sample_pooling "start" 1) sample_choices
      sample_choices sample_choice_positions =
    mkRun [(sample_ids, sample_ids, sample_positions)] (Return (logits, [7; 8])) /\
    shape logits = choice_shape (Some 2) 2 [1] /\
    forall r, r < 2 ->
      exists pooled_vector,
        choice_row (Some 2) logits r =
        classifier sample_engine (sample_pooling "start" 1) r pooled_vector /\
        length pooled_vector = 3 /\
        ("start"%string = "start"%string ->
         pooled_vector =
         vector_at sample_outputs [Z.of_nat r; zitem sample_positions [Z.of_nat r]]) /\
        ("start"%string = "pad"%string ->
         pooled_vector =
         vector_at sample_outputs
           [Z.of_nat r; (zitem sample_positions [Z.of_nat r] - 1)%Z]) /\
        ("start"%string = "cls"%string ->
         pooled_vector = vector_at sample_outputs [Z.of_nat r; 0%Z]).
Proof.
  assert (Htoken : In "start"%string ["start"; "pad"; "cls"]%string)
    by (left; reflexivity).
  split; [reflexivity|]. split; [exact Htoken|]. split; [reflexivity|].
  apply (C5_pooling_logits sample_engine (sample_pooling "start" 1) sample_choices
           sample_choices sample_choice_positions (Some 2) sample_ids sample_ids
           sample_positions sample_outputs [7; 8] 2 2 3);
    try reflexivity; try exact Htoken.
  - intros c Hc. inversion Hc. split; [lia|reflexivity].
  - intros _. split; reflexivity.
  - lia.
  - lia.
Defined.

Lemma C10_pad_wraps_to_last_witness :
  zitem sample_positions [1%Z] = 0%Z /\
  exists logits,
    PoolingModel.forward sample_engine (sample_pooling "pad" 1) sample_ids sample_ids
      sample_positions =
    mkRun [(sample_ids, sample_ids, sample_positions)] (Return (logits, [7; 8])) /\
    choice_row None logits 1 =
    classifier sample_engine (sample_pooling "pad" 1) 1
      (vector_at sample_outputs [1%Z; 1%Z]) /\
    vector_at sample_outputs [1%Z; (-1)%Z] = vector_at sample_outputs [1%Z; 1%Z] /\
    length (vector_at sample_outputs [1%Z; 1%Z]) = 3.
Proof.
  split; [reflexivity|].
  apply (C10_pad_wraps_to_last sample_engine (sample_pooling "pad" 1) sample_ids
           sample_ids sample_positions None sample_ids sample_ids sample_positions
           sample_outputs [7; 8] 2 2 3);
    try reflexivity.
  - intros c Hc. discriminate.
  - right; left; reflexivity.
  - intros _. split; reflexivity.
  - lia.
  - lia.
  - lia.
Defined.

(** In the example the pooled vector of row 1 is the last hidden vector
    [4, 5, 8], not a failure. *)
Example sample_pad_last :
  vector_at sample_outputs [1%Z; (-1)%Z] = [4; 5; 8]%float /\
  adv_index sample_outputs [arange 2; mkTensor [2] [0; 2]%Z] = Raise IndexError.
Proof. split; reflexivity. Qed.

(** ** An unknown [pool_token] *)

(** C6 (amended): with a [pool_token] other than ['start'], ['pad'] and
    ['cls'], [PoolingModel.forward] never returns a result; the
    not-implemented error is raised after the language model has been
    invoked, once, and whenever the inputs pass the rank handling and the
    language model returns, it is the outcome of the call. *)
Theorem C6_unknown_pool_token (mem : Type) (E : Engine)
    (self : PoolingModel.t (mem := mem))
    (input_ids position_ids attention_mask : tensor Z) :
  PoolingModel.pool_token self <> "start"%string ->
  PoolingModel.pool_token self <> "pad"%string ->
  PoolingModel.pool_token self <> "cls"%string ->
  (forall x,
      result (PoolingModel.forward E self input_ids position_ids attention_mask) <>
      Return x) /\
  (result (PoolingModel.forward E self input_ids position_ids attention_mask) =
   Raise NotImplementedError ->
   exists a b c,
     calls (PoolingModel.forward E self input_ids position_ids attention_mask) =
     [(a, b, c)]) /\
  (forall num_choices flat_ids flat_positions flat_mask x,
      flatten_pooling_inputs input_ids position_ids attention_mask =
      Return (num_choices, flat_ids, flat_positions, flat_mask) ->
      (num_choices <> None -> PoolingModel.num_class self = 1) ->
      PoolingModel.model self flat_ids flat_positions flat_mask = Return x ->
      PoolingModel.forward E self input_ids position_ids attention_mask =
      mkRun [(flat_ids, flat_positions, flat_mask)] (Raise NotImplementedError)).
Proof.
  intros Hstart Hpad Hcls.
  apply String.eqb_neq in Hstart, Hpad, Hcls.
  split; [|split].
  - intros x. unfold PoolingModel.forward, assert. rewrite Hstart, Hpad, Hcls.
    destruct (rank input_ids =? 3); [destruct (PoolingModel.num_class self =? 1)|];
      run_cases; try run_invoke_any; rewrite ?bind_raise;
      cbn [result raise]; discriminate.
  - unfold PoolingModel.forward, assert. rewrite Hstart, Hpad, Hcls.
    destruct (rank input_ids =? 3); [destruct (PoolingModel.num_class self =? 1)|];
      run_cases; try run_invoke_any; rewrite ?bind_raise;
      cbn [result calls raise]; intros H; try discriminate;
      try (do 3 eexists; reflexivity);
      match goal with
      | Hr : reshape_infer _ _ = Raise ?e |- _ =>
          apply reshape_infer_Raise in Hr; subst; discriminate
      end.
  - intros num_choices flat_ids flat_positions flat_mask [outputs mems]
      Hflatten Hsingle Hlm.
    destruct (pooling_forward_flattened E self _ _ _ _ _ _ _ Hflatten Hsingle)
      as [Hrank Hforward].
    assert (Hflat : PoolingModel.forward E self flat_ids flat_positions flat_mask =
                    mkRun [(flat_ids, flat_positions, flat_mask)]
                      (Raise NotImplementedError)).
    { unfold PoolingModel.forward. rewrite Hstart, Hpad, Hcls.
      destruct (Nat.eqb_spec (rank flat_ids) 3) as [Heq|_]; [contradiction|].
      rewrite bind_ret. cbv beta iota.
      rewrite (bind_invoke _ _ _ _ _ _ Hlm). cbv beta iota.
      rewrite bind_raise. reflexivity. }
    rewrite Hforward, Hflat. now destruct num_choices.
Qed.

Lemma C6_unknown_pool_token_witness :
  PoolingModel.forward sample_engine (sample_pooling "middle" 1) sample_ids sample_ids
    sample_positions =
  mkRun [(sample_ids, sample_ids, sample_positions)] (Raise NotImplementedError).
Proof.
  refine (proj2 (proj2 (C6_unknown_pool_token nat sample_engine
                          (sample_pooling "middle" 1) sample_ids sample_ids
                          sample_positions _ _ _))
            None sample_ids sample_ids sample_positions (sample_outputs, [7; 8])
            _ _ _);
    try discriminate; reflexivity.
Defined.

(** C6 as stated fails: the language model has been invoked when the
    not-implemented error is raised. *)
Lemma C6_counterexample :
  PoolingModel.forward sample_engine (sample_pooling "middle" 1) sample_ids sample_ids
    sample_positions =
  mkRun [(sample_ids, sample_ids, sample_positions)] (Raise NotImplementedError) /\
  sample_model sample_ids sample_ids sample_positions = Return (sample_outputs, [7; 8]) /\
  calls (PoolingModel.forward sample_engine (sample_pooling "middle" 1) sample_ids
           sample_ids sample_positions) <> [].
Proof.
  split; [reflexivity|]. split; [reflexivity|]. discriminate.
Qed.

(** ** Preconditions on the rank *)

(** C7: [VerbalizerModel.forward] fails with an assertion error on every
    [input_ids] whose rank is not 2, and [PoolingModel.forward] fails with
    an assertion error on every 3-D [input_ids] when [num_class] is not 1;
    both fail before the language model is invoked and return nothing. *)
Theorem C7_rank_preconditions :
  (forall (mem : Type) (self : VerbalizerModel.t (mem := mem))
          (input_ids position_ids attention_mask target_ids : tensor Z)
          (logit_mask : tensor float),
      rank input_ids <> 2 ->
      VerbalizerModel.forward self input_ids position_ids attention_mask
        target_ids logit_mask = mkRun [] (Raise AssertionError)) /\
  (forall (mem : Type) (E : Engine) (self : PoolingModel.t (mem := mem))
          (input_ids position_ids attention_mask : tensor Z),
      rank input_ids = 3 -> PoolingModel.num_class self <> 1 ->
      PoolingModel.forward E self input_ids position_ids attention_mask =
      mkRun [] (Raise AssertionError)).
Proof.
  split.
  - intros mem self ids pos am tid mask Hrank.
    unfold VerbalizerModel.forward.
    destruct (Nat.eqb_spec (rank ids) 2) as [Heq|_]; [contradiction|].
    reflexivity.
  - intros mem E self ids pos am Hrank Hclass.
    unfold PoolingModel.forward. rewrite Hrank. cbn [Nat.eqb].
    destruct (Nat.eqb_spec (PoolingModel.num_class self) 1) as [Heq|_]; [contradiction|].
    reflexivity.
Qed.

Lemma C7_rank_preconditions_witness :
  rank sample_choices <> 2 /\
  VerbalizerModel.forward sample_verbalizer sample_choices sample_choices
    sample_positions sample_targets sample_mask = mkRun [] (Raise AssertionError) /\
  rank sample_choices = 3 /\ PoolingModel.num_class (sample_pooling "cls" 2) <> 1 /\
  PoolingModel.forward sample_engine (sample_pooling "cls" 2) sample_choices
    sample_choices sample_positions = mkRun [] (Raise AssertionError).
Proof.
  assert (H2 : rank sample_choices <> 2) by discriminate.
  assert (H1 : PoolingModel.num_class (sample_pooling "cls" 2) <> 1) by discriminate.
  split; [exact H2|]. split.
  - exact (proj1 C7_rank_preconditions nat sample_verbalizer sample_choices
             sample_choices sample_positions sample_targets sample_mask H2).
  - split; [reflexivity|]. split; [exact H1|].
    exact (proj2 C7_rank_preconditions nat sample_engine (sample_pooling "cls" 2)
             sample_choices sample_choices sample_positions eq_refl H1).
Defined.

(** ** The auxiliary state *)

(** C8: whatever [forward] returns besides its primary result is the
    auxiliary state the language model returned in its one invocation, in
    the same order. *)
Theorem C8_mems_pass_through :
  (forall (mem : Type) (E : Engine) (self : ClozeModel.t (mem := mem))
          (input_ids position_ids attention_mask target_ids : tensor Z)
          (logit_mask : tensor float) (scores : tensor float) (mems : list mem),
      result (ClozeModel.forward E self input_ids position_ids attention_mask
                target_ids logit_mask) = Return (scores, mems) ->
      exists a b c outputs,
        calls (ClozeModel.forward E self input_ids position_ids attention_mask
                 target_ids logit_mask) = [(a, b, c)] /\
        ClozeModel.model self a b c = Return (outputs, mems)) /\
  (forall (mem : Type) (self : VerbalizerModel.t (mem := mem))
          (input_ids position_ids attention_mask target_ids : tensor Z)
          (logit_mask : tensor float) (output : tensor float) (mems : list mem),
      result (VerbalizerModel.forward self input_ids position_ids attention_mask
                target_ids logit_mask) = Return (output, mems) ->
      exists a b c outputs,
        calls (VerbalizerModel.forward self input_ids position_ids attention_mask
                 target_ids logit_mask) = [(a, b, c)] /\
        VerbalizerModel.model self a b c = Return (outputs, mems)) /\
  (forall (mem : Type) (E : Engine) (self : PoolingModel.t (mem := mem))
          (input_ids position_ids attention_mask : tensor Z)
          (logits : tensor float) (mems : list mem),
      result (PoolingModel.forward E self input_ids position_ids attention_mask) =
      Return (logits, mems) ->
      exists a b c outputs,
        calls (PoolingModel.forward E self input_ids position_ids attention_mask) =
        [(a, b, c)] /\
        PoolingModel.model self a b c = Return (outputs, mems)).
Proof.
  split; [|split].
  - intros mem E self ids pos am tid mask scores mems.
    unfold ClozeModel.forward.
    destruct (rank ids =? 3); run_cases;
      run_invoke (ClozeModel.model self); run_cases.
    all: destruct (0 <? ClozeModel.length_penalty self)%float; run_cases.
    all: run_done Hlm.
  - intros mem self ids pos am tid mask output mems.
    unfold VerbalizerModel.forward, assert.
    destruct (rank ids =? 2); run_cases;
      run_invoke (VerbalizerModel.model self); run_cases.
    all: run_done Hlm.
  - intros mem E self ids pos am logits mems.
    unfold PoolingModel.forward, assert.
    destruct (rank ids =? 3); [destruct (PoolingModel.num_class self =? 1)|];
      run_cases; run_invoke (PoolingModel.model self).
    all: destruct (String.eqb (PoolingModel.pool_token self) "start");
      [|destruct (String.eqb (PoolingModel.pool_token self) "pad");
        [|destruct (String.eqb (PoolingModel.pool_token self) "cls")]];
      run_cases.
    all: run_done Hlm.
Qed.

Example sample_cloze_returns :
  result (ClozeModel.forward sample_engine sample_cloze_penalty sample_ids sample_ids
            sample_ids sample_targets sample_mask) =
  Return (mkTensor [2] [2; 6]%float, [7; 8]).
Proof. vm_compute. reflexivity. Qed.

Example sample_verbalizer_returns :
  result (VerbalizerModel.forward sample_verbalizer sample_ids sample_ids
            sample_positions sample_targets sample_mask) =
  Return (mkTensor [2; 2] [2; 3; 6; 6]%float, [7; 8]).
Proof. vm_compute. reflexivity. Qed.

Example sample_pooling_returns :
  result (PoolingModel.forward sample_engine (sample_pooling "pad" 1) sample_ids
            sample_ids sample_positions) =
  Return (mkTensor [2; 1] [18; 54]%float, [7; 8]).
Proof. vm_compute. reflexivity. Qed.

Lemma C8_mems_pass_through_witness :
  (exists a b c outputs,
      calls (ClozeModel.forward sample_engine sample_cloze_penalty sample_ids sample_ids
               sample_ids sample_targets sample_mask) = [(a, b, c)] /\
      ClozeModel.model sample_cloze_penalty a b c = Return (outputs, [7; 8])) /\
  (exists a b c outputs,
      calls (VerbalizerModel.forward sample_verbalizer sample_ids sample_ids
               sample_positions sample_targets sample_mask) = [(a, b, c)] /\
      VerbalizerModel.model sample_verbalizer a b c = Return (outputs, [7; 8])) /\
  (exists a b c outputs,
      calls (PoolingModel.forward sample_engine (sample_pooling "pad" 1) sample_ids
               sample_ids sample_positions) = [(a, b, c)] /\
      PoolingModel.model (sample_pooling "pad" 1) a b c = Return (outputs, [7; 8])).
Proof.
  destruct C8_mems_pass_through as [Hc [Hv Hp]].
  split; [|split].
  - apply (Hc nat sample_engine sample_cloze_penalty sample_ids sample_ids sample_ids
             sample_targets sample_mask (mkTensor [2] [2; 6]%float) [7; 8]).
    vm_compute. reflexivity.
  - apply (Hv nat sample_verbalizer sample_ids sample_ids sample_positions
             sample_targets sample_mask (mkTensor [2; 2] [2; 3; 6; 6]%float) [7; 8]).
    vm_compute. reflexivity.
  - apply (Hp nat sample_engine (sample_pooling "pad" 1) sample_ids sample_ids
             sample_positions (mkTensor [2; 1] [18; 54]%float) [7; 8]).
    vm_compute. reflexivity.
Defined.

(** ** Invocations of the language model *)

Lemma calls_bind_quiet {A B} (m : run A) (k : A -> run B) :
  calls m = [] -> (forall a, calls (k a) = []) -> calls (bind m k) = [].
Proof.
  intros Hm Hk. unfold bind. destruct (result m); cbn [calls]; [|assumption].
  now rewrite Hm, Hk.
Qed.

Lemma calls_bind_invoke {mem B} (lm : language_model_t mem) (a b c : tensor Z)
    (k : tensor float * list mem -> run B) :
  (forall x, calls (k x) = []) ->
  calls (bind (invoke lm a b c) k) = [(a, b, c)].
Proof.
  intros Hk. unfold bind, invoke. cbn [result calls].
  destruct (lm a b c); cbn [calls]; [|reflexivity]. now rewrite Hk.
Qed.

(** The steps after the call of the language model make no further call. *)
Ltac quiet :=
  repeat first
    [ reflexivity
    | apply calls_bind_quiet; [|intros]
    | match goal with
      | |- calls (if ?b then _ else _) = [] => destruct b
      | |- calls (match ?x with Some _ => _ | None => _ end) = [] => destruct x
      | |- calls (let '(_, _) := ?x in _) = [] => destruct x
      end ].

Lemma cloze_calls {mem} (E : Engine) (self : ClozeModel.t (mem := mem))
    (input_ids position_ids attention_mask target_ids : tensor Z)
    (logit_mask : tensor float) :
  calls (ClozeModel.forward E self input_ids position_ids attention_mask target_ids
           logit_mask) =
  match flatten_cloze_inputs input_ids position_ids attention_mask target_ids
          logit_mask with
  | Return (_, flat_ids, flat_positions, flat_mask, _, _) =>
      [(flat_ids, flat_positions, flat_mask)]
  | Raise _ => []
  end.
Proof.
  unfold ClozeModel.forward, flatten_cloze_inputs.
  destruct (rank input_ids =? 3).
  - repeat (run_step; cbn [obind]; try reflexivity).
    apply calls_bind_invoke. intros [outputs mems]. quiet.
  - rewrite bind_ret. cbv beta iota.
    apply calls_bind_invoke. intros [outputs mems]. quiet.
Qed.

Lemma verbalizer_calls {mem} (self : VerbalizerModel.t (mem := mem))
    (input_ids position_ids attention_mask target_ids : tensor Z)
    (logit_mask : tensor float) :
  calls (VerbalizerModel.forward self input_ids position_ids attention_mask target_ids
           logit_mask) =
  if rank input_ids =? 2 then [(input_ids, position_ids, attention_mask)] else [].
Proof.
  unfold VerbalizerModel.forward, assert.
  destruct (rank input_ids =? 2); [|reflexivity].
  rewrite bind_ret.
  apply calls_bind_invoke. intros [outputs mems]. quiet.
Qed.

Lemma pooling_calls {mem} (E : Engine) (self : PoolingModel.t (mem := mem))
    (input_ids position_ids attention_mask : tensor Z) :
  calls (PoolingModel.forward E self input_ids position_ids attention_mask) =
  if (rank input_ids =? 3) && negb (PoolingModel.num_class self =? 1) then []
  else
    match flatten_pooling_inputs input_ids position_ids attention_mask with
    | Return (_, flat_ids, flat_positions, flat_mask) =>
        [(flat_ids, flat_positions, flat_mask)]
    | Raise _ => []
    end.
Proof.
  unfold PoolingModel.forward, flatten_pooling_inputs, assert.
  destruct (rank input_ids =? 3); cbn [andb].
  - destruct (PoolingModel.num_class self =? 1); cbn [negb]; [|reflexivity].
    rewrite bind_ret.
    repeat (run_step; cbn [obind]; try reflexivity).
    apply calls_bind_invoke. intros [outputs mems]. quiet.
  - rewrite bind_ret. cbv beta iota.
    apply calls_bind_invoke. intros [outputs mems]. quiet.
Qed.

(** X1: every [forward] invokes the language model at most once, whatever
    happens afterwards.  [ClozeModel.forward] invokes it exactly when the
    reshapes of its inputs succeed, on the flattened tensors;
    [VerbalizerModel.forward] exactly when [input_ids] is 2-D, on its inputs
    as given; [PoolingModel.forward] exactly when the assertion on
    [num_class] passes and the reshapes succeed, on the flattened tensors. *)
Theorem X1_model_invocations :
  (forall (mem : Type) (E : Engine) (self : ClozeModel.t (mem := mem))
          (input_ids position_ids attention_mask target_ids : tensor Z)
          (logit_mask : tensor float),
      calls (ClozeModel.forward E self input_ids position_ids attention_mask
               target_ids logit_mask) =
      match flatten_cloze_inputs input_ids position_ids attention_mask target_ids
              logit_mask with
      | Return (_, flat_ids, flat_positions, flat_mask, _, _) =>
          [(flat_ids, flat_positions, flat_mask)]
      | Raise _ => []
      end) /\
  (forall (mem : Type) (self : VerbalizerModel.t (mem := mem))
          (input_ids position_ids attention_mask target_ids : tensor Z)
          (logit_mask : tensor float),
      calls (VerbalizerModel.forward self input_ids position_ids attention_mask
               target_ids logit_mask) =
      if rank input_ids =? 2 then [(input_ids, position_ids, attention_mask)] else []) /\
  (forall (mem : Type) (E : Engine) (self : PoolingModel.t (mem := mem))
          (input_ids position_ids attention_mask : tensor Z),
      calls (PoolingModel.forward E self input_ids position_ids attention_mask) =
      if (rank input_ids =? 3) && negb (PoolingModel.num_class self =? 1) then []
      else
        match flatten_pooling_inputs input_ids position_ids attention_mask with
        | Return (_, flat_ids, flat_positions, flat_mask) =>
            [(flat_ids, flat_positions, flat_mask)]
        | Raise _ => []
        end).
Proof.
  split; [|split]; intros.
  - apply cloze_calls.
  - apply verbalizer_calls.
  - apply pooling_calls.
Qed.

(** ** Failures of the language model *)

Lemma flatten_cloze_rank
    (input_ids position_ids attention_mask target_ids : tensor Z)
    (logit_mask : tensor float) (num_choices : option nat)
    (flat_ids flat_positions flat_mask flat_targets : tensor Z)
    (flat_logit_mask : tensor float) :
  flatten_cloze_inputs input_ids position_ids attention_mask target_ids logit_mask =
  Return (num_choices, flat_ids, flat_positions, flat_mask, flat_targets,
          flat_logit_mask) ->
  rank flat_ids <> 3.
Proof.
  unfold flatten_cloze_inputs. intros H.
  destruct (Nat.eqb_spec (rank input_ids) 3) as [Hrank|Hrank].
  - repeat flatten_step H. inversion H. subst.
    match goal with
    | Hr : reshape_infer input_ids _ = Return flat_ids |- _ =>
        destruct (reshape_infer_rank _ _ _ Hr) as [Hr' _]; rewrite Hr'
    end. discriminate.
  - inversion H. now subst.
Qed.

Lemma flatten_pooling_rank (input_ids position_ids attention_mask : tensor Z)
    (num_choices : option nat) (flat_ids flat_positions flat_mask : tensor Z) :
  flatten_pooling_inputs input_ids position_ids attention_mask =
  Return (num_choices, flat_ids, flat_positions, flat_mask) ->
  rank flat_ids <> 3.
Proof.
  unfold flatten_pooling_inputs. intros H.
  destruct (Nat.eqb_spec (rank input_ids) 3) as [Hrank|Hrank].
  - repeat flatten_step H. inversion H. subst.
    match goal with
    | Hr : reshape_infer input_ids _ = Return flat_ids |- _ =>
        destruct (reshape_infer_rank _ _ _ Hr) as [Hr' _]; rewrite Hr'
    end. discriminate.
  - inversion H. now subst.
Qed.

(** A failure on the flattened inputs is the failure on the inputs. *)
Lemma cloze_forward_fails {mem} (E : Engine) (self : ClozeModel.t (mem := mem))
    (input_ids position_ids attention_mask target_ids : tensor Z)
    (logit_mask : tensor float) (num_choices : option nat)
    (flat_ids flat_positions flat_mask flat_targets : tensor Z)
    (flat_logit_mask : tensor float) (cs : list lm_call) (e : failure) :
  flatten_cloze_inputs input_ids position_ids attention_mask target_ids logit_mask =
  Return (num_choices, flat_ids, flat_positions, flat_mask, flat_targets,
          flat_logit_mask) ->
  ClozeModel.forward E self flat_ids flat_positions flat_mask flat_targets
    flat_logit_mask = mkRun cs (Raise e) ->
  ClozeModel.forward E self input_ids position_ids attention_mask target_ids logit_mask =
  mkRun cs (Raise e).
Proof.
  intros Hflatten Hflat.
  destruct (cloze_forward_flattened E self _ _ _ _ _ _ _ _ _ _ _ Hflatten)
    as [_ Hforward].
  rewrite Hforward, Hflat. now destruct num_choices.
Qed.

Lemma pooling_forward_fails {mem} (E : Engine) (self : PoolingModel.t (mem := mem))
    (input_ids position_ids attention_mask : tensor Z) (num_choices : option nat)
    (flat_ids flat_positions flat_mask : tensor Z) (cs : list lm_call) (e : failure) :
  flatten_pooling_inputs input_ids position_ids attention_mask =
  Return (num_choices, flat_ids, flat_positions, flat_mask) ->
  (num_choices <> None -> PoolingModel.num_class self = 1) ->
  PoolingModel.forward E self flat_ids flat_positions flat_mask = mkRun cs (Raise e) ->
  PoolingModel.forward E self input_ids position_ids attention_mask = mkRun cs (Raise e).
Proof.
  intros Hflatten Hsingle Hflat.
  destruct (pooling_forward_flattened E self _ _ _ _ _ _ _ Hflatten Hsingle)
    as [_ Hforward].
  rewrite Hforward, Hflat. now destruct num_choices.
Qed.

(** X2: a failure of the language model is the failure of [forward]: no
    [forward] handles it, and nothing is computed after it. *)
Theorem X2_model_failure_propagates :
  (forall (mem : Type) (E : Engine) (self : ClozeModel.t (mem := mem))
          (input_ids position_ids attention_mask target_ids : tensor Z)
          (logit_mask : tensor float) (num_choices : option nat)
          (flat_ids flat_positions flat_mask flat_targets : tensor Z)
          (flat_logit_mask : tensor float) (e : failure),
      flatten_cloze_inputs input_ids position_ids attention_mask target_ids logit_mask =
      Return (num_choices, flat_ids, flat_positions, flat_mask, flat_targets,
              flat_logit_mask) ->
      ClozeModel.model self flat_ids flat_positions flat_mask = Raise e ->
      ClozeModel.forward E self input_ids position_ids attention_mask target_ids
        logit_mask =
      mkRun [(flat_ids, flat_positions, flat_mask)] (Raise e)) /\
  (forall (mem : Type) (self : VerbalizerModel.t (mem := mem))
          (input_ids position_ids attention_mask target_ids : tensor Z)
          (logit_mask : tensor float) (e : failure),
      rank input_ids = 2 ->
      VerbalizerModel.model self input_ids position_ids attention_mask = Raise e ->
      VerbalizerModel.forward self input_ids position_ids attention_mask target_ids
        logit_mask =
      mkRun [(input_ids, position_ids, attention_mask)] (Raise e)) /\
  (forall (mem : Type) (E : Engine) (self : PoolingModel.t (mem := mem))
          (input_ids position_ids attention_mask : tensor Z)
          (num_choices : option nat) (flat_ids flat_positions flat_mask : tensor Z)
          (e : failure),
      flatten_pooling_inputs input_ids position_ids attention_mask =
      Return (num_choices, flat_ids, flat_positions, flat_mask) ->
      (num_choices <> None -> PoolingModel.num_class self = 1) ->
      PoolingModel.model self flat_ids flat_positions flat_mask = Raise e ->
      PoolingModel.forward E self input_ids position_ids attention_mask =
      mkRun [(flat_ids, flat_positions, flat_mask)] (Raise e)).
Proof.
  split; [|split].
  - intros mem E self ids pos am tid mask nc fi fp fm ft fmask e Hflatten Hlm.
    apply (cloze_forward_fails E self _ _ _ _ _ _ _ _ _ _ _ _ _ Hflatten).
    unfold ClozeModel.forward.
    destruct (Nat.eqb_spec (rank fi) 3) as [Heq|_];
      [now apply (flatten_cloze_rank _ _ _ _ _ _ _ _ _ _ _ Hflatten) in Heq|].
    rewrite bind_ret. cbv beta iota.
    now rewrite (bind_invoke_Raise _ _ _ _ _ _ Hlm).
  - intros mem self ids pos am tid mask e Hrank Hlm.
    unfold VerbalizerModel.forward, assert. rewrite Hrank. cbn [Nat.eqb].
    rewrite bind_ret.
    now rewrite (bind_invoke_Raise _ _ _ _ _ _ Hlm).
  - intros mem E self ids pos am nc fi fp fm e Hflatten Hsingle Hlm.
    apply (pooling_forward_fails E self _ _ _ _ _ _ _ _ _ Hflatten Hsingle).
    unfold PoolingModel.forward.
    destruct (Nat.eqb_spec (rank fi) 3) as [Heq|_];
      [now apply (flatten_pooling_rank _ _ _ _ _ _ _ Hflatten) in Heq|].
    rewrite bind_ret. cbv beta iota.
    now rewrite (bind_invoke_Raise _ _ _ _ _ _ Hlm).
Qed.

Lemma X2_model_failure_propagates_witness :
  ClozeModel.forward sample_engine (ClozeModel.init failing_model None None)
    sample_choices sample_choices sample_choices sample_choice_targets
    sample_choice_mask =
  mkRun [(sample_ids, sample_ids, sample_ids)] (Raise RuntimeError) /\
  VerbalizerModel.forward (VerbalizerModel.init failing_model) sample_ids sample_ids
    sample_positions sample_targets sample_mask =
  mkRun [(sample_ids, sample_ids, sample_positions)] (Raise RuntimeError) /\
  PoolingModel.forward sample_engine
    {| PoolingModel.pool_token := "start";
       PoolingModel.model := failing_model;
       PoolingModel.num_class := 1;
       PoolingModel.pool_layer := sample_linear 3 3;
       PoolingModel.multichoice_dropout := no_dropout;
       PoolingModel.multichoice_head := sample_linear 3 1 |}
    sample_ids sample_ids sample_positions =
  mkRun [(sample_ids, sample_ids, sample_positions)] (Raise RuntimeError).
Proof.
  destruct X2_model_failure_propagates as [Hc [Hv Hp]].
  split; [|split].
  - apply (Hc nat sample_engine (ClozeModel.init failing_model None None)
             sample_choices sample_choices sample_choices sample_choice_targets
             sample_choice_mask (Some 2) sample_ids sample_ids sample_ids
             sample_targets sample_mask RuntimeError);
      reflexivity.
  - apply (Hv nat (VerbalizerModel.init failing_model) sample_ids sample_ids
             sample_positions sample_targets sample_mask RuntimeError);
      reflexivity.
  - apply (Hp nat sample_engine _ sample_ids sample_ids sample_positions None
             sample_ids sample_ids sample_positions RuntimeError);
      reflexivity.
Defined.

(** ** The choice dimension, flattened by the caller *)

Section ChoiceFlattening.
Context {mem : Type}.
Variable E : Engine.
Variables input_ids position_ids attention_mask : tensor Z.
Variables b c s : nat.
Variables position_dims mask_dims : list nat.

Hypothesis Hinput : shape input_ids = [b; c; s].
Hypothesis Hpos : shape position_ids = b :: c :: position_dims.
Hypothesis Ham : shape attention_mask = b :: c :: mask_dims.
Hypothesis Hs : 0 < s.
Hypothesis Hposdims : 0 < numel position_dims.
Hypothesis Hmaskdims : 0 < numel mask_dims.

Let flat_ids := mkTensor [b * c; s] (data input_ids).
Let flat_positions := mkTensor (b * c :: position_dims) (data position_ids).
Let flat_mask := mkTensor (b * c :: mask_dims) (data attention_mask).

(** X3: on [b, c, s] inputs [ClozeModel.forward] is [forward] on the same
    elements arranged as [b * c] rows, followed by the view of the scores as
    [-1, c]; this holds for every language model and every outcome, failures
    included. *)
Theorem X3_cloze_choices_as_rows (self : ClozeModel.t (mem := mem))
    (target_ids : tensor Z) (logit_mask : tensor float) (p : nat) :
  shape target_ids = [b; c; p] -> shape logit_mask = [b; c; p] -> 0 < p ->
  ClozeModel.forward E self input_ids position_ids attention_mask target_ids logit_mask =
  bind (ClozeModel.forward E self flat_ids flat_positions flat_mask
          (mkTensor [b * c; p] (data target_ids))
          (mkTensor [b * c; p] (data logit_mask)))
    (view_choices c).
Proof using Hinput Hpos Ham Hs Hposdims Hmaskdims.
  intros Htargets Hmask Hp.
  rewrite (cloze_forward_choices E self input_ids position_ids attention_mask
             target_ids logit_mask flat_ids flat_positions flat_mask
             (mkTensor [b * c; p] (data target_ids))
             (mkTensor [b * c; p] (data logit_mask)) p p).
  - now rewrite Hinput.
  - unfold rank. now rewrite Hinput.
  - rewrite Hinput. cbn [last].
    apply (reshape_choices input_ids b c [s] Hinput). simpl. lia.
  - rewrite Ham. cbn [skipn]. now apply reshape_choices.
  - rewrite Hpos. cbn [skipn]. now apply reshape_choices.
  - unfold size_last. now rewrite Htargets.
  - apply (reshape_choices target_ids b c [p] Htargets). simpl. lia.
  - unfold size_last. now rewrite Hmask.
  - apply (reshape_choices logit_mask b c [p] Hmask). simpl. lia.
  - discriminate.
Qed.

(** X4: likewise, with [num_class = 1], [PoolingModel.forward] on
    [b, c, s] inputs is [forward] on the same elements arranged as [b * c]
    rows, followed by the view of the logits as [-1, c]. *)
Theorem X4_pooling_choices_as_rows (self : PoolingModel.t (mem := mem)) :
  PoolingModel.num_class self = 1 ->
  PoolingModel.forward E self input_ids position_ids attention_mask =
  bind (PoolingModel.forward E self flat_ids flat_positions flat_mask)
    (view_choices c).
Proof using Hinput Hpos Ham Hs Hposdims Hmaskdims.
  intros Hclass.
  rewrite (pooling_forward_choices E self input_ids position_ids attention_mask
             flat_ids flat_positions flat_mask).
  - now rewrite Hinput.
  - unfold rank. now rewrite Hinput.
  - assumption.
  - rewrite Hinput. cbn [last].
    apply (reshape_choices input_ids b c [s] Hinput). simpl. lia.
  - rewrite Ham. cbn [skipn]. now apply reshape_choices.
  - rewrite Hpos. cbn [skipn]. now apply reshape_choices.
  - discriminate.
Qed.
End ChoiceFlattening.

Lemma X3_cloze_choices_as_rows_witness :
  shape sample_choices = [1; 2; 2] /\
  shape sample_choice_targets = [1; 2; 2] /\
  shape sample_choice_mask = [1; 2; 2] /\
  ClozeModel.forward sample_engine sample_cloze sample_choices sample_choices
    sample_choices sample_choice_targets sample_choice_mask =
  bind (ClozeModel.forward sample_engine sample_cloze
          (mkTensor [1 * 2; 2] (data sample_choices))
          (mkTensor [1 * 2; 2] (data sample_choices))
          (mkTensor [1 * 2; 2] (data sample_choices))
          (mkTensor [1 * 2; 2] (data sample_choice_targets))
          (mkTensor [1 * 2; 2] (data sample_choice_mask)))
    (view_choices 2).
Proof.
  repeat (split; [reflexivity|]).
  apply (X3_cloze_choices_as_rows sample_engine sample_choices sample_choices
           sample_choices 1 2 2 [2] [2]);
    try reflexivity; simpl; lia.
Defined.

Lemma X4_pooling_choices_as_rows_witness :
  shape sample_choices = [1; 2; 2] /\
  shape sample_choice_positions = [1; 2] /\
  PoolingModel.num_class (sample_pooling "start" 1) = 1 /\
  PoolingModel.forward sample_engine (sample_pooling "start" 1) sample_choices
    sample_choices sample_choice_positions =
  bind (PoolingModel.forward sample_engine (sample_pooling "start" 1)
          (mkTensor [1 * 2; 2] (data sample_choices))
          (mkTensor [1 * 2; 2] (data sample_choices))
          (mkTensor [1 * 2] (data sample_choice_positions)))
    (view_choices 2).
Proof.
  repeat (split; [reflexivity|]).
  apply (X4_pooling_choices_as_rows sample_engine sample_choices sample_choices
           sample_choice_positions 1 2 2 [2] []);
    try reflexivity; simpl; lia.
Defined.

(** X5: with 3-D [input_ids], targets and mask may be given with the choice
    dimension, [b, c, p], or already flattened, [b * c, p]: the reshape of
    lines 37-38 leaves flattened ones as they are, and [forward] behaves the
    same. *)
Theorem X5_cloze_flat_targets {mem} (E : Engine) (self : ClozeModel.t (mem := mem))
    (input_ids position_ids attention_mask target_ids : tensor Z)
    (logit_mask : tensor float) (b c p : nat) :
  rank input_ids = 3 ->
  shape target_ids = [b; c; p] -> shape logit_mask = [b; c; p] -> 0 < p ->
  ClozeModel.forward E self input_ids position_ids attention_mask
    (mkTensor [b * c; p] (data target_ids)) (mkTensor [b * c; p] (data logit_mask)) =
  ClozeModel.forward E self input_ids position_ids attention_mask target_ids logit_mask.
Proof.
  intros Hrank Htargets Hmask Hp.
  assert (Hflat : forall A (d : list A),
            reshape_infer (mkTensor [b * c; p] d) [p] = Return (mkTensor [b * c; p] d)).
  { intros A d. unfold reshape_infer. cbn [shape data numel fold_right].
    rewrite !Nat.mul_1_r.
    destruct (Nat.eqb_spec p 0) as [H0|_]; [lia|].
    rewrite Nat.Div0.mod_mul, Nat.div_mul by lia. reflexivity. }
  unfold ClozeModel.forward. rewrite Hrank. cbn [Nat.eqb].
  f_equal.
  do 3 (apply bind_ext; intro).
  unfold size_last. cbn [shape]. rewrite Htargets, Hmask. cbn [last].
  assert (Ht : reshape_infer target_ids [p] =
               Return (mkTensor [b * c; p] (data target_ids)))
    by (apply (reshape_choices target_ids b c [p] Htargets); simpl; lia).
  assert (Hm : reshape_infer logit_mask [p] =
               Return (mkTensor [b * c; p] (data logit_mask)))
    by (apply (reshape_choices logit_mask b c [p] Hmask); simpl; lia).
  rewrite !bind_lift_Return, Hflat, Ht, !bind_lift_Return, Hflat, Hm.
  reflexivity.
Qed.

Lemma X5_cloze_flat_targets_witness :
  rank sample_choices = 3 /\
  ClozeModel.forward sample_engine sample_cloze sample_choices sample_choices
    sample_choices (mkTensor [1 * 2; 2] (data sample_choice_targets))
    (mkTensor [1 * 2; 2] (data sample_choice_mask)) =
  ClozeModel.forward sample_engine sample_cloze sample_choices sample_choices
    sample_choices sample_choice_targets sample_choice_mask.
Proof.
  split; [reflexivity|].
  apply (X5_cloze_flat_targets sample_engine sample_cloze sample_choices
           sample_choices sample_choices sample_choice_targets sample_choice_mask
           1 2 2);
    try reflexivity. lia.
Defined.

(** ** Indices out of range in [ClozeModel.forward] *)

Lemma mapM_fails {A B} (f : A -> option B) (l : list A) (x : A) :
  In x l -> f x = None -> mapM f l = None.
Proof.
  intros Hin Hx. induction l as [|y l IH]; [contradiction|].
  cbn [mapM]. destruct Hin as [->|Hin].
  - now rewrite Hx.
  - rewrite (IH Hin). now destruct (f y).
Qed.

Lemma norm_index_out_of_range (size : nat) (i : Z) :
  in_range size i = false -> norm_index size i = None.
Proof.
  unfold in_range, norm_index. intros H.
  apply andb_false_iff in H.
  destruct (Z.leb_spec 0 i), (Z.ltb_spec i (Z.of_nat size)),
    (Z.leb_spec (- Z.of_nat size) i), (Z.ltb_spec i 0);
    cbn [andb]; try reflexivity; destruct H as [H|H]; try discriminate; lia.
Qed.

Lemma adv_index_fails {A} (t : tensor A) (i0 : tensor Z) (others : list (tensor Z))
    (q : nat) :
  forallb (fun i => shape_eqb (shape i) (shape i0)) others = true ->
  length (i0 :: others) <= rank t ->
  q < numel (shape i0) ->
  offset (shape t) (map (fun i => nth q (data i) 0%Z) (i0 :: others)) 0 = None ->
  adv_index t (i0 :: others) = Raise IndexError.
Proof.
  intros Hshapes Hrank Hq Hoff. unfold adv_index. rewrite Hshapes.
  destruct (Nat.leb_spec (length (i0 :: others)) (rank t)) as [_|Hlt]; [|lia].
  rewrite (mapM_fails _ _ q); [reflexivity| |].
  - apply in_seq. lia.
  - now rewrite Hoff.
Qed.

(** The gather of [ClozeModel.forward] fails when a target is outside the
    vocabulary or a target position is outside the sequence. *)
Lemma gather_targets_fails (G : tensor float) (tid : tensor Z) (n l v p r j : nat) :
  shape G = [n; l; v] -> shape tid = [n; p] -> r < n -> j < p ->
  l <= j \/ in_range v (nth (r * p + j) (data tid) 0%Z) = false ->
  adv_index G
    [mkTensor [n; p] (concat (tabulate n (fun r => repeat (Z.of_nat r) p)));
     mkTensor [n; p] (concat (tabulate n (fun _ => map Z.of_nat (seq 0 p))));
     tid] = Raise IndexError.
Proof.
  intros HG Ht Hr Hj Hbad.
  apply (adv_index_fails G _ _ (r * p + j)).
  - cbn [forallb shape]. now rewrite Ht, !shape_eqb_refl.
  - unfold rank. rewrite HG. simpl. lia.
  - cbn [shape]. rewrite numel2. now apply flat_index_lt.
  - rewrite HG. cbn [map data].
    rewrite (nth_concat_tabulate p n (fun r => repeat (Z.of_nat r) p))
      by (intros; try apply repeat_length; assumption).
    rewrite (nth_concat_tabulate p n (fun _ => map Z.of_nat (seq 0 p)))
      by (intros; try (now rewrite length_map, length_seq); assumption).
    rewrite nth_repeat_lt by assumption.
    rewrite (nth_indep _ 0%Z (Z.of_nat 0)) by now rewrite length_map, length_seq.
    rewrite map_nth, seq_nth by assumption. cbn [Nat.add offset].
    rewrite (norm_index_of_nat n r Hr).
    destruct (Nat.ltb_spec j l) as [Hjl|Hjl].
    + rewrite (norm_index_of_nat l j Hjl).
      destruct Hbad as [Hbad|Hbad]; [lia|].
      now rewrite (norm_index_out_of_range v _ Hbad).
    + rewrite norm_index_out_of_range; [reflexivity|].
      unfold in_range. apply andb_false_iff. right. apply Z.ltb_ge. lia.
Qed.

Lemma cloze_forward_flat_fails {mem} (E : Engine) (self : ClozeModel.t (mem := mem))
    (input_ids position_ids attention_mask target_ids : tensor Z)
    (logit_mask outputs : tensor float) (mems : list mem) (n l v p r j : nat) :
  rank input_ids <> 3 ->
  ClozeModel.model self input_ids position_ids attention_mask = Return (outputs, mems) ->
  shape outputs = [n; l; v] -> shape target_ids = [n; p] ->
  r < n -> j < p ->
  l <= j \/ in_range v (nth (r * p + j) (data target_ids) 0%Z) = false ->
  ClozeModel.forward E self input_ids position_ids attention_mask target_ids logit_mask =
  mkRun [(input_ids, position_ids, attention_mask)] (Raise IndexError).
Proof.
  intros Hrank Hlm Ho Ht Hr Hj Hbad.
  unfold ClozeModel.forward.
  destruct (Nat.eqb_spec (rank input_ids) 3) as [Heq|_]; [contradiction|].
  rewrite bind_ret. cbv beta iota.
  rewrite (bind_invoke _ _ _ _ _ _ Hlm). cbv beta iota.
  unfold size0, size_last. rewrite Ht. cbn [last].
  rewrite bind_lift_Return, (batch_ids_expand target_ids n p Ht), bind_lift_Return.
  rewrite bind_lift_Return, (seq_ids_expand target_ids n p Ht), bind_lift_Return.
  rewrite (gather_targets_fails _ target_ids n l v p r j); try assumption.
  - reflexivity.
  - fold (cloze_outputs E (ClozeModel.take_softmax self) outputs).
    now rewrite cloze_outputs_shape.
Qed.

Lemma all_in_range_false (size : nat) (t : tensor Z) :
  all_in_range size t = false ->
  exists q, q < length (data t) /\ in_range size (nth q (data t) 0%Z) = false.
Proof.
  unfold all_in_range. intros H.
  assert (Hex : exists x, In x (data t) /\ in_range size x = false).
  { induction (data t) as [|x l IH]; [discriminate|].
    cbn [forallb] in H. apply andb_false_iff in H. destruct H as [H|H].
    - exists x. split; [now left|assumption].
    - destruct (IH H) as [y [Hin Hy]]. exists y. split; [now right|assumption]. }
  destruct Hex as [x [Hin Hx]].
  destruct (In_nth _ _ 0%Z Hin) as [q [Hq Hnth]].
  exists q. split; [assumption|now rewrite Hnth].
Qed.

Section ClozeIndexErrors.
Context {mem : Type}.
Variable E : Engine.
Variable self : ClozeModel.t (mem := mem).
Variables input_ids position_ids attention_mask target_ids : tensor Z.
Variable logit_mask : tensor float.
Variable num_choices : option nat.
Variables flat_ids flat_positions flat_mask flat_targets : tensor Z.
Variables flat_logit_mask outputs : tensor float.
Variable mems : list mem.
Variables n l v p : nat.

Hypothesis Hflatten :
  flatten_cloze_inputs input_ids position_ids attention_mask target_ids logit_mask =
  Return (num_choices, flat_ids, flat_positions, flat_mask, flat_targets,
          flat_logit_mask).
Hypothesis Hmodel :
  ClozeModel.model self flat_ids flat_positions flat_mask = Return (outputs, mems).
Hypothesis Houtputs : shape outputs = [n; l; v].
Hypothesis Htargets : shape flat_targets = [n; p].

(** X6: a target outside the vocabulary makes [ClozeModel.forward] fail with
    an [IndexError] after the call of the language model, whatever
    [logit_mask] holds at that position: a masked-out position needs a valid
    target too. *)
Theorem X6_cloze_target_outside_vocabulary :
  wf flat_targets -> all_in_range v flat_targets = false ->
  ClozeModel.forward E self input_ids position_ids attention_mask target_ids logit_mask =
  mkRun [(flat_ids, flat_positions, flat_mask)] (Raise IndexError).
Proof using Hflatten Hmodel Houtputs Htargets.
  intros Hwf Hbad.
  destruct (all_in_range_false v flat_targets Hbad) as [q [Hq Hout]].
  unfold wf in Hwf. rewrite Hwf, Htargets, numel2 in Hq.
  assert (Hp : p <> 0) by (intros ->; lia).
  apply (cloze_forward_fails E self _ _ _ _ _ _ _ _ _ _ _ _ _ Hflatten).
  apply (cloze_forward_flat_fails E self _ _ _ _ _ outputs mems n l v p
           (q / p) (q mod p)); try assumption.
  - now apply (flatten_cloze_rank _ _ _ _ _ _ _ _ _ _ _ Hflatten).
  - apply Nat.Div0.div_lt_upper_bound. lia.
  - now apply Nat.mod_upper_bound.
  - right. replace (q / p * p + q mod p) with q; [assumption|].
    rewrite (Nat.div_mod_eq q p) at 1. lia.
Qed.

(** X7: when there are more target positions than sequence positions in the
    outputs of the language model, [ClozeModel.forward] fails with an
    [IndexError] on every batch that is not empty. *)
Theorem X7_cloze_targets_longer_than_sequence :
  0 < n -> l < p ->
  ClozeModel.forward E self input_ids position_ids attention_mask target_ids logit_mask =
  mkRun [(flat_ids, flat_positions, flat_mask)] (Raise IndexError).
Proof using Hflatten Hmodel Houtputs Htargets.
  intros Hn Hlp.
  apply (cloze_forward_fails E self _ _ _ _ _ _ _ _ _ _ _ _ _ Hflatten).
  apply (cloze_forward_flat_fails E self _ _ _ _ _ outputs mems n l v p 0 l);
    try assumption.
  - now apply (flatten_cloze_rank _ _ _ _ _ _ _ _ _ _ _ Hflatten).
  - left. lia.
Qed.
End ClozeIndexErrors.

Lemma X6_cloze_target_outside_vocabulary_witness :
  all_in_range 3 (mkTensor [2; 2] [0; 1; 2; 3]%Z) = false /\
  ClozeModel.forward sample_engine sample_cloze sample_ids sample_ids sample_ids
    (mkTensor [2; 2] [0; 1; 2; 3]%Z) sample_zero_mask =
  mkRun [(sample_ids, sample_ids, sample_ids)] (Raise IndexError).
Proof.
  split; [reflexivity|].
  apply (X6_cloze_target_outside_vocabulary sample_engine sample_cloze sample_ids
           sample_ids sample_ids (mkTensor [2; 2] [0; 1; 2; 3]%Z) sample_zero_mask
           None sample_ids sample_ids sample_ids (mkTensor [2; 2] [0; 1; 2; 3]%Z)
           sample_zero_mask sample_outputs [7; 8] 2 2 3 2);
    reflexivity.
Defined.

Lemma X7_cloze_targets_longer_than_sequence_witness :
  ClozeModel.forward sample_engine sample_cloze sample_ids sample_ids sample_ids
    (mkTensor [2; 3] [0; 1; 2; 0; 1; 2]%Z) (mkTensor [2; 3] [1; 1; 0; 1; 1; 0]%float) =
  mkRun [(sample_ids, sample_ids, sample_ids)] (Raise IndexError).
Proof.
  apply (X7_cloze_targets_longer_than_sequence sample_engine sample_cloze sample_ids
           sample_ids sample_ids (mkTensor [2; 3] [0; 1; 2; 0; 1; 2]%Z)
           (mkTensor [2; 3] [1; 1; 0; 1; 1; 0]%float)
           None sample_ids sample_ids sample_ids (mkTensor [2; 3] [0; 1; 2; 0; 1; 2]%Z)
           (mkTensor [2; 3] [1; 1; 0; 1; 1; 0]%float) sample_outputs [7; 8] 2 2 3 3);
    try reflexivity; lia.
Defined.

(** ** Negative targets *)

Lemma norm_index_normalize (size : nat) (i : Z) :
  norm_index size (normalize_index size i) = norm_index size i.
Proof.
  unfold normalize_index.
  destruct ((- Z.of_nat size <=? i) && (i <? 0))%Z eqn:Hneg; [|reflexivity].
  unfold norm_index. rewrite Hneg.
  apply andb_true_iff in Hneg. destruct Hneg as [H1 H2].
  apply Z.leb_le in H1. apply Z.ltb_lt in H2.
  replace ((0 <=? i + Z.of_nat size) && (i + Z.of_nat size <? Z.of_nat size))%Z
    with true
    by (symmetry; apply andb_true_iff; split; [apply Z.leb_le|apply Z.ltb_lt]; lia).
  replace ((0 <=? i) && (i <? Z.of_nat size))%Z with false
    by (symmetry; apply andb_false_iff; left; apply Z.leb_gt; lia).
  reflexivity.
Qed.

Lemma normalize_index_zero (size : nat) : normalize_index size 0 = 0%Z.
Proof. unfold normalize_index. now rewrite Z.ltb_irrefl, andb_false_r. Qed.

Lemma nth_map_fixed {A} (f : A -> A) (l : list A) (q : nat) (d : A) :
  f d = d -> nth q (map f l) d = f (nth q l d).
Proof. intros H. rewrite <- H at 1. apply map_nth. Qed.

Lemma mapM_ext {A B} (f g : A -> option B) (l : list A) :
  (forall x, In x l -> f x = g x) -> mapM f l = mapM g l.
Proof.
  intros H. induction l as [|x l IH]; [reflexivity|].
  cbn [mapM]. rewrite (H x) by now left.
  rewrite IH; [reflexivity|]. intros y Hy. apply H. now right.
Qed.

Lemma adv_index_normalized {A} (G : tensor A) (batch_ids seq_ids tid : tensor Z)
    (n l v : nat) :
  shape G = [n; l; v] ->
  adv_index G [batch_ids; seq_ids; tmap (normalize_index v) tid] =
  adv_index G [batch_ids; seq_ids; tid].
Proof.
  intros HG. unfold adv_index. cbn [forallb tmap shape length].
  destruct (shape_eqb (shape seq_ids) (shape batch_ids) &&
            (shape_eqb (shape tid) (shape batch_ids) && true)); [|reflexivity].
  destruct (3 <=? rank G); [|reflexivity].
  rewrite (mapM_ext _
             (fun q =>
                match offset (shape G)
                        (map (fun i => nth q (data i) 0%Z) [batch_ids; seq_ids; tid]) 0 with
                | Some o => Some (block (numel (skipn 3 (shape G))) (data G) o)
                | None => None
                end)); [reflexivity|].
  intros q _. rewrite HG. cbn [map data tmap offset].
  destruct (norm_index n (nth q (data batch_ids) 0%Z)); [|reflexivity].
  destruct (norm_index l (nth q (data seq_ids) 0%Z)); [|reflexivity].
  rewrite (nth_map_fixed (normalize_index v)) by apply normalize_index_zero.
  now rewrite norm_index_normalize.
Qed.

Lemma reshape_infer_tmap {A B} (f : A -> B) (t : tensor A) (rest : list nat) :
  reshape_infer (tmap f t) rest =
  obind (reshape_infer t rest) (fun t' => Return (tmap f t')).
Proof.
  unfold reshape_infer. cbn [tmap shape data].
  destruct (numel rest =? 0); [reflexivity|].
  destruct (numel (shape t) mod numel rest =? 0); reflexivity.
Qed.

Lemma flatten_cloze_tmap (f : Z -> Z)
    (input_ids position_ids attention_mask target_ids : tensor Z)
    (logit_mask : tensor float) (num_choices : option nat)
    (flat_ids flat_positions flat_mask flat_targets : tensor Z)
    (flat_logit_mask : tensor float) :
  flatten_cloze_inputs input_ids position_ids attention_mask target_ids logit_mask =
  Return (num_choices, flat_ids, flat_positions, flat_mask, flat_targets,
          flat_logit_mask) ->
  flatten_cloze_inputs input_ids position_ids attention_mask (tmap f target_ids)
    logit_mask =
  Return (num_choices, flat_ids, flat_positions, flat_mask, tmap f flat_targets,
          flat_logit_mask).
Proof.
  unfold flatten_cloze_inputs. intros H.
  destruct (rank input_ids =? 3).
  - repeat flatten_step H. inversion H. subst. cbn [obind].
    change (size_last (tmap f target_ids)) with (size_last target_ids).
    repeat match goal with
           | Hs : ?X = Return _ |- context [obind ?X _] => rewrite Hs; cbn [obind]
           | |- context [reshape_infer (tmap _ _) _] =>
               rewrite reshape_infer_tmap; cbn [obind]
           end.
    reflexivity.
  - inversion H. now subst.
Qed.

Lemma cloze_forward_flat_normalized {mem} (E : Engine)
    (self : ClozeModel.t (mem := mem))
    (input_ids position_ids attention_mask target_ids : tensor Z)
    (logit_mask outputs : tensor float) (mems : list mem) (n l v : nat) :
  rank input_ids <> 3 ->
  ClozeModel.model self input_ids position_ids attention_mask = Return (outputs, mems) ->
  shape outputs = [n; l; v] ->
  ClozeModel.forward E self input_ids position_ids attention_mask
    (tmap (normalize_index v) target_ids) logit_mask =
  ClozeModel.forward E self input_ids position_ids attention_mask target_ids logit_mask.
Proof.
  intros Hrank Hlm Ho.
  unfold ClozeModel.forward.
  destruct (Nat.eqb_spec (rank input_ids) 3) as [Heq|_]; [contradiction|].
  rewrite !bind_ret. cbv beta iota.
  rewrite !(bind_invoke _ _ _ _ _ _ Hlm). cbv beta iota.
  match goal with
  | |- mkRun (_ :: calls ?R1) _ = mkRun (_ :: calls ?R2) _ =>
      assert (HR : R1 = R2); [|now rewrite HR]
  end.
  unfold size0, size_last, expand_as; cbn [tmap shape].
  do 4 (apply bind_ext; intro).
  rewrite (adv_index_normalized _ _ _ _ n l v); [reflexivity|].
  fold (cloze_outputs E (ClozeModel.take_softmax self) outputs).
  now rewrite cloze_outputs_shape.
Qed.

(** X8: negative targets are not refused: a target [t] with [-v <= t < 0]
    addresses the vocabulary entry [t + v], so that replacing every such
    target by [t + v] changes nothing in the run of [ClozeModel.forward]. *)
Theorem X8_cloze_negative_targets {mem} (E : Engine) (self : ClozeModel.t (mem := mem))
    (input_ids position_ids attention_mask target_ids : tensor Z)
    (logit_mask : tensor float) (num_choices : option nat)
    (flat_ids flat_positions flat_mask flat_targets : tensor Z)
    (flat_logit_mask outputs : tensor float) (mems : list mem) (n l v : nat) :
  flatten_cloze_inputs input_ids position_ids attention_mask target_ids logit_mask =
  Return (num_choices, flat_ids, flat_positions, flat_mask, flat_targets,
          flat_logit_mask) ->
  ClozeModel.model self flat_ids flat_positions flat_mask = Return (outputs, mems) ->
  shape outputs = [n; l; v] ->
  ClozeModel.forward E self input_ids position_ids attention_mask
    (tmap (normalize_index v) target_ids) logit_mask =
  ClozeModel.forward E self input_ids position_ids attention_mask target_ids logit_mask.
Proof.
  intros Hflatten Hlm Ho.
  pose proof (flatten_cloze_tmap (normalize_index v) _ _ _ _ _ _ _ _ _ _ _ Hflatten)
    as Hflatten'.
  destruct (cloze_forward_flattened E self _ _ _ _ _ _ _ _ _ _ _ Hflatten)
    as [Hrank ->].
  destruct (cloze_forward_flattened E self _ _ _ _ _ _ _ _ _ _ _ Hflatten')
    as [_ ->].
  now rewrite (cloze_forward_flat_normalized E self _ _ _ _ _ outputs mems n l v).
Qed.

Lemma X8_cloze_negative_targets_witness :
  tmap (normalize_index 3) sample_targets = mkTensor [2; 2] [0; 1; 2; 2]%Z /\
  ClozeModel.forward sample_engine sample_cloze sample_ids sample_ids sample_ids
    (tmap (normalize_index 3) sample_targets) sample_mask =
  ClozeModel.forward sample_engine sample_cloze sample_ids sample_ids sample_ids
    sample_targets sample_mask.
Proof.
  split; [reflexivity|].
  apply (X8_cloze_negative_targets sample_engine sample_cloze sample_ids sample_ids
           sample_ids sample_targets sample_mask None sample_ids sample_ids sample_ids
           sample_targets sample_mask sample_outputs [7; 8] 2 2 3);
    reflexivity.
Defined.

(** ** Indices out of range in [VerbalizerModel.forward] *)

Lemma gather_positions_fails (outputs : tensor float) (positions : tensor Z)
    (n l h r : nat) :
  shape outputs = [n; l; h] -> shape positions = [n] -> r < n ->
  in_range l (nth r (data positions) 0%Z) = false ->
  adv_index outputs [arange n; positions] = Raise IndexError.
Proof.
  intros Ho Hp Hr Hout.
  apply (adv_index_fails outputs (arange n) [positions] r).
  - cbn [forallb arange shape]. now rewrite Hp, shape_eqb_refl.
  - unfold rank. rewrite Ho. simpl. lia.
  - cbn [arange shape numel fold_right]. lia.
  - rewrite Ho. cbn [map arange data offset].
    rewrite (nth_map_lt Z.of_nat (seq 0 n) r 0%Z 0) by now rewrite length_seq.
    rewrite seq_nth by assumption. cbn [Nat.add].
    rewrite (norm_index_of_nat n r Hr).
    now rewrite (norm_index_out_of_range l _ Hout).
Qed.

Section VerbalizerFailures.
Context {mem : Type}.
Variable self : VerbalizerModel.t (mem := mem).
Variables input_ids position_ids attention_mask target_ids : tensor Z.
Variables logit_mask outputs : tensor float.
Variable mems : list mem.
Variables b s l v k : nat.

Hypothesis Hinput : shape input_ids = [b; s].
Hypothesis Hmodel :
  VerbalizerModel.model self input_ids position_ids attention_mask = Return (outputs, mems).
Hypothesis Houtputs : shape outputs = [b; l; v].
Hypothesis Hpositions : shape attention_mask = [b].
Hypothesis Hwf_positions : wf attention_mask.
Hypothesis Htargets : shape target_ids = [b; k].
Hypothesis Hwf_targets : wf target_ids.

(** X9: on well-shaped 2-D inputs, [VerbalizerModel.forward] fails with an
    [IndexError], after the call of the language model, as soon as a
    position in [attention_mask] or a candidate in [target_ids] is out of
    range. *)
Theorem X9_verbalizer_index_out_of_range :
  all_in_range l attention_mask && all_in_range v target_ids = false ->
  VerbalizerModel.forward self input_ids position_ids attention_mask target_ids
    logit_mask =
  mkRun [(input_ids, position_ids, attention_mask)] (Raise IndexError).
Proof using Hinput Hmodel Houtputs Hpositions Hwf_positions Htargets Hwf_targets.
  intros Hbad.
  assert (Hlp : length (data attention_mask) = b)
    by (unfold wf in Hwf_positions; rewrite Hwf_positions, Hpositions; simpl; lia).
  assert (Hlt : length (data target_ids) = b * k)
    by (unfold wf in Hwf_targets; now rewrite Hwf_targets, Htargets, numel2).
  unfold VerbalizerModel.forward, assert, rank. rewrite Hinput. cbn [length Nat.eqb].
  rewrite bind_ret, (bind_invoke _ _ _ _ _ _ Hmodel). cbv beta iota.
  unfold size0. rewrite Houtputs, bind_lift_Return.
  destruct (all_in_range l attention_mask) eqn:Hrange_positions; cbn [andb] in Hbad.
  - rewrite (gather_positions outputs attention_mask b l v Houtputs Hpositions
               Hwf_positions Hrange_positions), bind_lift_Return.
    rewrite (batch_ids_expand target_ids b k Htargets), bind_lift_Return.
    destruct (all_in_range_false v target_ids Hbad) as [q [Hq Hout]].
    rewrite Hlt in Hq.
    assert (Hk : k <> 0) by (intros ->; lia).
    assert (Hr : q / k < b) by (apply Nat.Div0.div_lt_upper_bound; lia).
    assert (Hj : q mod k < k) by now apply Nat.mod_upper_bound.
    assert (Hqe : q = q / k * k + q mod k)
      by (rewrite (Nat.div_mod_eq q k) at 1; lia).
    match goal with
    | |- context [adv_index ?t (?i0 :: ?others)] =>
        rewrite (adv_index_fails t i0 others q)
    end.
    + reflexivity.
    + cbn [forallb shape]. now rewrite Htargets, shape_eqb_refl.
    + cbn [length rank shape]. lia.
    + cbn [shape]. now rewrite numel2.
    + cbn [shape map data offset].
      rewrite Hqe at 1.
      rewrite (nth_concat_tabulate k b (fun r => repeat (Z.of_nat r) k))
        by (intros; try apply repeat_length; assumption).
      rewrite nth_repeat_lt by assumption.
      rewrite (norm_index_of_nat b (q / k) Hr).
      now rewrite (norm_index_out_of_range v _ Hout).
  - destruct (all_in_range_false l attention_mask Hrange_positions) as [r [Hr Hout]].
    rewrite Hlp in Hr.
    rewrite (gather_positions_fails outputs attention_mask b l v r Houtputs
               Hpositions Hr Hout).
    reflexivity.
Qed.
End VerbalizerFailures.

Lemma X9_verbalizer_index_out_of_range_witness :
  all_in_range 2 (mkTensor [2] [1; 2]%Z) && all_in_range 3 sample_targets = false /\
  VerbalizerModel.forward sample_verbalizer sample_ids sample_ids
    (mkTensor [2] [1; 2]%Z) sample_targets sample_mask =
  mkRun [(sample_ids, sample_ids, mkTensor [2] [1; 2]%Z)] (Raise IndexError).
Proof.
  split; [reflexivity|].
  apply (X9_verbalizer_index_out_of_range sample_verbalizer sample_ids sample_ids
           (mkTensor [2] [1; 2]%Z) sample_targets sample_mask sample_outputs [7; 8]
           2 2 2 3 2);
    reflexivity.
Defined.

(** ** ['pad'] and ['start'] *)

Lemma wrap64_increment (a : Z) :
  (- 2 ^ 63 <= a < 2 ^ 63)%Z -> wrap64 (wrap64 (a + 1) - 1) = a.
Proof.
  intros Ha. unfold wrap64.
  replace ((a + 1 + 2 ^ 63) mod 2 ^ 64 - 2 ^ 63 - 1 + 2 ^ 63)%Z
    with ((a + 1 + 2 ^ 63) mod 2 ^ 64 - 1)%Z by lia.
  rewrite Zminus_mod_idemp_l.
  replace (a + 1 + 2 ^ 63 - 1)%Z with (a + 2 ^ 63)%Z by lia.
  rewrite Z.mod_small by lia. lia.
Qed.

Lemma map_fixed {A} (f : A -> A) (l : list A) :
  (forall x, In x l -> f x = x) -> map f l = l.
Proof.
  intros H. induction l as [|x l IH]; [reflexivity|].
  cbn [map]. rewrite (H x) by now left.
  rewrite IH; [reflexivity|]. intros y Hy. apply H. now right.
Qed.

Lemma decrement_increment (t : tensor Z) :
  is_long t = true -> tmap (fun a => wrap64 (a - 1)) (increment t) = t.
Proof.
  intros H. destruct t as [s d]. unfold increment, tmap, is_long in *.
  cbn [shape data] in *. f_equal. rewrite map_map. apply map_fixed.
  intros a Ha. rewrite forallb_forall in H. specialize (H a Ha).
  apply andb_true_iff in H. destruct H as [H1 H2].
  apply Z.leb_le in H1. apply Z.ltb_lt in H2. apply wrap64_increment. lia.
Qed.

Lemma result_bind {A B} (m m' : run A) (k : A -> run B) :
  result m = result m' -> result (bind m k) = result (bind m' k).
Proof. intros H. unfold bind. rewrite H. now destruct (result m'). Qed.

Lemma flatten_pooling_tmap (f : Z -> Z)
    (input_ids position_ids attention_mask : tensor Z) (num_choices : option nat)
    (flat_ids flat_positions flat_mask : tensor Z) :
  flatten_pooling_inputs input_ids position_ids attention_mask =
  Return (num_choices, flat_ids, flat_positions, flat_mask) ->
  flatten_pooling_inputs input_ids position_ids (tmap f attention_mask) =
  Return (num_choices, flat_ids, flat_positions, tmap f flat_mask).
Proof.
  unfold flatten_pooling_inputs. intros H.
  destruct (rank input_ids =? 3).
  - repeat flatten_step H. inversion H. subst. cbn [obind].
    change (shape (tmap f attention_mask)) with (shape attention_mask).
    repeat match goal with
           | Hs : ?X = Return _ |- context [obind ?X _] => rewrite Hs; cbn [obind]
           | |- context [reshape_infer (tmap _ _) _] =>
               rewrite reshape_infer_tmap; cbn [obind]
           end.
    reflexivity.
  - inversion H. now subst.
Qed.

Lemma flatten_pooling_data (input_ids position_ids attention_mask : tensor Z)
    (num_choices : option nat) (flat_ids flat_positions flat_mask : tensor Z) :
  flatten_pooling_inputs input_ids position_ids attention_mask =
  Return (num_choices, flat_ids, flat_positions, flat_mask) ->
  data flat_mask = data attention_mask /\
  (num_choices <> None -> rank input_ids = 3).
Proof.
  unfold flatten_pooling_inputs. intros H.
  destruct (Nat.eqb_spec (rank input_ids) 3) as [Hrank|Hrank].
  - repeat flatten_step H. inversion H. subst. split; [|easy].
    match goal with
    | Hr : reshape_infer attention_mask _ = Return flat_mask |- _ =>
        now destruct (reshape_infer_rank _ _ _ Hr)
    end.
  - inversion H. subst. split; [reflexivity|congruence].
Qed.

Lemma pooling_flat_pad_start {mem} (E : Engine) (self : PoolingModel.t (mem := mem))
    (input_ids position_ids attention_mask : tensor Z) :
  rank input_ids <> 3 ->
  is_long attention_mask = true ->
  PoolingModel.model self input_ids position_ids (increment attention_mask) =
  PoolingModel.model self input_ids position_ids attention_mask ->
  result (PoolingModel.forward E (with_pool_token "pad" self) input_ids position_ids
            (increment attention_mask)) =
  result (PoolingModel.forward E (with_pool_token "start" self) input_ids position_ids
            attention_mask).
Proof.
  intros Hrank Hlong Hlm.
  unfold PoolingModel.forward.
  destruct (Nat.eqb_spec (rank input_ids) 3) as [Heq|_]; [contradiction|].
  rewrite !bind_ret. cbv beta iota.
  unfold with_pool_token. cbn [PoolingModel.pool_token PoolingModel.model
    PoolingModel.num_class PoolingModel.pool_layer PoolingModel.multichoice_dropout
    PoolingModel.multichoice_head String.eqb Ascii.eqb Bool.eqb].
  rewrite (decrement_increment attention_mask Hlong).
  unfold bind at 1. unfold bind at 8. unfold invoke. cbn [result calls].
  rewrite Hlm.
  now destruct (PoolingModel.model self input_ids position_ids attention_mask)
    as [[outputs mems]|e].
Qed.

(** X10: pooling with ['pad'] at [attention_mask + 1] is pooling with
    ['start'] at [attention_mask]: the two calls return the same result (or
    fail alike) whenever the language model answers them alike, with the
    same dropout draws. *)
Theorem X10_pooling_pad_is_shifted_start {mem} (E : Engine)
    (self : PoolingModel.t (mem := mem))
    (input_ids position_ids attention_mask : tensor Z) (num_choices : option nat)
    (flat_ids flat_positions flat_mask : tensor Z) :
  flatten_pooling_inputs input_ids position_ids attention_mask =
  Return (num_choices, flat_ids, flat_positions, flat_mask) ->
  is_long attention_mask = true ->
  PoolingModel.model self flat_ids flat_positions (increment flat_mask) =
  PoolingModel.model self flat_ids flat_positions flat_mask ->
  result (PoolingModel.forward E (with_pool_token "pad" self) input_ids position_ids
            (increment attention_mask)) =
  result (PoolingModel.forward E (with_pool_token "start" self) input_ids position_ids
            attention_mask).
Proof.
  intros Hflatten Hlong Hlm.
  pose proof (flatten_pooling_tmap (fun a => wrap64 (a + 1)) _ _ _ _ _ _ _ Hflatten)
    as Hflatten'.
  fold (increment attention_mask) in Hflatten'. fold (increment flat_mask) in Hflatten'.
  destruct (flatten_pooling_data _ _ _ _ _ _ _ Hflatten) as [Hdata Hchoices].
  assert (Hflat_long : is_long flat_mask = true)
    by (unfold is_long in *; now rewrite Hdata).
  destruct (Nat.eq_dec (PoolingModel.num_class self) 1) as [Hone|Hmany].
  - destruct (pooling_forward_flattened E (with_pool_token "pad" self)
                _ _ _ _ _ _ _ Hflatten' (fun _ => Hone)) as [Hrank ->].
    destruct (pooling_forward_flattened E (with_pool_token "start" self)
                _ _ _ _ _ _ _ Hflatten (fun _ => Hone)) as [_ ->].
    pose proof (pooling_flat_pad_start E self flat_ids flat_positions flat_mask
                  Hrank Hflat_long Hlm) as Hflat.
    destruct num_choices as [c|]; [now apply result_bind|exact Hflat].
  - destruct num_choices as [c|].
    + assert (Hrank : rank input_ids = 3) by (apply Hchoices; discriminate).
      unfold PoolingModel.forward, assert. rewrite Hrank. cbn [Nat.eqb].
      unfold with_pool_token. cbn [PoolingModel.num_class].
      destruct (Nat.eqb_spec (PoolingModel.num_class self) 1) as [Heq|_];
        [contradiction|reflexivity].
    + destruct (pooling_forward_flattened E (with_pool_token "pad" self)
                  _ _ _ _ _ _ _ Hflatten' ltac:(congruence)) as [Hrank ->].
      destruct (pooling_forward_flattened E (with_pool_token "start" self)
                  _ _ _ _ _ _ _ Hflatten ltac:(congruence)) as [_ ->].
      now apply pooling_flat_pad_start.
Qed.

Lemma X10_pooling_pad_is_shifted_start_witness :
  increment sample_positions = mkTensor [2] [2; 1]%Z /\
  is_long sample_positions = true /\
  result (PoolingModel.forward sample_engine
            (with_pool_token "pad" (sample_pooling "cls" 1)) sample_ids sample_ids
            (increment sample_positions)) =
  result (PoolingModel.forward sample_engine
            (with_pool_token "start" (sample_pooling "cls" 1)) sample_ids sample_ids
            sample_positions).
Proof.
  split; [reflexivity|]. split; [reflexivity|].
  apply (X10_pooling_pad_is_shifted_start sample_engine (sample_pooling "cls" 1)
           sample_ids sample_ids sample_positions None sample_ids sample_ids
           sample_positions);
    reflexivity.
Defined.

(** ** Failures of [PoolingModel.forward] *)

Lemma forallb_seq_false (f : nat -> bool) (n : nat) :
  forallb f (seq 0 n) = false -> exists r, r < n /\ f r = false.
Proof.
  intros H.
  assert (Hex : exists r, In r (seq 0 n) /\ f r = false).
  { induction (seq 0 n) as [|x l IH]; [discriminate|].
    cbn [forallb] in H. apply andb_false_iff in H. destruct H as [H|H].
    - exists x. split; [now left|assumption].
    - destruct (IH H) as [y [Hin Hy]]. exists y. split; [now right|assumption]. }
  destruct Hex as [r [Hin Hr]]. exists r. split; [|assumption].
  apply in_seq in Hin. lia.
Qed.

Lemma is_long_nth (t : tensor Z) (r : nat) :
  is_long t = true -> r < length (data t) ->
  (- 2 ^ 63 <= nth r (data t) 0 < 2 ^ 63)%Z.
Proof.
  unfold is_long. intros H Hr. rewrite forallb_forall in H.
  specialize (H _ (nth_In _ 0%Z Hr)).
  apply andb_true_iff in H. destruct H as [H1 H2].
  apply Z.leb_le in H1. apply Z.ltb_lt in H2. lia.
Qed.

(** The index [a - 1] of ['pad'], computed in torch.long, is out of range
    when [a - 1] is. *)
Lemma in_range_decrement (l : nat) (a : Z) :
  (Z.of_nat l < 2 ^ 63)%Z -> (- 2 ^ 63 <= a < 2 ^ 63)%Z ->
  in_range l (a - 1) = false -> in_range l (wrap64 (a - 1)) = false.
Proof.
  intros Hl Ha Hout.
  destruct (Z.eq_dec a (- 2 ^ 63)) as [->|Hmin].
  - replace (wrap64 (- 2 ^ 63 - 1)) with (2 ^ 63 - 1)%Z by reflexivity.
    unfold in_range. apply andb_false_iff. right. apply Z.ltb_ge. lia.
  - rewrite wrap64_small by lia. exact Hout.
Qed.

Section PoolingFailures.
Context {mem : Type}.
Variable E : Engine.
Variable self : PoolingModel.t (mem := mem).
Variables input_ids position_ids attention_mask : tensor Z.
Variable num_choices : option nat.
Variables flat_ids flat_positions flat_mask : tensor Z.
Variable outputs : tensor float.
Variable mems : list mem.
Variables n l h : nat.

Hypothesis Hflatten :
  flatten_pooling_inputs input_ids position_ids attention_mask =
  Return (num_choices, flat_ids, flat_positions, flat_mask).
Hypothesis Hsingle : num_choices <> None -> PoolingModel.num_class self = 1.
Hypothesis Hmodel :
  PoolingModel.model self flat_ids flat_positions flat_mask = Return (outputs, mems).
Hypothesis Houtputs : shape outputs = [n; l; h].

(** X11: when the position pooled for some row is outside the sequence,
    ([attention_mask[r]] for ['start'], [attention_mask[r] - 1] for ['pad'],
    [0] for ['cls'] on empty sequences), [PoolingModel.forward] fails with an
    [IndexError] after the call of the language model. *)
Theorem X11_pooling_position_out_of_range :
  In (PoolingModel.pool_token self) ["start"; "pad"; "cls"]%string ->
  (PoolingModel.pool_token self <> "cls"%string ->
   shape flat_mask = [n] /\ wf flat_mask /\ is_long flat_mask = true) ->
  (Z.of_nat l < 2 ^ 63)%Z ->
  positions_in_range (PoolingModel.pool_token self) flat_mask n l = false ->
  PoolingModel.forward E self input_ids position_ids attention_mask =
  mkRun [(flat_ids, flat_positions, flat_mask)] (Raise IndexError).
Proof using Hflatten Hsingle Hmodel Houtputs.
  intros Htoken Hpositions Hl Hbad.
  apply (pooling_forward_fails E self _ _ _ _ _ _ _ _ _ Hflatten Hsingle).
  destruct (forallb_seq_false _ _ Hbad) as [r [Hr Hout]].
  unfold PoolingModel.forward.
  destruct (Nat.eqb_spec (rank flat_ids) 3) as [Heq|_];
    [now apply (flatten_pooling_rank _ _ _ _ _ _ _ Hflatten) in Heq|].
  rewrite bind_ret. cbv beta iota.
  rewrite (bind_invoke _ _ _ _ _ _ Hmodel). cbv beta iota.
  unfold pool_position, zitem in Hout.
  destruct Htoken as [Htok|[Htok|[Htok|[]]]]; rewrite <- Htok in *;
    cbn [String.eqb Ascii.eqb Bool.eqb] in *.
  - destruct Hpositions as [Hshape [Hwf Hlong]]; [discriminate|].
    rewrite (item1 _ _ n r Hshape Hr) in Hout.
    unfold size0. rewrite Houtputs, !bind_lift_Return.
    rewrite (gather_positions_fails outputs flat_mask n l h r Houtputs Hshape Hr Hout).
    reflexivity.
  - destruct Hpositions as [Hshape [Hwf Hlong]]; [discriminate|].
    assert (Hlen : length (data flat_mask) = n)
      by (unfold wf in Hwf; rewrite Hwf, Hshape; simpl; lia).
    rewrite (item1 _ _ n r Hshape Hr) in Hout.
    unfold size0. rewrite Houtputs, !bind_lift_Return.
    rewrite (gather_positions_fails outputs _ n l h r Houtputs); try assumption.
    + reflexivity.
    + cbn [tmap data]. rewrite (nth_map_lt _ _ _ _ 0%Z) by lia.
      apply in_range_decrement; [assumption| |assumption].
      apply is_long_nth; [assumption|lia].
  - unfold select_dim1. rewrite Houtputs.
    now rewrite (norm_index_out_of_range l 0 Hout).
Qed.

(** X12: when the width of the hidden vectors is not the input width of
    [pool_layer], or the output width of [pool_layer] is not the input width
    of [multichoice_head], [PoolingModel.forward] fails with a
    [RuntimeError] after the call of the language model. *)
Theorem X12_pooling_layer_width_mismatch :
  wf outputs ->
  In (PoolingModel.pool_token self) ["start"; "pad"; "cls"]%string ->
  (PoolingModel.pool_token self <> "cls"%string ->
   shape flat_mask = [n] /\ wf flat_mask) ->
  positions_in_range (PoolingModel.pool_token self) flat_mask n l = true ->
  0 < l -> (Z.of_nat l <= 2 ^ 63)%Z ->
  in_features (PoolingModel.pool_layer self) <> h \/
  in_features (PoolingModel.multichoice_head self) <>
  out_features (PoolingModel.pool_layer self) ->
  PoolingModel.forward E self input_ids position_ids attention_mask =
  mkRun [(flat_ids, flat_positions, flat_mask)] (Raise RuntimeError).
Proof using Hflatten Hsingle Hmodel Houtputs.
  intros Hwf Htoken Hpositions Hrange Hseq Hlong Hwidth.
  apply (pooling_forward_fails E self _ _ _ _ _ _ _ _ _ Hflatten Hsingle).
  unfold PoolingModel.forward.
  destruct (Nat.eqb_spec (rank flat_ids) 3) as [Heq|_];
    [now apply (flatten_pooling_rank _ _ _ _ _ _ _ Hflatten) in Heq|].
  rewrite bind_ret. cbv beta iota.
  rewrite (bind_invoke _ _ _ _ _ _ Hmodel). cbv beta iota.
  rewrite (pooling_select self flat_mask outputs n l h Houtputs Htoken Hpositions
             Hrange Hseq Hlong), bind_lift_Return.
  destruct (Nat.eq_dec (in_features (PoolingModel.pool_layer self)) h) as [Hpool|Hpool].
  - destruct Hwidth as [Hwidth|Hwidth]; [contradiction|].
    rewrite (Linear_apply_rows _ n h _ Hpool
               (length_pooled self flat_mask outputs n l h Houtputs Hwf Hrange)),
      bind_lift_Return.
    unfold Linear_apply, Dropout_apply, ttanh, tmap. cbn [shape data last].
    destruct (Nat.eqb_spec (out_features (PoolingModel.pool_layer self))
                (in_features (PoolingModel.multichoice_head self))) as [Heq|_];
      [congruence|reflexivity].
  - unfold Linear_apply. cbn [shape data last].
    destruct (Nat.eqb_spec h (in_features (PoolingModel.pool_layer self))) as [Heq|_];
      [congruence|reflexivity].
Qed.
End PoolingFailures.

Lemma X11_pooling_position_out_of_range_witness :
  positions_in_range "start" (mkTensor [2] [2; 0]%Z) 2 2 = false /\
  PoolingModel.forward sample_engine (sample_pooling "start" 1) sample_ids sample_ids
    (mkTensor [2] [2; 0]%Z) =
  mkRun [(sample_ids, sample_ids, mkTensor [2] [2; 0]%Z)] (Raise IndexError).
Proof.
  split; [reflexivity|].
  apply (X11_pooling_position_out_of_range sample_engine (sample_pooling "start" 1)
           sample_ids sample_ids (mkTensor [2] [2; 0]%Z) None sample_ids sample_ids
           (mkTensor [2] [2; 0]%Z) sample_outputs [7; 8] 2 2 3);
    try reflexivity.
  - left; reflexivity.
  - intros _. repeat split.
Defined.

Lemma X12_pooling_layer_width_mismatch_witness :
  in_features (PoolingModel.pool_layer sample_wide_pooling) <> 3 /\
  PoolingModel.forward sample_engine sample_wide_pooling sample_ids sample_ids
    sample_positions =
  mkRun [(sample_ids, sample_ids, sample_positions)] (Raise RuntimeError).
Proof.
  assert (Hwidth : in_features (PoolingModel.pool_layer sample_wide_pooling) <> 3)
    by discriminate.
  split; [exact Hwidth|].
  apply (X12_pooling_layer_width_mismatch sample_engine sample_wide_pooling sample_ids
           sample_ids sample_positions None sample_ids sample_ids sample_positions
           sample_outputs [7; 8] 2 2 3);
    try reflexivity.
  - right; right; left; reflexivity.
  - intros H. now contradiction H.
  - lia.
  - lia.
  - left. exact Hwidth.
Defined.

(** ** Pooling each choice alone *)

Lemma dropout_from_eval (d : Dropout) (start : nat) (l : list float) :
  (forall q x, draw d q x = x) -> dropout_from d start l = l.
Proof.
  intros Heval. unfold dropout_from.
  revert start. induction l as [|x l IH]; intros start; [reflexivity|].
  cbn [length seq combine map fst snd]. now rewrite Heval, IH.
Qed.

Section PoolingChoices.
Context {mem : Type}.
Variable E : Engine.
Variable self : PoolingModel.t (mem := mem).
Variables input_ids position_ids attention_mask : tensor Z.
Variables b c s h : nat.
Variable position_dims : list nat.
Variable f : list Z -> list Z -> list Z -> list float.

Hypothesis Hinput : shape input_ids = [b; c; s].
Hypothesis Hwf_input : wf input_ids.
Hypothesis Hpos : shape position_ids = b :: c :: position_dims.
Hypothesis Hwf_pos : wf position_ids.
Hypothesis Ham : shape attention_mask = [b; c].
Hypothesis Hwf_am : wf attention_mask.
Hypothesis Hc : 0 < c.
Hypothesis Hs : 0 < s.
Hypothesis Hposdims : 0 < numel position_dims.
Hypothesis Hlong : (Z.of_nat s <= 2 ^ 63)%Z.
Hypothesis Hclass : PoolingModel.num_class self = 1.
Hypothesis Htoken : In (PoolingModel.pool_token self) ["start"; "pad"; "cls"]%string.
Hypothesis Hrange :
  positions_in_range (PoolingModel.pool_token self)
    (mkTensor [b * c] (data attention_mask)) (b * c) s = true.
Hypothesis Hpool : in_features (PoolingModel.pool_layer self) = h.
Hypothesis Hhead :
  in_features (PoolingModel.multichoice_head self) =
  out_features (PoolingModel.pool_layer self).
Hypothesis Hout : out_features (PoolingModel.multichoice_head self) = 1.
Hypothesis Hrow_wise : row_wise (PoolingModel.model self) f h.
Hypothesis Heval : forall q x, draw (PoolingModel.multichoice_dropout self) q x = x.

(** The logits of one row in evaluation mode, from the outputs of the row
    and the position pooled. *)
Let row_logits (outputs_row : list float) (z : Z) : list float :=
  affine (PoolingModel.multichoice_head self)
    (map (torch_tanh E)
       (affine (PoolingModel.pool_layer self)
          (block h outputs_row (pos_index s z)))).

Lemma length_row_logits (ids_row pos_row am_row : list Z) (z : Z) :
  length ids_row = s -> in_range s z = true ->
  length (row_logits (f ids_row pos_row am_row) z) = 1.
Proof using Hpool Hhead Hout Hrow_wise.
  intros Hlen Hz. unfold row_logits. rewrite <- Hout.
  apply affine_length. rewrite length_map, Hhead.
  apply affine_length. rewrite Hpool.
  apply length_block. destruct Hrow_wise as [Hf _]. rewrite Hf, Hlen.
  rewrite Nat.add_1_r. apply Nat.mul_le_mono_r. exact (pos_index_lt s z Hz).
Qed.

Lemma pooling_forward_rows (ids pos am : tensor Z) (n : nat) :
  shape ids = [n; s] -> length (data ids) = n * s ->
  shape am = [n] -> wf am ->
  positions_in_range (PoolingModel.pool_token self) am n s = true ->
  exists mems,
    PoolingModel.forward E self ids pos am =
    mkRun [(ids, pos, am)]
      (Return (mkTensor [n; 1]
                 (concat (tabulate n (fun r =>
                    row_logits (f (trow ids r) (trow pos r) (trow am r))
                      (pool_position (PoolingModel.pool_token self) am r)))),
               mems)).
Proof using Hs Hlong Htoken Hpool Hhead Hout Hrow_wise Heval.
  intros Hi Hwi Ha Hwa Hpositions.
  destruct (row_wise_outputs (PoolingModel.model self) f h ids pos am n s
              Hrow_wise Hi Hwi) as [outputs [mems [Hlm [Ho [Hwo Hrows]]]]].
  exists mems.
  rewrite (pooling_forward_flat E self ids pos am outputs mems n s h);
    try assumption.
  - rewrite Hout. do 5 f_equal.
    apply tabulate_ext. intros r Hr.
    pose proof (positions_in_range_nth _ _ n s r Hpositions Hr) as Hz.
    unfold classifier, row_logits.
    rewrite (dropout_from_eval _ _ _ Heval).
    rewrite (vector_at2 outputs n s h r _ Ho Hr Hz).
    rewrite <- (Hrows r Hr). unfold trow. rewrite Ho.
    cbn [tl numel fold_right]. rewrite Nat.mul_1_r.
    rewrite block_block; [reflexivity|now apply pos_index_lt].
  - unfold rank. rewrite Hi. discriminate.
  - intros _. split; assumption.
Qed.

(** X13: in evaluation mode (dropout is the identity), for a language
    model that computes every output row from the matching input rows only,
    the logit at [i, j] of [PoolingModel.forward] on [b, c, s] inputs is the
    logit that [forward] gives row [i] of the 2-D batch made of choice [j]
    alone. *)
Theorem X13_pooling_choice_independence :
  exists logits mems,
    result (PoolingModel.forward E self input_ids position_ids attention_mask) =
    Return (logits, mems) /\
    shape logits = [b; c] /\
    forall j, j < c ->
    forall ids_j pos_j am_j : tensor Z,
      select_dim1 input_ids (Z.of_nat j) = Return ids_j ->
      select_dim1 position_ids (Z.of_nat j) = Return pos_j ->
      select_dim1 attention_mask (Z.of_nat j) = Return am_j ->
      exists logits_j mems_j,
        result (PoolingModel.forward E self ids_j pos_j am_j) =
        Return (logits_j, mems_j) /\
        shape logits_j = [b; 1] /\
        forall i, i < b ->
          exists x, tget logits_j [i; 0] = Some x /\ tget logits [i; j] = Some x.
Proof.
  assert (Hflat_ids : reshape_infer input_ids [last (shape input_ids) 0] =
                      Return (mkTensor [b * c; s] (data input_ids))).
  { rewrite Hinput. cbn [last].
    apply (reshape_choices input_ids b c [s] Hinput). simpl. lia. }
  assert (Hflat_am : reshape_infer attention_mask (skipn 2 (shape attention_mask)) =
                     Return (mkTensor [b * c] (data attention_mask))).
  { rewrite Ham. cbn [skipn]. apply (reshape_choices attention_mask b c [] Ham).
    simpl. lia. }
  assert (Hflat_pos : reshape_infer position_ids (skipn 2 (shape position_ids)) =
                      Return (mkTensor (b * c :: position_dims) (data position_ids))).
  { rewrite Hpos. cbn [skipn]. now apply reshape_choices. }
  assert (Hlen_ids : length (data input_ids) = b * c * s)
    by (unfold wf in Hwf_input; rewrite Hwf_input, Hinput; simpl; lia).
  assert (Hlen_am : length (data attention_mask) = b * c)
    by (unfold wf in Hwf_am; rewrite Hwf_am, Ham; simpl; lia).
  destruct (pooling_forward_rows
              (mkTensor [b * c; s] (data input_ids))
              (mkTensor (b * c :: position_dims) (data position_ids))
              (mkTensor [b * c] (data attention_mask)) (b * c))
    as [mems Hforward]; try reflexivity; try assumption.
  { unfold wf. cbn [shape data numel fold_right]. lia. }
  assert (Hrow_len : forall (t : tensor Z) (n r : nat),
            shape t = [n; s] -> length (data t) = n * s -> r < n ->
            length (trow t r) = s).
  { intros t n r Ht Hl Hr. rewrite (length_trow t n [s] r Ht); simpl; lia. }
  assert (Hflat_rows : forall r, r < b * c ->
            length (row_logits
                      (f (trow (mkTensor [b * c; s] (data input_ids)) r)
                         (trow (mkTensor (b * c :: position_dims) (data position_ids)) r)
                         (trow (mkTensor [b * c] (data attention_mask)) r))
                      (pool_position (PoolingModel.pool_token self)
                         (mkTensor [b * c] (data attention_mask)) r)) = 1).
  { intros r Hr. apply length_row_logits.
    - now apply (Hrow_len _ (b * c)).
    - now apply (positions_in_range_nth _ _ (b * c) s). }
  eexists. exists mems. split; [|split].
  - rewrite (pooling_forward_choices E self input_ids position_ids attention_mask
               (mkTensor [b * c; s] (data input_ids))
               (mkTensor (b * c :: position_dims) (data position_ids))
               (mkTensor [b * c] (data attention_mask)));
      try assumption.
    + rewrite Hforward, Hinput. cbn [nth].
      rewrite (view_choices_flat c (b * c) [1]); [|assumption|].
      * cbn [choice_shape numel fold_right]. rewrite !Nat.mul_1_r.
        rewrite Nat.div_mul by lia. reflexivity.
      * cbn [numel fold_right]. rewrite !Nat.mul_1_r. apply Nat.Div0.mod_mul.
    + unfold rank. now rewrite Hinput.
    + discriminate.
  - reflexivity.
  - intros j Hj ids_j pos_j am_j Hsi Hsp Hsa.
    rewrite (select_choice input_ids b c j [s] Hinput Hj) in Hsi.
    rewrite (select_choice position_ids b c j _ Hpos Hj) in Hsp.
    rewrite (select_choice attention_mask b c j [] Ham Hj) in Hsa.
    inversion Hsi; inversion Hsp; inversion Hsa.
    clear Hsi Hsp Hsa. subst ids_j pos_j am_j.
    assert (Hposition : forall i, i < b ->
              pool_position (PoolingModel.pool_token self)
                (mkTensor [b]
                   (concat (tabulate b (fun r =>
                      block (numel []) (data attention_mask) (r * c + j))))) i =
              pool_position (PoolingModel.pool_token self)
                (mkTensor [b * c] (data attention_mask)) (i * c + j)).
    { intros i Hi.
      assert (Hnth : nth i (concat (tabulate b (fun r =>
                         block (numel []) (data attention_mask) (r * c + j)))) 0%Z =
                     nth (i * c + j) (data attention_mask) 0%Z).
      { cbn [numel fold_right].
        replace i with (i * 1 + 0) at 1 by lia.
        rewrite (nth_concat_tabulate 1 b) by
          (try assumption; try lia; intros r Hr; apply length_block;
           pose proof (flat_index_lt b c r j Hr Hj); lia).
        rewrite nth_block by lia. now rewrite Nat.mul_1_r, Nat.add_0_r. }
      unfold pool_position, zitem.
      rewrite (item1 _ (mkTensor [b] _) b i eq_refl Hi).
      rewrite (item1 _ (mkTensor [b * c] _) (b * c) (i * c + j) eq_refl)
        by now apply flat_index_lt.
      cbn [data]. now rewrite Hnth. }
    match goal with
    | |- context [PoolingModel.forward E self ?i ?ps ?a] =>
        destruct (pooling_forward_rows i ps a b) as [mems_j Hforward_j]
    end; try reflexivity.
    { cbn [data]. rewrite (length_concat_tabulate (numel [s]) b).
      - simpl. lia.
      - intros r Hr. apply length_block.
        pose proof (flat_index_lt b c r j Hr Hj). simpl. nia. }
    { now apply wf_choice. }
    { unfold positions_in_range. apply forallb_forall. intros i Hi.
      apply in_seq in Hi. rewrite Hposition by lia.
      apply (positions_in_range_nth _ _ (b * c) s); [assumption|].
      apply flat_index_lt; [lia|assumption]. }
    eexists. exists mems_j. split; [rewrite Hforward_j; reflexivity|].
    split; [reflexivity|].
    intros i Hi.
    assert (Hq : i * c + j < b * c) by now apply flat_index_lt.
    exists (nth 0 (row_logits
                     (f (trow (mkTensor [b * c; s] (data input_ids)) (i * c + j))
                        (trow (mkTensor (b * c :: position_dims) (data position_ids))
                           (i * c + j))
                        (trow (mkTensor [b * c] (data attention_mask)) (i * c + j)))
                     (pool_position (PoolingModel.pool_token self)
                        (mkTensor [b * c] (data attention_mask)) (i * c + j))) nan).
    split.
    + rewrite (tget2 (mkTensor [b; 1] _) b 1 i 0 eq_refl Hi) by lia. cbn [data].
      change (s * 1) with (numel [s]).
      rewrite <- (trow_choice input_ids b c j i [s] Hinput Hwf_input Hj Hi).
      rewrite <- (trow_choice position_ids b c j i _ Hpos Hwf_pos Hj Hi).
      rewrite <- (trow_choice attention_mask b c j i [] Ham Hwf_am Hj Hi).
      rewrite <- (Hposition i Hi).
      set (rows := fun r => row_logits _ _).
      assert (Hrows : forall r, r < b -> length (rows r) = 1).
      { intros r Hr. unfold rows. apply length_row_logits.
        - apply (Hrow_len _ b); [reflexivity| |assumption].
          cbn [data]. rewrite (length_concat_tabulate (numel [s]) b).
          + simpl. lia.
          + intros r' Hr'. apply length_block.
            pose proof (flat_index_lt b c r' j Hr' Hj). simpl. nia.
        - rewrite Hposition by assumption.
          apply (positions_in_range_nth _ _ (b * c) s); [assumption|].
          now apply flat_index_lt. }
      rewrite (nth_error_nth' _ nan)
        by (rewrite (length_concat_tabulate 1 b) by assumption; lia).
      now rewrite (nth_concat_tabulate 1 b) by (try assumption; lia).
    + rewrite (tget2 (mkTensor [b; c] _) b c i j eq_refl Hi Hj). cbn [data].
      rewrite (nth_error_nth' _ nan)
        by (rewrite (length_concat_tabulate 1 (b * c)) by assumption; lia).
      replace (i * c + j) with ((i * c + j) * 1 + 0) at 1 by lia.
      now rewrite (nth_concat_tabulate 1 (b * c)) by (try assumption; lia).
Qed.
End PoolingChoices.

Lemma X13_pooling_choice_independence_witness :
  shape sample_choices = [1; 2; 2] /\
  shape sample_choice_positions = [1; 2] /\
  positions_in_range "start" (mkTensor [1 * 2] (data sample_choice_positions))
    (1 * 2) 2 = true /\
  row_wise (PoolingModel.model (sample_pooling "start" 1)) sample_row 3 /\
  (forall q x, draw (PoolingModel.multichoice_dropout (sample_pooling "start" 1)) q x = x) /\
  exists logits mems,
    result (PoolingModel.forward sample_engine (sample_pooling "start" 1)
              sample_choices sample_choices sample_choice_positions) =
    Return (logits, mems) /\
    shape logits = [1; 2] /\
    forall j, j < 2 ->
    forall ids_j pos_j am_j : tensor Z,
      select_dim1 sample_choices (Z.of_nat j) = Return ids_j ->
      select_dim1 sample_choices (Z.of_nat j) = Return pos_j ->
      select_dim1 sample_choice_positions (Z.of_nat j) = Return am_j ->
      exists logits_j mems_j,
        result (PoolingModel.forward sample_engine (sample_pooling "start" 1)
                  ids_j pos_j am_j) =
        Return (logits_j, mems_j) /\
        shape logits_j = [1; 1] /\
        forall i, i < 1 ->
          exists x, tget logits_j [i; 0] = Some x /\ tget logits [i; j] = Some x.
Proof.
  split; [reflexivity|]. split; [reflexivity|]. split; [reflexivity|].
  split; [exact sample_model_row_wise|]. split; [reflexivity|].
  apply (X13_pooling_choice_independence sample_engine (sample_pooling "start" 1)
           sample_choices sample_choices sample_choice_positions 1 2 2 3 [2]
           sample_row);
    try reflexivity; try (simpl; lia).
  - left; reflexivity.
  - exact sample_model_row_wise.
Defined.
